(** * Trade Dangerous GUI: the engine behind [td_gui.py]

    A shallow embedding of the non-visual parts of [src/td_gui.py]: the
    option and command models, the selection state kept in
    [widget_vars] / [_selected], the argument builder [_build_args], the
    preference store ([_load_prefs], [_save_prefs],
    [_save_state_for_label], [_apply_saved_state_for_current]) and the
    route parser [_parse_routes]; then the loading of the commands
    ([_flatten_args], [load_commands]), the preview of the command line,
    the timer text, the route cards, the flat export and the line
    wrapping of the PDF export.

    Python [str] values are sequences of Unicode code points; they are
    modelled as lists of code points ([N]).  Python dictionaries keep
    insertion order and are modelled as association lists.  A Tk variable
    is modelled by its value, and the callbacks traced on it run where the
    source writes it.  What only the display needs (grid rows, help
    labels, colours, scrolling) is left out: it is computed from the
    state kept here and never read back. *)

From Stdlib Require Import Ascii String.
From Stdlib Require Import List Bool Arith NArith ZArith Lia.
From Stdlib Require Import Permutation.
From Stdlib Require Decimal QArith.
Import ListNotations.

Set Warnings "-register-all".

(* ================================================================== *)
(** * Text *)

Module Text.
Local Open Scope N_scope.

Definition char := N.
Definition str := list char.

(** A string literal of the source, as code points. *)
Definition lit (s : string) : str := map N_of_ascii (list_ascii_of_string s).

Definition chr (a : ascii) : char := N_of_ascii a.

Fixpoint str_eqb (a b : str) : bool :=
  match a, b with
  | [], [] => true
  | x :: a', y :: b' => N.eqb x y && str_eqb a' b'
  | _, _ => false
  end.

(** [ch.isspace()] and the class [\s] of [re] (both are CPython's
    [Py_UNICODE_ISSPACE]). *)
Definition isspace (c : char) : bool :=
  ((9 <=? c) && (c <=? 13)) || ((28 <=? c) && (c <=? 32))
  || (c =? 133) || (c =? 160) || (c =? 5760)
  || ((8192 <=? c) && (c <=? 8202))
  || (c =? 8232) || (c =? 8233) || (c =? 8239) || (c =? 8287)
  || (c =? 12288).

Fixpoint dropwhile (p : char -> bool) (s : str) : str :=
  match s with
  | [] => []
  | c :: s' => if p c then dropwhile p s' else s
  end.

(** [s.lstrip()], [s.rstrip()], [s.strip()] *)
Definition lstrip (s : str) : str := dropwhile isspace s.
Definition rstrip (s : str) : str := rev (dropwhile isspace (rev s)).
Definition strip (s : str) : str := rstrip (lstrip s).

(** [s.lstrip('-')] *)
Definition lstrip_dash (s : str) : str := dropwhile (N.eqb (chr "-")) s.

(** Truth value of a string: [bool(s)] *)
Definition nonempty {A : Type} (l : list A) : bool :=
  match l with [] => false | _ => true end.

(** [s.startswith(p)] *)
Fixpoint startswith (p s : str) : bool :=
match p, s with
| [], _ => true
| x :: p', y :: s' => N.eqb x y && startswith p' s'
| _ :: _, [] => false
end.

(** [p in s] for strings (substring test). *)
Fixpoint contains (p s : str) : bool :=
startswith p s || match s with [] => false | _ :: s' => contains p s' end.

(** [sep.join(parts)] *)
Fixpoint join (sep : str) (parts : list str) : str :=
match parts with
| [] => []
| [p] => p
| p :: rest => p ++ sep ++ join sep rest
end.

(** [s.split(sep)] for a one-character separator: the pieces between the
  separators, empty pieces included; never an empty list. *)
Fixpoint split_from (sep : char) (cur : str) (s : str) : list str :=
match s with
| [] => [cur]
| c :: s' => if N.eqb c sep then cur :: split_from sep [] s'
             else split_from sep (cur ++ [c]) s'
end.
Definition split (sep : char) (s : str) : list str := split_from sep [] s.

(** The line boundaries of [str.splitlines]: LF, VT, FF, CR, FS, GS, RS,
  NEL, LS, PS (CR LF counts as one). *)
Definition is_linebreak (c : char) : bool :=
((10 <=? c) && (c <=? 13)) || ((28 <=? c) && (c <=? 30))
|| (c =? 133) || (c =? 8232) || (c =? 8233).

Fixpoint splitlines_from (cur : str) (s : str) : list str :=
match s with
| [] => match cur with [] => [] | _ => [cur] end
| c :: rest =>
    if c =? 13 then
      match rest with
      | d :: rest' =>
          if d =? 10 then cur :: splitlines_from [] rest'
          else cur :: splitlines_from [] rest
      | [] => [cur]
      end
    else if is_linebreak c then cur :: splitlines_from [] rest
    else splitlines_from (cur ++ [c]) rest
end.
Definition splitlines (s : str) : list str := splitlines_from [] s.

(** [str(n)] for an integer. *)
Fixpoint digits_of_uint (u : Decimal.uint) : str :=
match u with
| Decimal.Nil => []
| Decimal.D0 u' => 48 :: digits_of_uint u'
| Decimal.D1 u' => 49 :: digits_of_uint u'
| Decimal.D2 u' => 50 :: digits_of_uint u'
| Decimal.D3 u' => 51 :: digits_of_uint u'
| Decimal.D4 u' => 52 :: digits_of_uint u'
| Decimal.D5 u' => 53 :: digits_of_uint u'
| Decimal.D6 u' => 54 :: digits_of_uint u'
| Decimal.D7 u' => 55 :: digits_of_uint u'
| Decimal.D8 u' => 56 :: digits_of_uint u'
| Decimal.D9 u' => 57 :: digits_of_uint u'
end.

Definition str_of_Z (z : Z) : str :=
match z with
| Z0 => [48]
| Zpos p => digits_of_uint (Pos.to_uint p)
| Zneg p => chr "-" :: digits_of_uint (Pos.to_uint p)
end.

End Text.
Import Text.

(* ================================================================== *)
(** * The two regular expressions of the parser

  [re] is a backtracking matcher; the embedding keeps its order of
  alternatives (greedy quantifiers try the longest repetition first,
  lazy ones the shortest).  Every quantifier of the two patterns of the
  source ranges over a one-character class, which is what [Star] and
  [LazyStar] take. *)

Module Re.

Inductive regex :=
| Eps
| Bol                                   (* ^ *)
| Eol                                   (* $ *)
| Cls (p : char -> bool)                (* one character of a class *)
| Star (p : char -> bool)               (* c*  *)
| LazyStar (p : char -> bool)           (* c*? *)
| Cat (r1 r2 : regex)
| Opt (r : regex)                       (* (?:r)? *)
| Grp (i : nat) (r : regex).            (* the i-th capturing group *)

(** group number |-> (start, end) offsets into the subject *)
Definition captures := list (nat * (nat * nat)).

Definition outcome := (nat * captures)%type.

Fixpoint star (p : char -> bool) (s : str) (pos : nat) (cs : captures)
         (k : str -> nat -> captures -> option outcome) : option outcome :=
  match s with
  | c :: s' =>
      if p c then
        match star p s' (S pos) cs k with
        | Some o => Some o
        | None => k s pos cs
        end
      else k s pos cs
  | [] => k s pos cs
  end.

Fixpoint lazy_star (p : char -> bool) (s : str) (pos : nat) (cs : captures)
         (k : str -> nat -> captures -> option outcome) : option outcome :=
  match k s pos cs with
  | Some o => Some o
  | None =>
      match s with
      | c :: s' => if p c then lazy_star p s' (S pos) cs k else None
      | [] => None
      end
  end.

Fixpoint exec (r : regex) (s : str) (pos : nat) (cs : captures)
         (k : str -> nat -> captures -> option outcome) : option outcome :=
  match r with
  | Eps => k s pos cs
  | Bol => if Nat.eqb pos 0 then k s pos cs else None
  | Eol =>
      match s with
      | [] => k s pos cs
      | [c] => if N.eqb c 10%N then k s pos cs else None
      | _ => None
      end
  | Cls p =>
      match s with
      | c :: s' => if p c then k s' (S pos) cs else None
      | [] => None
      end
  | Star p => star p s pos cs k
  | LazyStar p => lazy_star p s pos cs k
  | Cat r1 r2 => exec r1 s pos cs (fun s' pos' cs' => exec r2 s' pos' cs' k)
  | Opt r1 =>
      match exec r1 s pos cs k with
      | Some o => Some o
      | None => k s pos cs
      end
  | Grp i r1 =>
      exec r1 s pos cs (fun s' pos' cs' => k s' pos' ((i, (pos, pos')) :: cs'))
  end.

(** [pattern.match(s)]: a match anchored at the start of [s]; the result
    is the end offset and the groups. *)
Definition re_match (r : regex) (s : str) : option outcome :=
  exec r s 0 [] (fun _ pos cs => Some (pos, cs)).

Fixpoint find_group (i : nat) (cs : captures) : option (nat * nat) :=
  match cs with
  | [] => None
  | (j, be) :: cs' => if Nat.eqb i j then Some be else find_group i cs'
  end.

(** [m.group(i)] *)
Definition group (s : str) (o : outcome) (i : nat) : str :=
  match find_group i (snd o) with
  | Some (b, e) => firstn (e - b) (skipn b s)
  | None => []
  end.

(** A literal piece of a pattern. *)
Fixpoint Lit (s : str) : regex :=
  match s with
  | [] => Eps
  | c :: s' => Cat (Cls (N.eqb c)) (Lit s')
  end.

(** [.] (without DOTALL): anything but a line feed. *)
Definition dot (c : char) : bool := negb (N.eqb c 10%N).

(** [re.sub(r, empty, s)] for a pattern that never matches the empty string:
    scan from the left; where the pattern matches, drop the match and go
    on after it.  [skip] counts the characters of the current match still
    to be dropped. *)
Fixpoint sub_empty_from (r : regex) (skip : nat) (s : str) : str :=
  match s with
  | [] => []
  | c :: s' =>
      match skip with
      | S n => sub_empty_from r n s'
      | O =>
          match re_match r s with
          | Some (S n, _) => sub_empty_from r n s'
          | _ => c :: sub_empty_from r 0 s'
          end
      end
  end.
Definition sub_empty (r : regex) (s : str) : str := sub_empty_from r 0 s.

End Re.
Import Re.

(* ================================================================== *)
(** * The route parser *)

Infix ";;" := Cat (at level 61, right associativity).

(** The colour sequences: ESC, an opening bracket, any run of digits and
    semicolons, and the letter m. *)
Definition ansi_pat : regex :=
  Cls (N.eqb 27%N) ;; Cls (N.eqb (chr "[")) ;;
  Star (fun c => ((48 <=? c) && (c <=? 57))%N || N.eqb c (chr ";")) ;;
  Cls (N.eqb (chr "m")).

Definition _strip_ansi (s : str) : str := sub_empty ansi_pat s.

(** The block-start pattern; with blanks between its pieces it reads
      ^  \s*  (.+?)  \s*  ->  \s*  (.+?)  (?: \s* \(score: .* )?  \s*  $    *)
Definition start_pat : regex :=
  Bol ;; Star isspace ;;
  Grp 1 (Cls dot ;; LazyStar dot) ;;
  Star isspace ;; Lit (lit "->") ;; Star isspace ;;
  Grp 2 (Cls dot ;; LazyStar dot) ;;
  Opt (Star isspace ;; Lit (lit "(score:") ;; Star dot) ;;
  Star isspace ;; Eol.

Record Route := { block : str; dest : str }.

Definition nl : str := [10%N].

(** [m = start_pat.match(current[0])], then [m.group(2).strip()] when
    there is a match and the empty string otherwise. *)
Definition dest_of_line (ln : str) : str :=
  match re_match start_pat ln with
  | Some o => strip (group ln o 2)
  | None => []
  end.

Definition is_start (ln : str) : bool :=
  match re_match start_pat ln with Some _ => true | None => false end.

(** Closing the block under construction: the body shared by the two
    places of the source that append to [routes]. *)
Definition close_block (routes : list Route) (current : list str) : list Route :=
  let b := strip (join nl current) in
  if nonempty b
  then routes ++ [{| block := b; dest := dest_of_line (hd [] current) |}]
  else routes.

(** The loop over the lines, with the locals [routes] and [current]. *)
Fixpoint parse_lines (lines : list str) (routes : list Route) (current : list str)
  : list Route :=
  match lines with
  | [] => if nonempty current then close_block routes current else routes
  | ln :: rest =>
      let '(routes1, current1) :=
        if is_start ln && nonempty current
        then (close_block routes current, [])
        else (routes, current) in
      if str_eqb (strip ln) []
      then if nonempty current1
           then parse_lines rest routes1 (current1 ++ [ln])
           else parse_lines rest routes1 current1
      else parse_lines rest routes1 (current1 ++ [ln])
  end.

Definition _parse_routes (text : str) : list Route :=
  parse_lines (splitlines (_strip_ansi text)) [] [].

(* ================================================================== *)
(** * Dictionaries

    A Python [dict] keeps its keys in insertion order; assigning to a key
    that is present keeps its place, a new key goes to the end. *)

Section Dict.
Variables K V : Type.
Variable eqb : K -> K -> bool.

(** [d.get(k)] *)
Fixpoint dict_get (k : K) (d : list (K * V)) : option V :=
  match d with
  | [] => None
  | (k', v) :: d' => if eqb k k' then Some v else dict_get k d'
  end.

(** [k in d] *)
Definition dict_mem (k : K) (d : list (K * V)) : bool :=
  match dict_get k d with Some _ => true | None => false end.

(** [d[k] = v] *)
Fixpoint dict_set (k : K) (v : V) (d : list (K * V)) : list (K * V) :=
  match d with
  | [] => [(k, v)]
  | (k', v') :: d' =>
      if eqb k k' then (k', v) :: d' else (k', v') :: dict_set k v d'
  end.

(** [d.pop(k, None)], as far as [d] is concerned *)
Definition dict_pop (k : K) (d : list (K * V)) : list (K * V) :=
  filter (fun kv => negb (eqb k (fst kv))) d.

(** [d.update(e)] *)
Definition dict_update (e d : list (K * V)) : list (K * V) :=
  fold_left (fun acc kv => dict_set (fst kv) (snd kv) acc) e d.
End Dict.

Arguments dict_get {K V} eqb k d.
Arguments dict_mem {K V} eqb k d.
Arguments dict_set {K V} eqb k v d.
Arguments dict_pop {K V} eqb k d.
Arguments dict_update {K V} eqb e d.

(* ================================================================== *)
(** * JSON documents, as [json.load] returns them

    An object is the list of its entries in order ([json.load] never
    returns two entries under one key); a number with a fraction or an
    exponent is a float. *)

Inductive json :=
| JNull
| JBool (b : bool)
| JInt (z : Z)
| JFloat (is_zero : bool) (repr : str)   (* a float: whether it is 0.0, and its text *)
| JStr (s : str)
| JArr (l : list json)
| JObj (d : list (str * json)).

Definition jdict := list (str * json).

Definition jget (k : string) (d : jdict) : option json := dict_get str_eqb (lit k) d.
Definition jset (k : string) (v : json) (d : jdict) : jdict := dict_set str_eqb (lit k) v d.

(** [bool(x)] *)
Definition truthy (x : json) : bool :=
  match x with
  | JNull => false
  | JBool b => b
  | JInt z => negb (Z.eqb z 0)
  | JFloat is_zero _ => negb is_zero
  | JStr s => nonempty s
  | JArr l => nonempty l
  | JObj d => nonempty d
  end.

(* ================================================================== *)
(** * Option and command models *)

(** The values a declaration's [default] takes.  The engine reads a
    default twice: it compares it with [None] and [False], and it takes
    its [str()].  A default of another type (the empty list of an option
    that collects values) is neither, and is carried by its text, as
    [PStr]. *)
Inductive pyval :=
| PNone
| PBool (b : bool)
| PInt (z : Z)
| PFloat (is_zero : bool) (repr : str)
| PStr (s : str).

(** [OptionSpec].  The class is declared with [eq=False]: two specs are
    the same only when they are the same object, which [oid] stands for.
    [args] is never empty ([arg0] is [args[0]]); of [kwargs] the entries
    the engine reads are kept (help, metavar and choices only feed
    labels). *)
Record OptionSpec := {
  oid : nat;
  arg0 : str;
  arg_rest : list str;
  kw_dest : option str;
  kw_action : option str;
  kw_default : pyval;
  group_id : option nat
}.

Definition args (s : OptionSpec) : list str := arg0 s :: arg_rest s.

Definition long_flag (s : OptionSpec) : str :=
  match filter (startswith (lit "--")) (args s) with
  | l :: _ => l
  | [] => arg0 s
  end.

Definition display_name (s : OptionSpec) : str := long_flag s.

Definition action_is (a : string) (s : OptionSpec) : bool :=
  match kw_action s with Some x => str_eqb x (lit a) | None => false end.

Definition is_flag (s : OptionSpec) : bool := action_is "store_true" s.

Definition is_positional (s : OptionSpec) : bool :=
  negb (startswith (lit "-") (arg0 s)).

Definition multiple (s : OptionSpec) : bool := action_is "append" s.

(** [self.kwargs.get("dest") or self.args[0]] *)
Definition key (s : OptionSpec) : str :=
  match kw_dest s with
  | Some d => if nonempty d then d else arg0 s
  | None => arg0 s
  end.

Definition str_eq_dec : forall a b : str, {a = b} + {a <> b}.
Proof. apply list_eq_dec, N.eq_dec. Defined.

Definition pyval_eq_dec : forall a b : pyval, {a = b} + {a <> b}.
Proof.
  decide equality; auto using Bool.bool_dec, Z.eq_dec, str_eq_dec.
Defined.

Definition OptionSpec_eq_dec : forall a b : OptionSpec, {a = b} + {a <> b}.
Proof.
  decide equality;
    auto using Nat.eq_dec, str_eq_dec, pyval_eq_dec, list_eq_dec.
  - decide equality; apply Nat.eq_dec.
  - decide equality; apply str_eq_dec.
  - decide equality; apply str_eq_dec.
Defined.

(** [a is b] *)
Definition spec_is (a b : OptionSpec) : bool :=
  if OptionSpec_eq_dec a b then true else false.

(** [s in specs] *)
Definition spec_in (s : OptionSpec) (l : list OptionSpec) : bool :=
  existsb (spec_is s) l.

(** [CommandMeta] *)
Record CommandMeta := {
  name : str;
  arguments : list OptionSpec;
  switches : list OptionSpec;
  fixed_args : option (list str)
}.

(** ** [_categorize_current] *)

Definition sects : list (string * list string) :=
  [ ("Required", ["capacity"; "credits"]);
    ("Other", ["starting"; "ending"; "via"; "limit"; "blackMarket"; "unique";
               "pruneScores"; "shorten"; "routes"; "maxRoutes"; "pruneHops"]);
    ("Travel", ["goalSystem"; "loop"; "direct"; "hops"; "maxJumpsPer"; "maxLyPer";
                "emptyLyPer"; "startJumps"; "endJumps"; "showJumps"; "supply"; "demand"]);
    ("Filters", ["avoid"; "maxAge"; "lsPenalty"; "demand"; "supply"]);
    ("Constraints", ["padSize"; "noPlanet"; "planetary"; "fleet"; "odyssey"; "maxLs"]);
    ("Economy", ["minGainPerTon"; "maxGainPerTon"; "margin"; "insurance"]);
    ("Display", ["checklist"; "x52pro"; "progress"; "summary"]) ]%string.

(** The dictionary [by_dest] of the special layout. *)
Definition by_dest_step (d : list (str * OptionSpec)) (s : OptionSpec)
  : list (str * OptionSpec) :=
  let key2 := lstrip_dash (long_flag s) in
  let key1 := match kw_dest s with
              | Some x => if nonempty x then x else key2
              | None => key2
              end in
  let d1 := dict_set str_eqb key1 s d in
  if dict_mem str_eqb key2 d1 then d1 else dict_set str_eqb key2 s d1.

(** One section: the specs it takes, and [used] afterwards. *)
Fixpoint section_specs (by_dest : list (str * OptionSpec)) (names : list string)
         (used : list OptionSpec) : list OptionSpec * list OptionSpec :=
  match names with
  | [] => ([], used)
  | n :: names' =>
      match dict_get str_eqb (lit n) by_dest with
      | Some s =>
          if spec_in s used then section_specs by_dest names' used
          else let '(specs, used') := section_specs by_dest names' (used ++ [s]) in
               (s :: specs, used')
      | None => section_specs by_dest names' used
      end
  end.

Fixpoint all_sections (by_dest : list (str * OptionSpec))
         (ss : list (string * list string)) (used : list OptionSpec)
  : list (str * list OptionSpec) * list OptionSpec :=
  match ss with
  | [] => ([], used)
  | (title, names) :: ss' =>
      let '(specs, used1) := section_specs by_dest names used in
      let '(result, used2) := all_sections by_dest ss' used1 in
      (if nonempty specs then (lit title, specs) :: result else result, used2)
  end.

Definition categorize (m : CommandMeta) : list (str * list OptionSpec) :=
  let required := arguments m in
  let other := switches m in
  if str_eqb (name m) (lit "run") then
    let by_dest := fold_left by_dest_step (required ++ other) [] in
    let '(result, used) := all_sections by_dest sects [] in
    let remaining := filter (fun s => negb (spec_in s used)) (required ++ other) in
    if nonempty remaining then result ++ [(lit "Misc", remaining)] else result
  else [(lit "Required", required); (lit "Other", other)].

(** The specs of the layout, in the order the loops over it visit them. *)
Definition categorized_specs (m : CommandMeta) : list OptionSpec :=
  concat (map snd (categorize m)).

(** ** Python's [str()] of a JSON value

    A string is its own text; the other values print as [repr] does.  The
    escapes of [repr] for strings follow CPython for the code points below
    U+0100.  Code points from U+0100 on are copied, which is what CPython
    does with the printable ones; the escapes it writes for those that
    are not printable (U+2028 for one) are not modelled.  The text of
    [repr] reaches the engine in one place: the row of an option whose
    stored value is not a string. *)

Definition hex_digit (n : N) : char :=
  (if n <? 10 then 48 + n else 87 + n)%N.

Definition repr_char (quote : char) (c : char) : str :=
  if N.eqb c quote || N.eqb c 92 then [92%N; c]
  else if N.eqb c 9 then lit "\t"
  else if N.eqb c 10 then lit "\n"
  else if N.eqb c 13 then lit "\r"
  else if (c <? 32)%N || ((127 <=? c) && (c <=? 160))%N || N.eqb c 173
       then lit "\x" ++ [hex_digit (c / 16); hex_digit (c mod 16)]
  else [c].

Definition repr_str (s : str) : str :=
  let quote := if existsb (N.eqb 39) s && negb (existsb (N.eqb 34) s)
               then 34%N else 39%N in
  quote :: flat_map (repr_char quote) s ++ [quote].

Fixpoint py_repr (x : json) : str :=
  match x with
  | JNull => lit "None"
  | JBool true => lit "True"
  | JBool false => lit "False"
  | JInt z => str_of_Z z
  | JFloat _ r => r
  | JStr s => repr_str s
  | JArr l => lit "[" ++ join (lit ", ") (map py_repr l) ++ lit "]"
  | JObj d =>
      lit "{" ++ join (lit ", ")
                      (map (fun kv => repr_str (fst kv) ++ lit ": " ++ py_repr (snd kv)) d)
      ++ lit "}"
  end.

Definition py_str (x : json) : str :=
  match x with JStr s => s | _ => py_repr x end.

(* ================================================================== *)
(** * The application state

    The attributes of [TdGuiApp] the engine reads and writes.  The Tk
    variables are modelled by their values; the callbacks traced on them
    run where the source writes the variable. *)

(** The widgets of one row of the editor: a flag row holds a boolean,
    any other row a text. *)
Inductive Row :=
| RowFlag (flag : bool)
| RowValue (value : str).

(** The preferences file: missing, not JSON, or a document. *)
Inductive PrefsFile :=
| NoFile
| Unreadable
| Stored (doc : json).

Record App := {
  cmd_metas : list (str * CommandMeta);
  _suspend_save : bool;
  current_meta : option CommandMeta;
  _current_cmd_label : option str;
  cmd_var : str;
  widget_vars : list (OptionSpec * bool);
  _selected : list (OptionSpec * Row);
  cwd_var : str;
  db_var : str;
  linkly_var : str;
  detail_var : Z;
  quiet_var : Z;
  debug_var : Z;
  output : str;
  _prefs : jdict;
  _restore_cmd : json;
  prefs_file : PrefsFile
}.

Definition set_cmd_metas (x : list (str * CommandMeta)) (a : App) : App :=
  {| cmd_metas := x; _suspend_save := _suspend_save a; current_meta := current_meta a;
     _current_cmd_label := _current_cmd_label a; cmd_var := cmd_var a;
     widget_vars := widget_vars a; _selected := _selected a; cwd_var := cwd_var a;
     db_var := db_var a; linkly_var := linkly_var a; detail_var := detail_var a;
     quiet_var := quiet_var a; debug_var := debug_var a; output := output a;
     _prefs := _prefs a; _restore_cmd := _restore_cmd a; prefs_file := prefs_file a |}.

Definition set_suspend_save (x : bool) (a : App) : App :=
  {| cmd_metas := cmd_metas a; _suspend_save := x; current_meta := current_meta a;
     _current_cmd_label := _current_cmd_label a; cmd_var := cmd_var a;
     widget_vars := widget_vars a; _selected := _selected a; cwd_var := cwd_var a;
     db_var := db_var a; linkly_var := linkly_var a; detail_var := detail_var a;
     quiet_var := quiet_var a; debug_var := debug_var a; output := output a;
     _prefs := _prefs a; _restore_cmd := _restore_cmd a; prefs_file := prefs_file a |}.

Definition set_current_meta (x : option CommandMeta) (a : App) : App :=
  {| cmd_metas := cmd_metas a; _suspend_save := _suspend_save a; current_meta := x;
     _current_cmd_label := _current_cmd_label a; cmd_var := cmd_var a;
     widget_vars := widget_vars a; _selected := _selected a; cwd_var := cwd_var a;
     db_var := db_var a; linkly_var := linkly_var a; detail_var := detail_var a;
     quiet_var := quiet_var a; debug_var := debug_var a; output := output a;
     _prefs := _prefs a; _restore_cmd := _restore_cmd a; prefs_file := prefs_file a |}.

Definition set_current_cmd_label (x : option str) (a : App) : App :=
  {| cmd_metas := cmd_metas a; _suspend_save := _suspend_save a;
     current_meta := current_meta a; _current_cmd_label := x; cmd_var := cmd_var a;
     widget_vars := widget_vars a; _selected := _selected a; cwd_var := cwd_var a;
     db_var := db_var a; linkly_var := linkly_var a; detail_var := detail_var a;
     quiet_var := quiet_var a; debug_var := debug_var a; output := output a;
     _prefs := _prefs a; _restore_cmd := _restore_cmd a; prefs_file := prefs_file a |}.

Definition set_cmd_var (x : str) (a : App) : App :=
  {| cmd_metas := cmd_metas a; _suspend_save := _suspend_save a;
     current_meta := current_meta a; _current_cmd_label := _current_cmd_label a;
     cmd_var := x; widget_vars := widget_vars a; _selected := _selected a;
     cwd_var := cwd_var a; db_var := db_var a; linkly_var := linkly_var a;
     detail_var := detail_var a; quiet_var := quiet_var a; debug_var := debug_var a;
     output := output a; _prefs := _prefs a; _restore_cmd := _restore_cmd a;
     prefs_file := prefs_file a |}.

Definition set_widget_vars (x : list (OptionSpec * bool)) (a : App) : App :=
  {| cmd_metas := cmd_metas a; _suspend_save := _suspend_save a;
     current_meta := current_meta a; _current_cmd_label := _current_cmd_label a;
     cmd_var := cmd_var a; widget_vars := x; _selected := _selected a;
     cwd_var := cwd_var a; db_var := db_var a; linkly_var := linkly_var a;
     detail_var := detail_var a; quiet_var := quiet_var a; debug_var := debug_var a;
     output := output a; _prefs := _prefs a; _restore_cmd := _restore_cmd a;
     prefs_file := prefs_file a |}.

Definition set_selected (x : list (OptionSpec * Row)) (a : App) : App :=
  {| cmd_metas := cmd_metas a; _suspend_save := _suspend_save a;
     current_meta := current_meta a; _current_cmd_label := _current_cmd_label a;
     cmd_var := cmd_var a; widget_vars := widget_vars a; _selected := x;
     cwd_var := cwd_var a; db_var := db_var a; linkly_var := linkly_var a;
     detail_var := detail_var a; quiet_var := quiet_var a; debug_var := debug_var a;
     output := output a; _prefs := _prefs a; _restore_cmd := _restore_cmd a;
     prefs_file := prefs_file a |}.

Definition set_cwd_var (x : str) (a : App) : App :=
  {| cmd_metas := cmd_metas a; _suspend_save := _suspend_save a;
     current_meta := current_meta a; _current_cmd_label := _current_cmd_label a;
     cmd_var := cmd_var a; widget_vars := widget_vars a; _selected := _selected a;
     cwd_var := x; db_var := db_var a; linkly_var := linkly_var a;
     detail_var := detail_var a; quiet_var := quiet_var a; debug_var := debug_var a;
     output := output a; _prefs := _prefs a; _restore_cmd := _restore_cmd a;
     prefs_file := prefs_file a |}.

Definition set_db_var (x : str) (a : App) : App :=
  {| cmd_metas := cmd_metas a; _suspend_save := _suspend_save a;
     current_meta := current_meta a; _current_cmd_label := _current_cmd_label a;
     cmd_var := cmd_var a; widget_vars := widget_vars a; _selected := _selected a;
     cwd_var := cwd_var a; db_var := x; linkly_var := linkly_var a;
     detail_var := detail_var a; quiet_var := quiet_var a; debug_var := debug_var a;
     output := output a; _prefs := _prefs a; _restore_cmd := _restore_cmd a;
     prefs_file := prefs_file a |}.

Definition set_linkly_var (x : str) (a : App) : App :=
  {| cmd_metas := cmd_metas a; _suspend_save := _suspend_save a;
     current_meta := current_meta a; _current_cmd_label := _current_cmd_label a;
     cmd_var := cmd_var a; widget_vars := widget_vars a; _selected := _selected a;
     cwd_var := cwd_var a; db_var := db_var a; linkly_var := x;
     detail_var := detail_var a; quiet_var := quiet_var a; debug_var := debug_var a;
     output := output a; _prefs := _prefs a; _restore_cmd := _restore_cmd a;
     prefs_file := prefs_file a |}.

Definition set_detail_var (x : Z) (a : App) : App :=
  {| cmd_metas := cmd_metas a; _suspend_save := _suspend_save a;
     current_meta := current_meta a; _current_cmd_label := _current_cmd_label a;
     cmd_var := cmd_var a; widget_vars := widget_vars a; _selected := _selected a;
     cwd_var := cwd_var a; db_var := db_var a; linkly_var := linkly_var a;
     detail_var := x; quiet_var := quiet_var a; debug_var := debug_var a;
     output := output a; _prefs := _prefs a; _restore_cmd := _restore_cmd a;
     prefs_file := prefs_file a |}.

Definition set_quiet_var (x : Z) (a : App) : App :=
  {| cmd_metas := cmd_metas a; _suspend_save := _suspend_save a;
     current_meta := current_meta a; _current_cmd_label := _current_cmd_label a;
     cmd_var := cmd_var a; widget_vars := widget_vars a; _selected := _selected a;
     cwd_var := cwd_var a; db_var := db_var a; linkly_var := linkly_var a;
     detail_var := detail_var a; quiet_var := x; debug_var := debug_var a;
     output := output a; _prefs := _prefs a; _restore_cmd := _restore_cmd a;
     prefs_file := prefs_file a |}.

Definition set_debug_var (x : Z) (a : App) : App :=
  {| cmd_metas := cmd_metas a; _suspend_save := _suspend_save a;
     current_meta := current_meta a; _current_cmd_label := _current_cmd_label a;
     cmd_var := cmd_var a; widget_vars := widget_vars a; _selected := _selected a;
     cwd_var := cwd_var a; db_var := db_var a; linkly_var := linkly_var a;
     detail_var := detail_var a; quiet_var := quiet_var a; debug_var := x;
     output := output a; _prefs := _prefs a; _restore_cmd := _restore_cmd a;
     prefs_file := prefs_file a |}.

Definition set_output (x : str) (a : App) : App :=
  {| cmd_metas := cmd_metas a; _suspend_save := _suspend_save a;
     current_meta := current_meta a; _current_cmd_label := _current_cmd_label a;
     cmd_var := cmd_var a; widget_vars := widget_vars a; _selected := _selected a;
     cwd_var := cwd_var a; db_var := db_var a; linkly_var := linkly_var a;
     detail_var := detail_var a; quiet_var := quiet_var a; debug_var := debug_var a;
     output := x; _prefs := _prefs a; _restore_cmd := _restore_cmd a;
     prefs_file := prefs_file a |}.

Definition set_prefs (x : jdict) (a : App) : App :=
  {| cmd_metas := cmd_metas a; _suspend_save := _suspend_save a;
     current_meta := current_meta a; _current_cmd_label := _current_cmd_label a;
     cmd_var := cmd_var a; widget_vars := widget_vars a; _selected := _selected a;
     cwd_var := cwd_var a; db_var := db_var a; linkly_var := linkly_var a;
     detail_var := detail_var a; quiet_var := quiet_var a; debug_var := debug_var a;
     output := output a; _prefs := x; _restore_cmd := _restore_cmd a;
     prefs_file := prefs_file a |}.

Definition set_restore_cmd (x : json) (a : App) : App :=
  {| cmd_metas := cmd_metas a; _suspend_save := _suspend_save a;
     current_meta := current_meta a; _current_cmd_label := _current_cmd_label a;
     cmd_var := cmd_var a; widget_vars := widget_vars a; _selected := _selected a;
     cwd_var := cwd_var a; db_var := db_var a; linkly_var := linkly_var a;
     detail_var := detail_var a; quiet_var := quiet_var a; debug_var := debug_var a;
     output := output a; _prefs := _prefs a; _restore_cmd := x;
     prefs_file := prefs_file a |}.

Definition set_prefs_file (x : PrefsFile) (a : App) : App :=
  {| cmd_metas := cmd_metas a; _suspend_save := _suspend_save a;
     current_meta := current_meta a; _current_cmd_label := _current_cmd_label a;
     cmd_var := cmd_var a; widget_vars := widget_vars a; _selected := _selected a;
     cwd_var := cwd_var a; db_var := db_var a; linkly_var := linkly_var a;
     detail_var := detail_var a; quiet_var := quiet_var a; debug_var := debug_var a;
     output := output a; _prefs := _prefs a; _restore_cmd := _restore_cmd a;
     prefs_file := x |}.

(** The value of a spec's checkbox variable and its row in the editor. *)
Definition sel_var (a : App) (s : OptionSpec) : option bool :=
  dict_get spec_is s (widget_vars a).
Definition row_of (a : App) (s : OptionSpec) : option Row :=
  dict_get spec_is s (_selected a).

(* ================================================================== *)
(** * [_build_args] *)

(** What the loop over [self._selected] appends for one row.  A row is
    created by [_ensure_selected_row] with the kind of its spec, so that a
    flag spec meets a flag row and any other spec a text row (this is
    [reachable_rows_fit] below); the two other combinations, on which the
    source would raise, are given no tokens. *)
Definition append_spec_args (parts : list str) (spec : OptionSpec) (wd : Row)
  : list str :=
  if is_flag spec then
    match wd with
    | RowFlag true => parts ++ [display_name spec]
    | _ => parts
    end
  else
    match wd with
    | RowValue v =>
        let val := strip v in
        if nonempty val then
          if is_positional spec then parts ++ [val]
          else if multiple spec && contains (lit ",") val then
            fold_left (fun parts v => parts ++ [display_name spec; v])
                      (map strip (filter (fun x => nonempty (strip x))
                                         (split (chr ",") val)))
                      parts
          else parts ++ [display_name spec; val]
        else parts
    | RowFlag _ => parts
    end.

Definition _build_args (a : App) : list str :=
  match current_meta a with
  | None => []
  | Some m =>
      let parts :=
        match fixed_args m with
        | Some (x :: l) => x :: l
        | _ => [name m]
        end in
      let parts :=
        fold_left (fun parts sw => append_spec_args parts (fst sw) (snd sw))
                  (_selected a) parts in
      let parts := if nonempty (strip (cwd_var a))
                   then parts ++ [lit "-C"; strip (cwd_var a)] else parts in
      let parts := if nonempty (strip (db_var a))
                   then parts ++ [lit "--db"; strip (db_var a)] else parts in
      let parts := if nonempty (strip (linkly_var a))
                   then parts ++ [lit "-L"; strip (linkly_var a)] else parts in
      let parts := parts ++ repeat (lit "-v") (Z.to_nat (detail_var a)) in
      let parts := parts ++ repeat (lit "-q") (Z.to_nat (quiet_var a)) in
      let parts := parts ++ repeat (lit "-w") (Z.to_nat (debug_var a)) in
      parts
  end.

(* ================================================================== *)
(** * Saving preferences *)

(** [self.output.get("1.0", tk.END)]: a Tk text widget always ends in a
    line feed of its own, and the range up to [END] includes it. *)
Definition output_get (a : App) : str := output a ++ nl.

(** What the loop over the layout writes for one spec: its key, the
    [selected] entry, and the [flag] or [value] entry. *)
Definition option_record (a : App) (spec : OptionSpec)
  : str * bool * (str * json) :=
  let selected := match sel_var a spec with Some b => b | None => false end in
  let wd := row_of a spec in
  (key spec, selected,
   if is_flag spec
   then (lit "flag", JBool (match wd with Some (RowFlag b) => b | _ => false end))
   else (lit "value", JStr (match wd with Some (RowValue v) => v | _ => [] end))).

Definition option_records (a : App) (m : CommandMeta)
  : list (str * bool * (str * json)) :=
  map (option_record a) (categorized_specs m).

(** The loop body [rec = options.setdefault(key, {}); rec['selected'] = ...;
    rec['flag' or 'value'] = ...].  The boolean is [false] when an entry
    that is not a dictionary stopped the loop with an exception; what was
    written before stays written. *)
Fixpoint save_records (rs : list (str * bool * (str * json))) (options : jdict)
  : jdict * bool :=
  match rs with
  | [] => (options, true)
  | (k, sel, (fld, v)) :: rs' =>
      let write r :=
        dict_set str_eqb k
          (JObj (dict_set str_eqb fld v (jset "selected" (JBool sel) r))) options in
      match dict_get str_eqb k options with
      | None => save_records rs' (write [])
      | Some (JObj r) => save_records rs' (write r)
      | Some _ => (options, false)
      end
  end.

(** [cmd_state = commands.setdefault(label, {})], the options loop and
    [cmd_state['output'] = ...]. *)
Definition save_cmd_state (label : str) (rs : list (str * bool * (str * json)))
           (out : str) (commands : jdict) : jdict * bool :=
  let finish st options ok :=
    let st1 := jset "options" (JObj options) st in
    (dict_set str_eqb label
       (JObj (if ok : bool then jset "output" (JStr out) st1 else st1)) commands, ok) in
  let with_state st :=
    match jget "options" st with
    | None => let '(o, ok) := save_records rs [] in finish st o ok
    | Some (JObj o0) => let '(o, ok) := save_records rs o0 in finish st o ok
    | Some _ =>
        match rs with
        | [] => (dict_set str_eqb label (JObj (jset "output" (JStr out) st)) commands,
                 true)
        | _ :: _ => (commands, false)
        end
    end in
  match dict_get str_eqb label commands with
  | None => with_state []
  | Some (JObj st) => with_state st
  | Some _ => (commands, false)
  end.

(** [data.setdefault('commands', {})] and what follows, on the top-level
    dictionary [data]. *)
Definition save_commands (label : str) (rs : list (str * bool * (str * json)))
           (out : str) (data : jdict) : jdict * bool :=
  match jget "commands" data with
  | None =>
      let '(c, ok) := save_cmd_state label rs out [] in
      (jset "commands" (JObj c) data, ok)
  | Some (JObj c0) =>
      let '(c, ok) := save_cmd_state label rs out c0 in
      (jset "commands" (JObj c) data, ok)
  | Some _ => (data, false)
  end.

(** [self._prefs = data] and the [json.dump] into the file (the file
    system is taken to work). *)
Definition commit (data : jdict) (a : App) : App :=
  set_prefs_file (Stored (JObj data)) (set_prefs data a).

Definition globals_update (a : App) : jdict :=
  [ (lit "cwd", JStr (strip (cwd_var a)));
    (lit "db", JStr (strip (db_var a)));
    (lit "linkly", JStr (strip (linkly_var a)));
    (lit "detail", JInt (detail_var a));
    (lit "quiet", JInt (quiet_var a));
    (lit "debug", JInt (debug_var a));
    (lit "selected_command", JStr (cmd_var a)) ].

(** [_save_prefs].  [data = dict(self._prefs)] copies the top level only:
    the dictionaries below it are shared with [self._prefs].  When the
    options loop raises, [data] is dropped and nothing is written to the
    file, but what the loop wrote into the shared dictionaries is there;
    an exception is possible only when ['commands'] was in [self._prefs]
    already, so that running the same steps on [self._prefs] gives its
    contents afterwards. *)
Definition _save_prefs (a : App) : App :=
  if _suspend_save a then a
  else
    let data := dict_update str_eqb (globals_update a) (_prefs a) in
    match current_meta a with
    | None => commit data a
    | Some m =>
        let rs := option_records a m in
        let '(data', ok) := save_commands (cmd_var a) rs (output_get a) data in
        if ok then commit data' a
        else set_prefs (fst (save_commands (cmd_var a) rs (output_get a) (_prefs a))) a
    end.

(** [_save_state_for_label]: the same steps under the label given, with
    the globals left as they are in the document. *)
Definition _save_state_for_label (label : str) (a : App) : App :=
  if _suspend_save a then a
  else if negb (nonempty label) then a
  else
    match current_meta a with
    | None => a
    | Some m =>
        let '(data', ok) :=
          save_commands label (option_records a m) (output_get a) (_prefs a) in
        if ok then commit data' a else set_prefs data' a
    end.

(* ================================================================== *)
(** * The editor rows and the toggles *)

(** [spec.default not in (None, False)]: [in] compares with [==], and
    [0 == False]. *)
Definition default_shown (d : pyval) : option str :=
  match d with
  | PNone => None
  | PBool b => if b then Some (lit "True") else None
  | PInt z => if Z.eqb z 0 then None else Some (str_of_Z z)
  | PFloat is_zero r => if is_zero then None else Some r
  | PStr s => Some s
  end.

(** The row a spec gets: checked for a flag, else an entry holding the
    default. *)
Definition new_row (spec : OptionSpec) : Row :=
  if is_flag spec then RowFlag true
  else RowValue (match default_shown (kw_default spec) with
                 | Some t => t
                 | None => []
                 end).

Definition _ensure_selected_row (spec : OptionSpec) (a : App) : App :=
  if dict_mem spec_is spec (_selected a) then a
  else set_selected (_selected a ++ [(spec, new_row spec)]) a.

Definition _remove_selected_row (spec : OptionSpec) (a : App) : App :=
  match row_of a spec with
  | None => a
  | Some _ => _save_prefs (set_selected (dict_pop spec_is spec (_selected a)) a)
  end.

(** [sv.set(False)] inside the loop of [_on_toggle_option]: the write,
    then the callback traced on the variable, which is
    [_on_toggle_option(other, False)] followed by [_save_prefs()]. *)
Definition sel_var_clear (other : OptionSpec) (a : App) : App :=
  _save_prefs
    (_remove_selected_row other
       (set_widget_vars (dict_set spec_is other false (widget_vars a)) a)).

(** [other.group_id == spec.group_id] *)
Definition same_group (other spec : OptionSpec) : bool :=
  match group_id other, group_id spec with
  | Some g, Some h => Nat.eqb g h
  | None, None => true
  | _, _ => false
  end.

(** The loop that unselects the other members of the group, and its
    body. *)
Definition unselect_other (spec : OptionSpec) (a : App) (other : OptionSpec) : App :=
  if spec_is other spec then a
  else if same_group other spec
       then match sel_var a other with
            | Some true => sel_var_clear other a
            | _ => a
            end
       else a.

Definition unselect_group (spec : OptionSpec) (a : App) : App :=
  fold_left (unselect_other spec) (map fst (widget_vars a)) a.

Definition _on_toggle_option (spec : OptionSpec) (selected : bool) (a : App) : App :=
  let a1 :=
    if selected && match group_id spec with Some _ => true | None => false end
    then unselect_group spec a else a in
  if selected then _ensure_selected_row spec a1 else _remove_selected_row spec a1.

(** [sel_var.set(b)]: the write, then the traced callback
    [(self._on_toggle_option(s, v.get()), self._save_prefs())]. *)
Definition sel_var_set (spec : OptionSpec) (b : bool) (a : App) : App :=
  _save_prefs
    (_on_toggle_option spec b
       (set_widget_vars (dict_set spec_is spec b (widget_vars a)) a)).

(** Writing the variable of a row: the traced callback is
    [(self._update_preview(), self._save_prefs())]. *)
Definition row_flag_set (spec : OptionSpec) (b : bool) (a : App) : App :=
  match row_of a spec with
  | Some (RowFlag _) =>
      _save_prefs (set_selected (dict_set spec_is spec (RowFlag b) (_selected a)) a)
  | _ => a
  end.

Definition row_value_set (spec : OptionSpec) (v : str) (a : App) : App :=
  match row_of a spec with
  | Some (RowValue _) =>
      _save_prefs (set_selected (dict_set spec_is spec (RowValue v) (_selected a)) a)
  | _ => a
  end.

(* ================================================================== *)
(** * Restoring preferences *)

(** [state = cmds.get(self.cmd_var.get(), {})] of
    [_apply_saved_state_for_current]; [None] when one of the two [.get]
    calls that follow the lookup of ['commands'] raises because the value
    it is called on is not a dictionary. *)
Definition saved_state (a : App) : option jdict :=
  match jget "commands" (_prefs a) with
  | None => Some []
  | Some (JObj cmds) =>
      match dict_get str_eqb (cmd_var a) cmds with
      | None => Some []
      | Some (JObj st) => Some st
      | Some _ => None
      end
  | Some _ => None
  end.

(** [options.get(spec.key)]; the outer [None] is the exception raised
    when [options] is not a dictionary. *)
Definition saved_option (a : App) (spec : OptionSpec) : option (option json) :=
  match saved_state a with
  | None => None
  | Some st =>
      match jget "options" st with
      | None => Some None
      | Some (JObj options) => Some (dict_get str_eqb (key spec) options)
      | Some _ => None
      end
  end.

(** [d.get(k, default)] *)
Definition jget_default (k : string) (default : json) (d : jdict) : json :=
  match jget k d with Some v => v | None => default end.

(** The second half of the loop body, after [sel_var.set(target_sel)] and
    [_ensure_selected_row(spec)].  [opt] is one object all along: what
    [_save_prefs] wrote into it in between is read here, hence the new
    lookup.  The boolean is [false] when an exception leaves the loop. *)
Definition restore_row (spec : OptionSpec) (a : App) : App * bool :=
  match saved_option a spec with
  | Some (Some opt) =>
      if is_flag spec then
        match opt with
        | JObj r => (row_flag_set spec (truthy (jget_default "flag" (JBool true) r)) a, true)
        | _ => (a, true)
        end
      else
        match opt with
        | JObj r =>
            match jget "value" r with
            | Some v =>
                (row_value_set spec (if truthy v then py_str v else []) a, true)
            | None => (a, true)
            end
        | JStr _ | JArr _ => (a, true)
        | _ => (a, false)
        end
  | _ => (a, true)
  end.

(** One turn of the loop over the layout. *)
Definition restore_spec (m : CommandMeta) (spec : OptionSpec) (a : App) : App * bool :=
  match saved_option a spec with
  | None => (a, false)
  | Some None => (a, true)
  | Some (Some opt) =>
      if negb (truthy opt) then (a, true)
      else
        let is_required := spec_in spec (arguments m) in
        let target :=
          if is_required then Some true
          else match opt with
               | JObj r => Some (truthy (jget_default "selected" (JBool false) r))
               | _ => None
               end in
        match target with
        | None => (a, false)
        | Some target_sel =>
            let a1 := match sel_var a spec with
                      | Some _ => sel_var_set spec target_sel a
                      | None => a
                      end in
            if target_sel then restore_row spec (_ensure_selected_row spec a1)
            else (a1, true)
        end
  end.

Fixpoint restore_specs (m : CommandMeta) (specs : list OptionSpec) (a : App)
  : App * bool :=
  match specs with
  | [] => (a, true)
  | spec :: rest =>
      let '(a1, ok) := restore_spec m spec a in
      if ok then restore_specs m rest a1 else (a1, false)
  end.

(** [out = state.get('output')] and the refill of the output widget. *)
Definition restore_output (a : App) : App :=
  match saved_state a with
  | Some st =>
      match jget "output" st with
      | Some (JStr out) => set_output out a
      | _ => a
      end
  | None => a
  end.

Definition _apply_saved_state_for_current (a : App) : App :=
  match current_meta a with
  | None => a
  | Some m =>
      match saved_state a with
      | None => a
      | Some _ =>
          let '(a1, ok) := restore_specs m (categorized_specs m) a in
          if ok then restore_output a1 else a1
      end
  end.

(* ================================================================== *)
(** * Changing the command *)

Definition _clear_option_frames (a : App) : App :=
  set_selected [] (set_widget_vars [] a).

(** The body of the loop that builds the selector. *)
Definition build_option (m : CommandMeta) (a : App) (spec : OptionSpec) : App :=
  let is_required := spec_in spec (arguments m) in
  let var := (is_required && negb (is_flag spec)) || is_required in
  let a1 := set_widget_vars (dict_set spec_is spec var (widget_vars a)) a in
  if var then _ensure_selected_row spec a1 else a1.

Definition _on_command_change (a : App) : App :=
  let a0 :=
    match _current_cmd_label a, current_meta a with
    | Some prev_label, Some _ =>
        if nonempty prev_label then _save_state_for_label prev_label a else a
    | _, _ => a
    end in
  let name := cmd_var a0 in
  let meta := dict_get str_eqb name (cmd_metas a0) in
  let a1 := _clear_option_frames (set_current_meta meta a0) in
  match meta with
  | None => a1
  | Some m =>
      let a2 := fold_left (build_option m) (categorized_specs m) a1 in
      let a3 := _apply_saved_state_for_current a2 in
      set_current_cmd_label (Some name) (_save_prefs a3)
  end.

(* ================================================================== *)
(** * Loading preferences and starting up *)

(** The global variables are traced: a write runs [_save_prefs]. *)
Definition cwd_var_set (v : str) (a : App) : App := _save_prefs (set_cwd_var v a).
Definition db_var_set (v : str) (a : App) : App := _save_prefs (set_db_var v a).
Definition linkly_var_set (v : str) (a : App) : App := _save_prefs (set_linkly_var v a).
Definition detail_var_set (z : Z) (a : App) : App := _save_prefs (set_detail_var z a).
Definition quiet_var_set (z : Z) (a : App) : App := _save_prefs (set_quiet_var z a).
Definition debug_var_set (z : Z) (a : App) : App := _save_prefs (set_debug_var z a).

(** [isinstance(x, str)] and [isinstance(x, int)] ([bool] is a subclass
    of [int]). *)
Definition as_str (x : option json) : option str :=
  match x with Some (JStr s) => Some s | _ => None end.
Definition as_int (x : option json) : option Z :=
  match x with
  | Some (JInt z) => Some z
  | Some (JBool b) => Some (if b then 1 else 0)%Z
  | _ => None
  end.

Definition set_if {A : Type} (x : option A) (f : A -> App -> App) (a : App) : App :=
  match x with Some v => f v a | None => a end.

Definition _load_prefs (a : App) : App :=
  match prefs_file a with
  | NoFile => a
  | Unreadable => set_prefs [] a
  | Stored data =>
      let d := match data with JObj d => d | _ => [] end in
      let a := set_prefs d a in
      let a := set_restore_cmd
                 (match jget "selected_command" d with Some c => c | None => JNull end) a in
      let a := set_if (as_str (jget "cwd" d)) cwd_var_set a in
      let a := set_if (as_str (jget "db" d)) db_var_set a in
      let a := set_if (as_str (jget "linkly" d)) linkly_var_set a in
      let a := set_if (as_int (jget "detail" d)) detail_var_set a in
      let a := set_if (as_int (jget "quiet" d)) quiet_var_set a in
      let a := set_if (as_int (jget "debug" d)) debug_var_set a in
      a
  end.

(** [a < b] on strings, and [sorted] *)
Fixpoint str_ltb (a b : str) : bool :=
  match a, b with
  | _, [] => false
  | [], _ :: _ => true
  | x :: a', y :: b' => N.ltb x y || (N.eqb x y && str_ltb a' b')
  end.

Fixpoint insert_sorted (x : str) (l : list str) : list str :=
  match l with
  | [] => [x]
  | y :: l' => if str_ltb y x then y :: insert_sorted x l' else x :: l
  end.

Definition sorted (l : list str) : list str := fold_right insert_sorted [] l.

(** The attributes as [__init__] leaves them before [_load_prefs]. *)
Definition new_app (metas : list (str * CommandMeta)) (file : PrefsFile) : App :=
  {| cmd_metas := metas;
     _suspend_save := true;
     current_meta := None;
     _current_cmd_label := None;
     cmd_var := [];
     widget_vars := [];
     _selected := [];
     cwd_var := []; db_var := []; linkly_var := [];
     detail_var := 0; quiet_var := 0; debug_var := 0;
     output := [];
     _prefs := [];
     _restore_cmd := JNull;
     prefs_file := file |}.

(** [TdGuiApp.__init__]; [None] when [restore_cmd in self.cmd_metas]
    raises (a list or an object is not hashable), which nothing catches. *)
Definition startup (metas : list (str * CommandMeta)) (file : PrefsFile) : option App :=
  let a := _load_prefs (new_app metas file) in
  let finish a := Some (_save_prefs (set_suspend_save false a)) in
  match sorted (map fst metas) with
  | [] => finish a
  | first :: _ =>
      let go c :=
        finish (_apply_saved_state_for_current (_on_command_change (set_cmd_var c a))) in
      match _restore_cmd a with
      | JArr _ | JObj _ => None
      | JStr c => if dict_mem str_eqb c metas then go c else go first
      | _ => go first
      end
  end.

(** [_reset_defaults]: the file is removed and the raw document
    emptied, then the globals are written (each write saves), and the
    first command is shown. *)
Definition _reset_defaults (a : App) : App :=
  let a := set_prefs_file NoFile a in
  let a := set_restore_cmd JNull (set_prefs [] a) in
  let a := cwd_var_set [] a in
  let a := db_var_set [] a in
  let a := linkly_var_set [] a in
  let a := detail_var_set 0 a in
  let a := quiet_var_set 0 a in
  let a := debug_var_set 0 a in
  let a := match sorted (map fst (cmd_metas a)) with
           | first :: _ => _on_command_change (set_cmd_var first a)
           | [] => a
           end in
  _save_prefs a.

(** [(s.dest == 'starting') or (s.long_flag.startswith('--from'))] *)
Definition is_from_spec (s : OptionSpec) : bool :=
  match kw_dest s with Some d => str_eqb d (lit "starting") | None => false end
  || startswith (lit "--from") (long_flag s).

(** [_swap_from_to_dest], the button of a route card. *)
Definition _swap_from_to_dest (dest : str) (a : App) : App :=
  let on_run :=
    match current_meta a with
    | Some m => str_eqb (name m) (lit "run")
    | None => false
    end in
  let shown :=
    if on_run then Some a
    else if dict_mem str_eqb (lit "run") (cmd_metas a)
         then Some (_on_command_change (set_cmd_var (lit "run") a))
         else None in
  match shown with
  | None => a
  | Some a1 =>
      match current_meta a1 with
      | None => a1
      | Some m =>
          match find is_from_spec (arguments m ++ switches m) with
          | None => a1
          | Some spec =>
              let a2 := match sel_var a1 spec with
                        | Some false => _ensure_selected_row spec (sel_var_set spec true a1)
                        | _ => a1
                        end in
              let a3 := match row_of a2 spec with
                        | Some (RowValue _) => row_value_set spec dest a2
                        | _ => a2
                        end in
              _save_prefs a3
          end
      end
  end.

(* ================================================================== *)
(** * What the user does *)

Inductive event :=
| ClickOption (s : OptionSpec)            (* a checkbox of the selector *)
| TypeValue (s : OptionSpec) (v : str)    (* the entry of a row *)
| ClickFlag (s : OptionSpec)              (* the checkbox of a flag row *)
| ChooseCommand (n : str)                 (* the command box *)
| TypeCwd (v : str)
| TypeDb (v : str)
| TypeLinkly (v : str)
| SpinDetail (z : Z)
| SpinQuiet (z : Z)
| SpinDebug (z : Z)
| Ran (out : str)                         (* a run has finished *)
| SwapToFrom (dest : str)                 (* the button of a route card *)
| Reset.                                  (* the reset button *)

(** A required spec has its checkbox disabled. *)
Definition is_required (a : App) (s : OptionSpec) : bool :=
  match current_meta a with
  | Some m => spec_in s (arguments m)
  | None => false
  end.

Definition handle (a : App) (e : event) : App :=
  match e with
  | ClickOption s =>
      match sel_var a s with
      | Some b => if is_required a s then a else sel_var_set s (negb b) a
      | None => a
      end
  | TypeValue s v => row_value_set s v a
  | ClickFlag s =>
      match row_of a s with
      | Some (RowFlag b) => row_flag_set s (negb b) a
      | _ => a
      end
  | ChooseCommand n =>
      if dict_mem str_eqb n (cmd_metas a)
      then _on_command_change (set_cmd_var n a) else a
  | TypeCwd v => cwd_var_set v a
  | TypeDb v => db_var_set v a
  | TypeLinkly v => linkly_var_set v a
  | SpinDetail z => detail_var_set z a
  | SpinQuiet z => quiet_var_set z a
  | SpinDebug z => debug_var_set z a
  | Ran out => _save_prefs (set_output out a)
  | SwapToFrom dest => _swap_from_to_dest dest a
  | Reset => _reset_defaults a
  end.

Definition run_events (a : App) (es : list event) : App := fold_left handle es a.

(* ================================================================== *)
(** * Loading the commands

    What the wrapped program declares: an argument is a pair of [args]
    and [kwargs]; a mutual-exclusion group is an object that holds
    arguments.  [addr] stands for [id(item)], the identity of the group
    object. *)

Record Declaration := {
  d_arg0 : str;
  d_arg_rest : list str;
  d_dest : option str;
  d_action : option str;
  d_default : pyval
}.

Inductive Item :=
| Argument (d : Declaration)
| ExclusiveGroup (addr : nat) (members : list Declaration).

(** [OptionSpec(tuple(sub.args), dict(sub.kwargs), group_id=gid)]: a new
    object, whose identity is the next one free. *)
Definition new_spec (next : nat) (d : Declaration) (gid : option nat) : OptionSpec :=
  {| oid := next;
     arg0 := d_arg0 d;
     arg_rest := d_arg_rest d;
     kw_dest := d_dest d;
     kw_action := d_action d;
     kw_default := d_default d;
     group_id := gid |}.

(** The inner loop of [_flatten_args], over the arguments of a group. *)
Definition flatten_member (gid : nat) (st : list OptionSpec * nat) (sub : Declaration)
  : list OptionSpec * nat :=
  (fst st ++ [new_spec (snd st) sub (Some gid)], S (snd st)).

(** The outer loop, with the local [flat] and the next free identity. *)
Definition flatten_item (st : list OptionSpec * nat) (item : Item)
  : list OptionSpec * nat :=
  match item with
  | ExclusiveGroup gid subs => fold_left (flatten_member gid) subs st
  | Argument d => (fst st ++ [new_spec (snd st) d None], S (snd st))
  end.

(** [_flatten_args(items)]; [None] is a value the source replaces by the
    empty list ([items or []]). *)
Definition _flatten_args (items : option (list Item)) (next : nat)
  : list OptionSpec * nat :=
  fold_left flatten_item (match items with Some l => l | None => [] end) ([], next).

(** A command module of the wrapped program, as far as [load_commands]
    reads it; an attribute that is missing is [None]. *)
Record CommandModule := {
  m_arguments : option (list Item);
  m_switches : option (list Item)
}.

(** The body of the loop over [commandIndex]. *)
Definition load_command (st : list (str * CommandMeta) * nat)
           (entry : str * CommandModule) : list (str * CommandMeta) * nat :=
  let '(arguments, next1) := _flatten_args (m_arguments (snd entry)) (snd st) in
  let '(switches, next2) := _flatten_args (m_switches (snd entry)) next1 in
  (dict_set str_eqb (fst entry)
     {| name := fst entry; arguments := arguments; switches := switches;
        fixed_args := None |} (fst st),
   next2).

Definition load_commands (commandIndex : list (str * CommandModule))
  : list (str * CommandMeta) :=
  let metas := fst (fold_left load_command commandIndex ([], 0)) in
  dict_set str_eqb (lit "Update/Rebuild DB")
    {| name := lit "import"; arguments := []; switches := [];
       fixed_args := Some (map lit ["import"; "-P"; "eddblink"; "-O";
                                    "clean,all,skipvend,force"]%string) |}
    metas.

(* ================================================================== *)
(** * The preview of the command line *)

(** The [s.replace] of [quote_double]: a backslash goes before every
    double quote. *)
Definition escape_quotes (s : str) : str :=
  flat_map (fun c => if N.eqb c 34 then [92%N; 34%N] else [c]) s.

(** The local function [quote_double] of [_update_preview]. *)
Definition quote_double (s : str) : str :=
  let s := strip s in
  let needs_quotes :=
    str_eqb s [] || existsb isspace s || contains (lit "/") s in
  if needs_quotes then [34%N] ++ escape_quotes s ++ [34%N] else s.

(** The text [_update_preview] puts into [preview_var]; [executable] is
    [sys.executable] and [trade_py] the path of the wrapped script. *)
Definition _update_preview (executable trade_py : str) (a : App) : str :=
  join (lit " ") (map quote_double (executable :: trade_py :: _build_args a)).

(* ================================================================== *)
(** * The timer *)

(** [int(x)] for a float: the fraction is cut off, towards zero.  A float
    that is a number is a rational. *)
Definition int_of_float (x : QArith_base.Q) : Z :=
  Z.quot (QArith_base.Qnum x) (Zpos (QArith_base.Qden x)).

(** The format [02d]: at least two characters, zeros in front. *)
Definition format_02d (z : Z) : str :=
  let d := str_of_Z z in
  repeat 48%N (2 - length d) ++ d.

Definition _format_elapsed (seconds : QArith_base.Q) : str :=
  let sec := Z.max 0 (int_of_float seconds) in
  let h := (sec / 3600)%Z in
  let rem := (sec mod 3600)%Z in
  let m := (rem / 60)%Z in
  let s := (rem mod 60)%Z in
  format_02d h ++ lit ":" ++ format_02d m ++ lit ":" ++ format_02d s.

(* ================================================================== *)
(** * The route cards and the exports *)

(** A card of the routes panel: its title, the lines of its body, and
    the destination its buttons work on. *)
Record Card := {
  card_title : str;
  card_body : list str;
  card_dest : str
}.

(** The body of the loop of [_build_route_cards]; [None] when the block
    has no first line, where the source raises. *)
Definition route_card (rt : Route) : option Card :=
  match splitlines (block rt) with
  | [] => None
  | title :: more =>
      Some {| card_title := title; card_body := firstn 5 more;
              card_dest := strip (dest rt) |}
  end.

Fixpoint _build_route_cards (routes : list Route) : option (list Card) :=
  match routes with
  | [] => Some []
  | rt :: rest =>
      match route_card rt, _build_route_cards rest with
      | Some c, Some cs => Some (c :: cs)
      | _, _ => None
      end
  end.

(** [_process_routes_from_output]: the cards it leaves in
    [self._route_cards]; an exception on the way clears them. *)
Definition _process_routes_from_output (a : App) : list Card :=
  match current_meta a with
  | None => []
  | Some m =>
      if str_eqb (name m) (lit "run") then
        match _build_route_cards (_parse_routes (output_get a)) with
        | Some cards => cards
        | None => []
        end
      else []
  end.

(** The lines [_export_flat] numbers: [i] counts from 1. *)
Fixpoint flat_titles (i : nat) (routes : list Route) : option (list str) :=
  match routes with
  | [] => Some []
  | r :: rest =>
      match splitlines (block r), flat_titles (S i) rest with
      | first :: _, Some lines =>
          Some ((format_02d (Z.of_nat i) ++ lit ". " ++ _strip_ansi first) :: lines)
      | _, _ => None
      end
  end.

(** [_export_flat]: the text written to the file, [None] when a block
    without a first line raises.  [stamp] is the result of
    [time.strftime] and [preview] the value of [preview_var]. *)
Definition _export_flat (stamp preview : str) (routes : list Route) : option str :=
  match flat_titles 1 routes with
  | Some titles =>
      Some (join nl ([ lit "Trade Dangerous GUI Flat Export (" ++ stamp ++ lit ")";
                       lit "Command: " ++ preview;
                       repeat (chr "-") 80 ] ++ titles) ++ nl)
  | None => None
  end.

(* ================================================================== *)
(** * Wrapping a line of the PDF export

    [wrap_line] is local to [_export_pdf].  What it asks of the PDF
    library is whether a text is at most [maxw] wide,
    [stringWidth(s, font_name, font_size) <= maxw]; [fits] stands for that
    test. *)

Section WrapLine.
Variable fits : str -> bool.

(** [s.replace('\t', '    ')] *)
Definition expand_tabs (s : str) : str :=
  flat_map (fun c => if N.eqb c 9 then lit "    " else [c]) s.

(** The body of the loop over the words, with the locals [out] and
    [cur]. *)
Definition wrap_word (st : list str * str) (word : str) : list str * str :=
  let out := fst st in
  let cur := snd st in
  let trial := cur ++ (if nonempty cur then lit " " else []) ++ word in
  if fits trial then (out, trial)
  else (if nonempty cur then out ++ [cur] else out, word).

Definition wrap_line (s : str) : list str :=
  let s := expand_tabs s in
  if fits s then [s]
  else
    let st := fold_left wrap_word (split (chr " ") s) ([], []) in
    if nonempty (snd st) then fst st ++ [snd st] else fst st.

End WrapLine.

(* ================================================================== *)
(** * Notions used in the statements *)

(** The tokens one row contributes. *)
Definition spec_args (spec : OptionSpec) (wd : Row) : list str :=
  append_spec_args [] spec wd.

Definition option_args (rows : list (OptionSpec * Row)) : list str :=
  flat_map (fun sw => spec_args (fst sw) (snd sw)) rows.

(** The tokens of the global options. *)
Definition pair_if_set (flag : string) (v : str) : list str :=
  if nonempty (strip v) then [lit flag; strip v] else [].

Definition global_args (a : App) : list str :=
  pair_if_set "-C" (cwd_var a) ++ pair_if_set "--db" (db_var a)
  ++ pair_if_set "-L" (linkly_var a)
  ++ repeat (lit "-v") (Z.to_nat (detail_var a))
  ++ repeat (lit "-q") (Z.to_nat (quiet_var a))
  ++ repeat (lit "-w") (Z.to_nat (debug_var a)).

(** The way the vector starts. *)
Definition start_args (m : CommandMeta) : list str :=
  match fixed_args m with
  | Some (x :: l) => x :: l
  | _ => [name m]
  end.

(** The lines [_parse_routes] loops over. *)
Definition lines_of (text : str) : list str := splitlines (_strip_ansi text).

(** [ln.strip() == ""] *)
Definition blank (ln : str) : bool := str_eqb (strip ln) [].

(** The lines from the first one that is not blank. *)
Fixpoint skip_blank (lines : list str) : list str :=
  match lines with
  | [] => []
  | ln :: rest => if blank ln then skip_blank rest else lines
  end.

(** The expansion of a comma-separated value as the specification words
    it: trim; with a comma, split, trim the pieces, drop the empty ones
    and pair each with the flag; without one, a single pair; nothing for
    an empty value. *)
Definition multi_expansion (flag : str) (value : str) : list str :=
  let t := strip value in
  if nonempty t then
    if contains (lit ",") t
    then flat_map (fun piece => [flag; piece])
                  (filter (@nonempty char) (map strip (split (chr ",") t)))
    else [flag; t]
  else [].

(** ** A small catalogue

    The composite command is the one [load_commands] adds; the other two
    follow declarations of the wrapped program: one positional and a
    valued and an appending switch, and one positional with two flags in
    a mutual-exclusion group. *)

Definition spec_of (id : nat) (names : list string) (dest action : option string)
           (default : pyval) (group : option nat) : OptionSpec :=
  {| oid := id;
     arg0 := match names with n :: _ => lit n | [] => [] end;
     arg_rest := map lit (tl names);
     kw_dest := option_map lit dest;
     kw_action := option_map lit action;
     kw_default := default;
     group_id := group |}.

Definition near_spec := spec_of 1 ["near"]%string None None PNone None.
Definition ly_spec := spec_of 2 ["--ly"]%string (Some "maxLyPer"%string) None PNone None.
Definition avoid_spec :=
  spec_of 3 ["--avoid"]%string None (Some "append"%string) PNone None.
Definition origin_spec := spec_of 4 ["origin"]%string None None PNone None.
Definition buy_spec :=
  spec_of 5 ["--buy"; "-B"]%string (Some "buy"%string) (Some "store_true"%string)
          (PBool false) (Some 7).
Definition sell_spec :=
  spec_of 6 ["--sell"; "-S"]%string (Some "sell"%string) (Some "store_true"%string)
          (PBool false) (Some 7).

Definition local_meta : CommandMeta :=
  {| name := lit "local"; arguments := [near_spec];
     switches := [ly_spec; avoid_spec]; fixed_args := None |}.

Definition market_meta : CommandMeta :=
  {| name := lit "market"; arguments := [origin_spec];
     switches := [buy_spec; sell_spec]; fixed_args := None |}.

Definition rebuild_meta : CommandMeta :=
  {| name := lit "import"; arguments := []; switches := [];
     fixed_args := Some (map lit ["import"; "-P"; "eddblink"; "-O";
                                  "clean,all,skipvend,force"]%string) |}.

Definition catalogue : list (str * CommandMeta) :=
  [ (lit "local", local_meta); (lit "market", market_meta);
    (lit "Update/Rebuild DB", rebuild_meta) ].

(** An application showing a command, with nothing else set. *)
Definition showing (m : CommandMeta) (rows : list (OptionSpec * Row)) : App :=
  set_selected rows (set_current_meta (Some m) (new_app catalogue NoFile)).

(** ** The selection state

    In the words of the specification, [selected] is the set of specs
    whose checkbox variable holds [True], and [values] maps the specs
    that have a row in the editor to the content of the row. *)

Definition has_row (a : App) (s : OptionSpec) : bool :=
  dict_mem spec_is s (_selected a).

(** Every spec with a value is selected. *)
Definition synced (a : App) : Prop :=
  forall s, has_row a s = true -> sel_var a s = Some true.

(** At most one selected spec in the mutual-exclusion group [g]. *)
Definition exclusive_in (g : nat) (a : App) : Prop :=
  forall s1 s2,
    sel_var a s1 = Some true -> sel_var a s2 = Some true ->
    group_id s1 = Some g -> group_id s2 = Some g -> s1 = s2.

(** The group [g] is a group of switches: no required argument of the
    command is a member. *)
Definition group_of_switches (m : CommandMeta) (g : nat) : Prop :=
  forall s, In s (arguments m) -> group_id s <> Some g.

(** Every spec of the layout has its checkbox. *)
Definition covered (m : CommandMeta) (a : App) : Prop :=
  forall s, In s (categorized_specs m) -> sel_var a s <> None.

(** The required arguments are selected and have their row. *)
Definition required_on (m : CommandMeta) (a : App) : Prop :=
  forall s, In s (arguments m) -> sel_var a s = Some true /\ has_row a s = true.

(** No required argument is in a mutual-exclusion group. *)
Definition ungrouped_arguments (m : CommandMeta) : Prop :=
  forall s, In s (arguments m) -> group_id s = None.

(** [other] is another member of the group of [spec]. *)
Definition rival (spec other : OptionSpec) : bool :=
  negb (spec_is other spec) && same_group other spec
  && match group_id spec with Some _ => true | None => false end.

(** Two states with the same checkboxes, rows and command. *)
Definition same_selection (a b : App) : Prop :=
  widget_vars a = widget_vars b /\ _selected a = _selected b
  /\ current_meta a = current_meta b.

(** The states of a session: the one [__init__] ends in, and those the
    user's actions lead to. *)
Inductive reachable : App -> Prop :=
| reach_startup : forall metas file a,
    startup metas file = Some a -> reachable a
| reach_handle : forall a e, reachable a -> reachable (handle a e).

(** Where a spec stands after some turns of the loop: as before, or
    unselected and without its row because it was a selected member of
    the group. *)
Definition kept_or_cleared (s : OptionSpec) (a a' : App) : Prop :=
  forall x,
    (sel_var a' x = sel_var a x /\ row_of a' x = row_of a x)
    \/ (x <> s /\ same_group x s = true /\ sel_var a x = Some true
        /\ sel_var a' x = Some false /\ row_of a' x = None).

(** [_on_toggle_option(spec, True)] after the write of the variable *)
Definition after_unselect (s : OptionSpec) (a : App) : App :=
  if match group_id s with Some _ => true | None => false end
  then unselect_group s a else a.

(** What holds of the selection while a command is shown. *)
Definition well_selected (m : CommandMeta) (a : App) : Prop :=
  current_meta a = Some m /\ synced a /\ covered m a
  /\ (forall g, group_of_switches m g -> exclusive_in g a)
  /\ (ungrouped_arguments m -> required_on m a).

Definition selection_invariant (a : App) : Prop :=
  match current_meta a with
  | Some m => well_selected m a
  | None => widget_vars a = [] /\ _selected a = []
  end.

(** What holds while the loop of [_on_command_change] builds the
    selector: a checkbox holds whether its spec is required, and the rows
    are those of the checked specs. *)
Definition being_built (m : CommandMeta) (a : App) : Prop :=
  current_meta a = Some m
  /\ (forall x, sel_var a x = None \/ sel_var a x = Some (spec_in x (arguments m)))
  /\ (forall x, has_row a x = true <-> sel_var a x = Some true).

(** A session on the small catalogue: the start from a preferences file,
    then what the user does. *)
Definition session (file : PrefsFile) (es : list event) : App :=
  match startup catalogue file with
  | Some a => run_events a es
  | None => new_app catalogue file
  end.

(** ** The preferences document *)

(** The entry of a command in a document, and in the file. *)
Definition command_entry (y : str) (d : jdict) : option json :=
  match jget "commands" d with
  | Some (JObj c) => dict_get str_eqb y c
  | _ => None
  end.

Definition file_entry (y : str) (f : PrefsFile) : option json :=
  match f with
  | Stored (JObj d) => command_entry y d
  | _ => None
  end.

(** A file with saved state for one command, written while another was
    shown. *)
Definition market_file : PrefsFile :=
  Stored (JObj
    [ (lit "selected_command", JStr (lit "Update/Rebuild DB"));
      (lit "commands",
       JObj [ (lit "market",
               JObj [ (lit "options",
                       JObj [ (lit "origin",
                               JObj [ (lit "selected", JBool true);
                                      (lit "value", JStr (lit "Sol/Abraham Lincoln")) ]);
                              (lit "buy",
                               JObj [ (lit "selected", JBool true);
                                      (lit "flag", JBool true) ]) ]);
                      (lit "output", JStr (lit "done" ++ nl)) ]) ]) ]).

(** A file that stores the three counters and nothing else. *)
Definition counters_file (zv zq zw : Z) : PrefsFile :=
  Stored (JObj [ (lit "detail", JInt zv); (lit "quiet", JInt zq); (lit "debug", JInt zw) ]).

(** A file whose counters are out of the range of the spin boxes. *)
Definition loud_file : PrefsFile :=
  Stored (JObj [ (lit "detail", JInt 9); (lit "quiet", JInt (-2)); (lit "debug", JInt 6) ]).




(** A visit to the command [local]: two switches are selected and given
    values, and a run leaves its output. *)
Definition visit_local : list event :=
  [ ChooseCommand (lit "local");
    ClickOption ly_spec; TypeValue ly_spec (lit "12");
    ClickOption avoid_spec; TypeValue avoid_spec (lit "Sol");
    Ran (lit "ok") ].

(** The file a session leaves that ends on [local], and the file a
    session leaves that goes on to [market]. *)
Definition file_on_local : PrefsFile := prefs_file (session NoFile visit_local).
Definition file_on_market : PrefsFile :=
  prefs_file (session NoFile (visit_local ++ [ChooseCommand (lit "market")])).

(** The names, variables and rows of the selection, for display. *)
Definition shown_vars (a : App) : list (str * bool) :=
  map (fun sw => (display_name (fst sw), snd sw)) (widget_vars a).
Definition shown_rows (a : App) : list (str * Row) :=
  map (fun sw => (display_name (fst sw), snd sw)) (_selected a).

(** The file and the raw document in memory agree on the entry of [y]. *)
Definition agree (y : str) (a : App) : Prop :=
  file_entry y (prefs_file a) = command_entry y (_prefs a).

(** [a'] comes from [a] by steps that show the same command and, while
    that command is not [y], keep the entry of [y]. *)
Definition keeps (y : str) (a a' : App) : Prop :=
  cmd_var a' = cmd_var a
  /\ _current_cmd_label a' = _current_cmd_label a
  /\ (cmd_var a <> y -> agree y a ->
      agree y a' /\ file_entry y (prefs_file a') = file_entry y (prefs_file a)).

(** The command [y] is neither shown nor the one shown last. *)
Definition away_from (y : str) (a : App) : Prop :=
  cmd_var a <> y /\ _current_cmd_label a <> Some y.

(** The actions that neither show [y] nor remove the file. *)
Definition leaves_alone (y : str) (e : event) : Prop :=
  match e with
  | ChooseCommand n => n <> y
  | SwapToFrom _ => lit "run" <> y
  | Reset => False
  | _ => True
  end.

(** What [_load_prefs] leaves as it found it while saves are suspended. *)
Definition untouched (a b : App) : Prop :=
  _suspend_save b = _suspend_save a /\ _prefs b = _prefs a
  /\ prefs_file b = prefs_file a /\ cmd_var b = cmd_var a
  /\ _current_cmd_label b = _current_cmd_label a.

(** A row is of the kind of its spec: a checkbox for a flag, an entry
    otherwise. *)
Definition row_fits (sw : OptionSpec * Row) : Prop :=
  match snd sw with
  | RowFlag _ => is_flag (fst sw) = true
  | RowValue _ => is_flag (fst sw) = false
  end.

Definition rows_fit (a : App) : Prop := Forall row_fits (_selected a).

(** [a'] has rows of the right kinds when [a] has. *)
Definition fits_after (a a' : App) : Prop := rows_fit a -> rows_fit a'.

(* ================================================================== *)
(** * Notions used in the further statements *)

(** ** The route parser *)

(** The lines in groups: a group ends before each block-start line. *)
Fixpoint chunks_from (current : list str) (lines : list str) : list (list str) :=
  match lines with
  | [] => [current]
  | ln :: rest =>
      if is_start ln then current :: chunks_from [ln] rest
      else chunks_from (current ++ [ln]) rest
  end.

(** The groups of a text: the blank lines in front belong to none. *)
Definition chunks (lines : list str) : list (list str) :=
  match skip_blank lines with
  | [] => []
  | ln :: rest => chunks_from [ln] rest
  end.

(** The record of a group of lines. *)
Definition route_of (lines : list str) : Route :=
  {| block := strip (join nl lines); dest := dest_of_line (hd [] lines) |}.

(** A text that neither starts nor ends with white space. *)
Definition trimmed (s : str) : Prop := strip s = s.

(** ** The colour sequences *)

(** A parameter character of a colour sequence: a digit or a semicolon. *)
Definition is_param (c : char) : bool :=
  ((48 <=? c) && (c <=? 57))%N || N.eqb c (chr ";").

(** A colour sequence: the escape character, an opening bracket, any
    parameters and the letter m. *)
Definition colour_code (code : str) : Prop :=
  exists params,
    forallb is_param params = true
    /\ code = [27%N; chr "["] ++ params ++ [chr "m"].

(** The text starts with a colour sequence. *)
Definition starts_with_code (s : str) : Prop :=
  exists code rest, colour_code code /\ s = code ++ rest.

(** [uncoloured s out]: [out] is the text [s] without its colour
    sequences.  Read from the left, a colour sequence is left out, and a
    character that starts none is kept. *)
Inductive uncoloured : str -> str -> Prop :=
| uncoloured_end : uncoloured [] []
| uncoloured_code : forall code rest out,
    colour_code code -> uncoloured rest out -> uncoloured (code ++ rest) out
| uncoloured_char : forall c rest out,
    ~ starts_with_code (c :: rest) -> uncoloured rest out ->
    uncoloured (c :: rest) (c :: out).

(** What follows the colour sequence a text starts with, if it starts
    with one. *)
Definition after_code (s : str) : option str :=
  match s with
  | e :: b :: s2 =>
      if N.eqb 27 e && N.eqb (chr "[") b then
        match dropwhile is_param s2 with
        | m :: rest => if N.eqb (chr "m") m then Some rest else None
        | [] => None
        end
      else None
  | _ => None
  end.

(** ** The matcher *)

(** A continuation that fails on every text of the class [Q]. *)
Definition dead (Q : str -> Prop) (k : str -> nat -> captures -> option outcome) : Prop :=
  forall s pos cs, Q s -> k s pos cs = None.

(** A record as the parser builds it: a block that is not empty and
    trimmed, and a trimmed destination. *)
Definition neat (r : Route) : Prop :=
  block r <> [] /\ trimmed (block r) /\ trimmed (dest r).

(** ** The flat export *)

(** The line of the record numbered [i]: the number on two digits at
    least, a full stop, a space, and the first line of the block without
    its colour sequences. *)
Definition numbered_line (i : nat) (r : Route) : str :=
  format_02d (Z.of_nat i) ++ lit ". " ++ _strip_ansi (hd [] (splitlines (block r))).

(** The lines of the records, numbered from [i] on. *)
Definition numbered_from (i : nat) (routes : list Route) : list str :=
  map (fun ir => numbered_line (fst ir) (snd ir))
      (combine (seq i (length routes)) routes).

(** ** The preview *)

(** Every double quote of [s] comes after a backslash; [after_backslash]
    tells whether the character before [s] is one. *)
Fixpoint quotes_escaped (after_backslash : bool) (s : str) : bool :=
  match s with
  | [] => true
  | c :: s' =>
      if N.eqb c 34 then after_backslash && quotes_escaped false s'
      else quotes_escaped (N.eqb c 92) s'
  end.

(** The text between double quotes read back: a backslash in front of a
    double quote goes. *)
Fixpoint unquoted (s : str) : str :=
  match s with
  | [] => []
  | c :: s' =>
      if N.eqb c 92 then
        match s' with
        | q :: s'' => if N.eqb q 34 then q :: unquoted s'' else c :: unquoted s'
        | [] => [c]
        end
      else c :: unquoted s'
  end.

(** A text that shows as it is: not empty, without white space and
    without a slash. *)
Definition plain_word (t : str) : Prop :=
  t <> [] /\ existsb isspace t = false /\ contains (lit "/") t = false.

(** How the preview shows a token.  The token is trimmed.  A plain word
    shows as it is.  Any other text shows between double quotes, with a
    backslash before every double quote inside and nothing else changed:
    reading the inside back gives the trimmed token. *)
Definition shown_as (token piece : str) : Prop :=
  (plain_word (strip token) /\ piece = strip token)
  \/ (~ plain_word (strip token)
      /\ exists body, piece = [34%N] ++ body ++ [34%N]
                      /\ quotes_escaped false body = true
                      /\ unquoted body = strip token).

(** ** A command [run] in small *)

Definition capacity_spec :=
  spec_of 11 ["--capacity"]%string (Some "capacity"%string) None PNone None.
Definition credits_spec :=
  spec_of 12 ["--credits"]%string (Some "credits"%string) None PNone None.
Definition from_spec :=
  spec_of 13 ["--from"; "-f"]%string (Some "starting"%string) None PNone None.
Definition hops_spec :=
  spec_of 14 ["--hops"]%string (Some "hops"%string) None (PInt 2) None.
Definition towards_spec :=
  spec_of 15 ["--towards"]%string (Some "goalSystem"%string) None PNone (Some 20).
Definition loop_spec :=
  spec_of 16 ["--loop"]%string (Some "loop"%string) (Some "store_true"%string)
          (PBool false) (Some 20).
Definition gpt_spec :=
  spec_of 17 ["--gpt"]%string (Some "gainPerTon"%string) None PNone None.

Definition run_meta : CommandMeta :=
  {| name := lit "run"; arguments := [];
     switches := [capacity_spec; credits_spec; from_spec; hops_spec;
                  towards_spec; loop_spec; gpt_spec];
     fixed_args := None |}.

(** The catalogue with [run] in it. *)
Definition trade_catalogue : list (str * CommandMeta) :=
  catalogue ++ [(lit "run", run_meta)].

(** ** Wrapping *)

(** The characters of a text other than spaces. *)
Definition ink (s : str) : str := filter (fun c => negb (N.eqb c 32)) s.


(** ** Loading the commands *)

(** What a spec was declared with, and its group. *)
Definition declared (s : OptionSpec) : Declaration * option nat :=
  ({| d_arg0 := arg0 s; d_arg_rest := arg_rest s; d_dest := kw_dest s;
      d_action := kw_action s; d_default := kw_default s |},
   group_id s).

(** The declarations an item stands for: itself, or the members of the
    group, each with the identity of the group. *)
Definition item_entries (item : Item) : list (Declaration * option nat) :=
  match item with
  | Argument d => [(d, None)]
  | ExclusiveGroup g ds => map (fun d => (d, Some g)) ds
  end.

Definition entries_of (items : option (list Item)) : list (Declaration * option nat) :=
  flat_map item_entries (match items with Some l => l | None => [] end).

(** Specs for a list of entries, with identities counted from [next]. *)
Fixpoint specs_from (next : nat) (entries : list (Declaration * option nat))
  : list OptionSpec :=
  match entries with
  | [] => []
  | e :: rest => new_spec next (fst e) (snd e) :: specs_from (S next) rest
  end.

(** No group among the items. *)
Definition plain_items (items : option (list Item)) : Prop :=
  forall g ds, ~ In (ExclusiveGroup g ds) (match items with Some l => l | None => [] end).

(** A small index of the wrapped program: one module with a positional
    and a group of two flags, one with nothing declared. *)
Definition decl (names : list string) (dest action : option string) (default : pyval)
  : Declaration :=
  {| d_arg0 := match names with n :: _ => lit n | [] => [] end;
     d_arg_rest := map lit (tl names);
     d_dest := option_map lit dest;
     d_action := option_map lit action;
     d_default := default |}.

Definition market_module : CommandModule :=
  {| m_arguments := Some [Argument (decl ["origin"]%string None None PNone)];
     m_switches :=
       Some [ExclusiveGroup 7
               [decl ["--buy"; "-B"]%string (Some "buy"%string)
                     (Some "store_true"%string) (PBool false);
                decl ["--sell"; "-S"]%string (Some "sell"%string)
                     (Some "store_true"%string) (PBool false)]] |}.

Definition bare_module : CommandModule :=
  {| m_arguments := None; m_switches := None |}.

Definition small_index : list (str * CommandModule) :=
  [ (lit "market", market_module); (lit "station", bare_module) ].

(** ** The steps of the engine

    What the handlers do between the writes of the command box and of the
    global options: they write the checkboxes, the rows and the output,
    and they save.  [works a b]: the state [b] comes from [a] by such
    steps. *)
Inductive works : App -> App -> Prop :=
| works_refl : forall a, works a a
| works_vars : forall a b x, works a b -> works a (set_widget_vars x b)
| works_rows : forall a b x, works a b -> works a (set_selected x b)
| works_output : forall a b x, works a b -> works a (set_output x b)
| works_save : forall a b, works a b -> works a (_save_prefs b)
| works_save_label : forall a b l, works a b -> works a (_save_state_for_label l b).

(** The global options: working directory, database, link distance and
    the three counters. *)
Definition globals (a : App) : str * str * str * (Z * Z * Z) :=
  (cwd_var a, db_var a, linkly_var a, (detail_var a, quiet_var a, debug_var a)).

(** An attribute that no step of the engine writes, nor the change of
    the command. *)
Definition kept_by_engine {T : Type} (f : App -> T) : Prop :=
  (forall x b, f (set_widget_vars x b) = f b)
  /\ (forall x b, f (set_selected x b) = f b)
  /\ (forall x b, f (set_output x b) = f b)
  /\ (forall p fl b, f (set_prefs_file fl (set_prefs p b)) = f b)
  /\ (forall x b, f (set_current_meta x b) = f b)
  /\ (forall x b, f (set_current_cmd_label x b) = f b).

(** The command box names the command shown, and names a command of the
    catalogue unless there is none. *)
Definition box_in_step (a : App) : Prop :=
  current_meta a = dict_get str_eqb (cmd_var a) (cmd_metas a)
  /\ (cmd_metas a <> [] -> dict_mem str_eqb (cmd_var a) (cmd_metas a) = true).

(** What [handle] makes of the global options. *)
Definition globals_after (a : App) (e : event) : str * str * str * (Z * Z * Z) :=
  match e with
  | TypeCwd v => (v, db_var a, linkly_var a, (detail_var a, quiet_var a, debug_var a))
  | TypeDb v => (cwd_var a, v, linkly_var a, (detail_var a, quiet_var a, debug_var a))
  | TypeLinkly v => (cwd_var a, db_var a, v, (detail_var a, quiet_var a, debug_var a))
  | SpinDetail z => (cwd_var a, db_var a, linkly_var a, (z, quiet_var a, debug_var a))
  | SpinQuiet z => (cwd_var a, db_var a, linkly_var a, (detail_var a, z, debug_var a))
  | SpinDebug z => (cwd_var a, db_var a, linkly_var a, (detail_var a, quiet_var a, z))
  | Reset => ([], [], [], (0, 0, 0))%Z
  | _ => globals a
  end.

(** The state [_load_prefs] leaves when [__init__] calls it on a file
    that holds a document: saves are suspended, so that the writes of the
    global options stay in memory. *)
Definition loaded (metas : list (str * CommandMeta)) (data : json) : App :=
  let d := match data with JObj d => d | _ => [] end in
  {| cmd_metas := metas;
     _suspend_save := true;
     current_meta := None;
     _current_cmd_label := None;
     cmd_var := [];
     widget_vars := [];
     _selected := [];
     cwd_var := match as_str (jget "cwd" d) with Some v => v | None => [] end;
     db_var := match as_str (jget "db" d) with Some v => v | None => [] end;
     linkly_var := match as_str (jget "linkly" d) with Some v => v | None => [] end;
     detail_var := match as_int (jget "detail" d) with Some z => z | None => 0%Z end;
     quiet_var := match as_int (jget "quiet" d) with Some z => z | None => 0%Z end;
     debug_var := match as_int (jget "debug" d) with Some z => z | None => 0%Z end;
     output := [];
     _prefs := d;
     _restore_cmd := match jget "selected_command" d with Some c => c | None => JNull end;
     prefs_file := Stored data |}.

(* ================================================================== *)
(** * Properties of the text functions *)

Example parse_spec_example :
  _parse_routes (lit "Sol -> Alpha Centauri (score: 12.3)" ++ nl ++ lit "line2" ++ nl ++ lit "line3")
  = [ {| block := lit "Sol -> Alpha Centauri (score: 12.3)" ++ nl ++ lit "line2" ++ nl ++ lit "line3";
         dest := lit "Alpha Centauri" |} ].
Proof. vm_compute. reflexivity. Qed.

Example parse_two_blocks :
  _parse_routes (lit "A -> B" ++ nl ++ lit " x" ++ nl ++ nl ++ [27%N] ++ lit "[1;32mC/D -> E/F" ++ [27%N] ++ lit "[0m" ++ nl)
  = [ {| block := lit "A -> B" ++ nl ++ lit " x"; dest := lit "B" |};
      {| block := lit "C/D -> E/F"; dest := lit "E/F" |} ].
Proof. vm_compute. reflexivity. Qed.


Lemma str_eqb_eq : forall a b, str_eqb a b = true <-> a = b.
Proof.
  induction a as [|x a IH]; destruct b as [|y b]; simpl; split; intro H;
    try reflexivity; try discriminate.
  - apply andb_true_iff in H as [Hx Hab].
    apply N.eqb_eq in Hx. apply IH in Hab. congruence.
  - injection H as -> ->. rewrite N.eqb_refl. simpl. now apply IH.
Qed.

Lemma str_eqb_refl : forall a, str_eqb a a = true.
Proof. intro a. now apply str_eqb_eq. Qed.

Lemma str_eqb_neq : forall a b, a <> b -> str_eqb a b = false.
Proof.
  intros a b H. destruct (str_eqb a b) eqn:E; [|reflexivity].
  apply str_eqb_eq in E. contradiction.
Qed.

Lemma nonempty_false : forall (A : Type) (l : list A), nonempty l = false <-> l = [].
Proof. destruct l; simpl; split; congruence. Qed.

Lemma dropwhile_nil : forall p s,
  dropwhile p s = [] <-> forallb p s = true.
Proof.
  induction s as [|c s IH]; simpl; [tauto|].
  destruct (p c); simpl; [exact IH|]. split; discriminate.
Qed.

Lemma dropwhile_suffix : forall p s, exists pre,
  s = pre ++ dropwhile p s /\ forallb p pre = true.
Proof.
  induction s as [|c s (pre & E & F)]; simpl.
  - exists []. auto.
  - destruct (p c) eqn:Pc.
    + exists (c :: pre). simpl. rewrite Pc, F.
      split; [f_equal; exact E | reflexivity].
    + exists []. auto.
Qed.

(** A string strips to nothing exactly when it is all white space. *)
Lemma strip_nil : forall s, strip s = [] <-> forallb isspace s = true.
Proof.
  intro s. unfold strip, rstrip, lstrip.
  destruct (dropwhile_suffix isspace s) as (pre & E & F).
  split; intro H.
  - assert (Z : dropwhile isspace (rev (dropwhile isspace s)) = []).
    { rewrite <- (rev_involutive (dropwhile isspace (rev (dropwhile isspace s)))), H.
      reflexivity. }
    apply dropwhile_nil in Z. rewrite forallb_forall in Z.
    rewrite E, forallb_app, F. simpl.
    apply forallb_forall. intros c Hc. apply Z, in_rev.
    now rewrite rev_involutive.
  - assert (Z : dropwhile isspace s = []) by now apply dropwhile_nil.
    rewrite Z. reflexivity.
Qed.

Lemma strip_nonempty : forall s c,
  In c s -> isspace c = false -> nonempty (strip s) = true.
Proof.
  intros s c Hin Hc. destruct (nonempty (strip s)) eqn:E; [reflexivity|].
  apply nonempty_false, strip_nil in E. rewrite forallb_forall in E.
  specialize (E c Hin). congruence.
Qed.

Lemma in_join_hd : forall sep p rest c, In c p -> In c (join sep (p :: rest)).
Proof.
  intros sep p rest c H. destruct rest; simpl; [assumption|].
  apply in_or_app. now left.
Qed.

Lemma fold_left_extend : forall (A B : Type) (f : B -> list A) (l : list B) (acc : list A),
  fold_left (fun parts x => parts ++ f x) l acc = acc ++ flat_map f l.
Proof.
  induction l as [|x l IH]; intro acc; simpl.
  - now rewrite app_nil_r.
  - rewrite IH. now rewrite <- app_assoc.
Qed.

Lemma map_filter_strip : forall l,
  map strip (filter (fun x => nonempty (strip x)) l)
  = filter (@nonempty char) (map strip l).
Proof.
  induction l as [|x l IH]; simpl; [reflexivity|].
  destruct (nonempty (strip x)); simpl; now rewrite IH.
Qed.

(* ================================================================== *)
(** * Properties of [_build_args] *)

Lemma append_spec_args_app : forall parts spec wd,
  append_spec_args parts spec wd = parts ++ spec_args spec wd.
Proof.
  intros parts spec wd. unfold spec_args, append_spec_args.
  destruct (is_flag spec).
  - destruct wd as [[|]|]; now rewrite ?app_nil_r.
  - destruct wd as [b|v]; [now rewrite app_nil_r|].
    destruct (nonempty (strip v)); [|now rewrite app_nil_r].
    destruct (is_positional spec); [reflexivity|].
    destruct (multiple spec && contains (lit ",") (strip v)); [|reflexivity].
    now rewrite !fold_left_extend.
Qed.

Lemma fold_append_spec_args : forall rows parts,
  fold_left (fun parts sw => append_spec_args parts (fst sw) (snd sw)) rows parts
  = parts ++ option_args rows.
Proof.
  induction rows as [|sw rows IH]; intro parts; simpl.
  - now rewrite app_nil_r.
  - rewrite IH, append_spec_args_app. now rewrite <- app_assoc.
Qed.

Lemma build_args_shape : forall a m,
  current_meta a = Some m ->
  _build_args a = start_args m ++ option_args (_selected a) ++ global_args a.
Proof.
  intros a m Hm. unfold _build_args. rewrite Hm.
  fold (start_args m). rewrite fold_append_spec_args.
  unfold global_args, pair_if_set.
  destruct (nonempty (strip (cwd_var a))),
           (nonempty (strip (db_var a))),
           (nonempty (strip (linkly_var a)));
    simpl; repeat rewrite <- app_assoc; simpl; reflexivity.
Qed.

Lemma option_args_app : forall r1 r2,
  option_args (r1 ++ r2) = option_args r1 ++ option_args r2.
Proof. intros. unfold option_args. now rewrite flat_map_app. Qed.

(* ================================================================== *)
(** * The parser on a text without a block start *)

Lemma parse_lines_open : forall lines routes current,
  (forall ln, In ln lines -> is_start ln = false) ->
  current <> [] ->
  parse_lines lines routes current = close_block routes (current ++ lines).
Proof.
  induction lines as [|ln rest IH]; intros routes current Hno Hcur.
  - simpl. rewrite app_nil_r. destruct current; [contradiction|reflexivity].
  - simpl. rewrite (Hno ln (or_introl eq_refl)). simpl.
    assert (Hne : nonempty current = true) by (destruct current; [contradiction|reflexivity]).
    assert (Hnext : parse_lines rest routes (current ++ [ln])
                    = close_block routes (current ++ ln :: rest)).
    { rewrite IH.
      - now rewrite <- app_assoc.
      - intros l Hl. apply Hno. now right.
      - destruct current; discriminate. }
    rewrite Hne. destruct (str_eqb (strip ln) []); exact Hnext.
Qed.

Lemma parse_lines_closed : forall lines routes,
  (forall ln, In ln lines -> is_start ln = false) ->
  parse_lines lines routes [] =
    match skip_blank lines with
    | [] => routes
    | body => close_block routes body
    end.
Proof.
  induction lines as [|ln rest IH]; intros routes Hno; [reflexivity|].
  simpl. rewrite (Hno ln (or_introl eq_refl)). simpl. unfold blank.
  destruct (str_eqb (strip ln) []).
  - apply IH. intros l Hl. apply Hno. now right.
  - rewrite parse_lines_open.
    + reflexivity.
    + intros l Hl. apply Hno. now right.
    + discriminate.
Qed.

Lemma skip_blank_head : forall lines ln rest,
  skip_blank lines = ln :: rest -> blank ln = false /\ In ln lines.
Proof.
  induction lines as [|l lines IH]; intros ln rest H; [discriminate|].
  simpl in H. destruct (blank l) eqn:B.
  - destruct (IH _ _ H). split; [assumption|now right].
  - injection H as -> _. split; [assumption|now left].
Qed.

Lemma not_blank_has_ink : forall ln,
  blank ln = false -> exists c, In c ln /\ isspace c = false.
Proof.
  intros ln B. unfold blank in B.
  assert (F : forallb isspace ln = false).
  { destruct (forallb isspace ln) eqn:E; [|reflexivity].
    apply strip_nil in E. rewrite E in B. discriminate. }
  clear B. induction ln as [|c ln IH]; [discriminate|].
  simpl in F. destruct (isspace c) eqn:C.
  - destruct (IH F) as (x & Hx & Sx). exists x. split; [now right|assumption].
  - exists c. split; [now left|assumption].
Qed.

(** C1 (as amended).  For a text none of whose lines matches the block
    start pattern: when every line is blank (the empty text included) the
    parser returns the empty list; otherwise it returns exactly one record,
    with an empty destination, whose block is the trimmed text from the
    first line that is not blank on. *)
Theorem parse_without_start_line : forall text : str,
  (forall ln, In ln (lines_of text) -> is_start ln = false) ->
  _parse_routes text =
    match skip_blank (lines_of text) with
    | [] => []
    | body => [ {| block := strip (join nl body); dest := [] |} ]
    end.
Proof.
  intros text Hno. unfold _parse_routes. fold (lines_of text).
  rewrite (parse_lines_closed _ _ Hno).
  destruct (skip_blank (lines_of text)) as [|ln rest] eqn:E; [reflexivity|].
  destruct (skip_blank_head _ _ _ E) as [B Hin].
  destruct (not_blank_has_ink _ B) as (c & Hc & Sc).
  unfold close_block.
  rewrite (strip_nonempty (join nl (ln :: rest)) c (in_join_hd nl ln rest c Hc) Sc).
  simpl hd. unfold dest_of_line.
  specialize (Hno ln Hin). unfold is_start in Hno.
  destruct (re_match start_pat ln); [discriminate|reflexivity].
Qed.

Lemma forallb_no_start : forall lines,
  forallb (fun ln => negb (is_start ln)) lines = true ->
  forall ln, In ln lines -> is_start ln = false.
Proof.
  intros lines H ln Hin. rewrite forallb_forall in H.
  apply negb_true_iff. now apply H.
Qed.

Lemma parse_without_start_line_witness :
  (forall ln, In ln (lines_of (nl ++ lit "  no route found " ++ nl ++ lit "try again"))
              -> is_start ln = false)
  /\ _parse_routes (nl ++ lit "  no route found " ++ nl ++ lit "try again")
     = [ {| block := lit "no route found " ++ nl ++ lit "try again"; dest := [] |} ].
Proof.
  assert (H : forall ln, In ln (lines_of (nl ++ lit "  no route found " ++ nl ++ lit "try again"))
                         -> is_start ln = false)
    by (apply forallb_no_start; vm_compute; reflexivity).
  split; [exact H|].
  rewrite (parse_without_start_line _ H). vm_compute. reflexivity.
Defined.

(** C1 as it is worded fails: a text with a line that is not blank and no
    line matching the start pattern yields a record, not the empty list. *)
Lemma parse_without_start_line_counterexample :
  forallb (fun ln => negb (is_start ln)) (lines_of (lit "no route found")) = true
  /\ _parse_routes (lit "no route found")
     = [ {| block := lit "no route found"; dest := [] |} ]
  /\ _parse_routes (lit "no route found") <> [].
Proof.
  split; [vm_compute; reflexivity|].
  split; [vm_compute; reflexivity|].
  vm_compute. discriminate.
Qed.

Example parse_empty : _parse_routes [] = [].
Proof. reflexivity. Qed.

(* ================================================================== *)
(** * The argument vector *)

(** C7.  The vector [_build_args] returns starts with the fixed arguments
    when the command has them set (the source tests their truth value, so
    a list that is not empty) and with the single token [name] otherwise;
    what follows is the same in both cases, the tokens of the selected
    rows and then those of the global options: the vector starts with one
    of the two, never with both one after the other and never with
    neither. *)
Theorem build_args_start : forall (a : App) (m : CommandMeta),
  current_meta a = Some m ->
  (forall fixed, fixed_args m = Some fixed -> fixed <> [] ->
     _build_args a = fixed ++ option_args (_selected a) ++ global_args a)
  /\ (fixed_args m = None \/ fixed_args m = Some [] ->
      _build_args a = [name m] ++ option_args (_selected a) ++ global_args a).
Proof.
  intros a m Hm. rewrite (build_args_shape a m Hm). unfold start_args. split.
  - intros fixed Hf Hne. rewrite Hf. destruct fixed; [contradiction|reflexivity].
  - intros [Hf|Hf]; rewrite Hf; reflexivity.
Qed.

Lemma build_args_start_witness :
  current_meta (showing rebuild_meta []) = Some rebuild_meta
  /\ _build_args (showing rebuild_meta [])
     = map lit ["import"; "-P"; "eddblink"; "-O"; "clean,all,skipvend,force"]%string
  /\ _build_args (showing local_meta []) = [lit "local"].
Proof.
  split; [reflexivity|]. split.
  - exact (proj1 (build_args_start (showing rebuild_meta []) rebuild_meta eq_refl)
                 _ eq_refl ltac:(discriminate)).
  - exact (proj2 (build_args_start (showing local_meta []) local_meta eq_refl) (or_introl eq_refl)).
Defined.

Lemma multiple_not_flag : forall spec, multiple spec = true -> is_flag spec = false.
Proof.
  intros spec. unfold multiple, is_flag, action_is.
  destruct (kw_action spec) as [x|]; [|discriminate].
  intro H. apply str_eqb_eq in H. subst x. reflexivity.
Qed.

Lemma spec_args_multi : forall spec v,
  multiple spec = true -> is_positional spec = false ->
  spec_args spec (RowValue v) = multi_expansion (display_name spec) v.
Proof.
  intros spec v Hm Hp. unfold spec_args, append_spec_args, multi_expansion.
  rewrite (multiple_not_flag spec Hm), Hp, Hm. simpl.
  destruct (nonempty (strip v)); [|reflexivity].
  destruct (contains (lit ",") (strip v)); [|reflexivity].
  rewrite fold_left_extend, map_filter_strip. reflexivity.
Qed.

(** C8.  A selected appending (Multi) switch contributes, at its place
    among the selected rows: nothing when its value is empty after
    trimming; otherwise, when the trimmed value has a comma, the pair of
    the flag and the piece for every piece that is not empty after
    splitting at the commas and trimming, in order; and when it has no
    comma, the one pair of the flag and the trimmed value. *)
Theorem build_args_multi : forall (a : App) (m : CommandMeta) (spec : OptionSpec)
                                  (v : str) (before after : list (OptionSpec * Row)),
  current_meta a = Some m ->
  multiple spec = true ->
  is_positional spec = false ->
  _selected a = before ++ (spec, RowValue v) :: after ->
  _build_args a
  = start_args m ++ option_args before
    ++ multi_expansion (display_name spec) v
    ++ option_args after ++ global_args a.
Proof.
  intros a m spec v before after Hm Hmul Hpos Hsel.
  rewrite (build_args_shape a m Hm), Hsel.
  change ((spec, RowValue v) :: after) with ([(spec, RowValue v)] ++ after).
  rewrite !option_args_app. unfold option_args at 2. simpl flat_map.
  rewrite app_nil_r, (spec_args_multi spec v Hmul Hpos).
  now rewrite <- !app_assoc.
Qed.

Lemma build_args_multi_witness :
  _build_args (showing local_meta [(near_spec, RowValue (lit "Sol"));
                                   (avoid_spec, RowValue (lit "a, b ,c"))])
  = map lit ["local"; "Sol"; "--avoid"; "a"; "--avoid"; "b"; "--avoid"; "c"]%string.
Proof.
  exact (build_args_multi
           (showing local_meta [(near_spec, RowValue (lit "Sol"));
                                (avoid_spec, RowValue (lit "a, b ,c"))])
           local_meta avoid_spec (lit "a, b ,c") [(near_spec, RowValue (lit "Sol"))] []
           eq_refl eq_refl eq_refl eq_refl).
Defined.

Example multi_single_value :
  _build_args (showing local_meta [(avoid_spec, RowValue (lit " a "))])
  = map lit ["local"; "--avoid"; "a"]%string.
Proof. vm_compute. reflexivity. Qed.

Example multi_only_commas :
  _build_args (showing local_meta [(avoid_spec, RowValue (lit " , ,"))])
  = [lit "local"].
Proof. vm_compute. reflexivity. Qed.

(** C9.  After the start and the tokens of the selected rows the vector
    ends with: the working-directory flag and value, the database flag and
    value, the link flag and value, each pair only when the trimmed value
    is not empty; then the verbosity flag as many times as the detail
    counter says, the quiet flag as many times as the quiet counter says,
    and the debug flag as many times as the debug counter says, each a
    token of its own. *)
Theorem build_args_global_suffix : forall (a : App) (m : CommandMeta),
  current_meta a = Some m ->
  _build_args a
  = (start_args m ++ option_args (_selected a))
    ++ (if nonempty (strip (cwd_var a)) then [lit "-C"; strip (cwd_var a)] else [])
    ++ (if nonempty (strip (db_var a)) then [lit "--db"; strip (db_var a)] else [])
    ++ (if nonempty (strip (linkly_var a)) then [lit "-L"; strip (linkly_var a)] else [])
    ++ repeat (lit "-v") (Z.to_nat (detail_var a))
    ++ repeat (lit "-q") (Z.to_nat (quiet_var a))
    ++ repeat (lit "-w") (Z.to_nat (debug_var a)).
Proof.
  intros a m Hm. rewrite (build_args_shape a m Hm), <- app_assoc. reflexivity.
Qed.

Lemma build_args_global_suffix_witness :
  _build_args (set_debug_var 1 (set_detail_var 2 (set_db_var (lit " td.db ")
                 (showing local_meta [(near_spec, RowValue (lit "Sol"))]))))
  = map lit ["local"; "Sol"; "--db"; "td.db"; "-v"; "-v"; "-w"]%string.
Proof.
  exact (build_args_global_suffix
           (set_debug_var 1 (set_detail_var 2 (set_db_var (lit " td.db ")
              (showing local_meta [(near_spec, RowValue (lit "Sol"))]))))
           local_meta eq_refl).
Defined.

(* ================================================================== *)
(** * Dictionaries *)

Lemma spec_is_eq : forall a b, spec_is a b = true <-> a = b.
Proof.
  intros a b. unfold spec_is. destruct (OptionSpec_eq_dec a b); split; congruence.
Qed.

Lemma spec_is_refl : forall a, spec_is a a = true.
Proof. intro a. now apply spec_is_eq. Qed.

Lemma spec_is_neq : forall a b, a <> b -> spec_is a b = false.
Proof.
  intros a b H. destruct (spec_is a b) eqn:E; [|reflexivity].
  apply spec_is_eq in E. contradiction.
Qed.

Lemma spec_in_In : forall s l, spec_in s l = true <-> In s l.
Proof.
  intros s l. unfold spec_in. rewrite existsb_exists. split.
  - intros (x & Hx & E). apply spec_is_eq in E. now subst.
  - intro H. exists s. split; [assumption|apply spec_is_refl].
Qed.

Section DictFacts.
Variables K V : Type.
Variable eqb : K -> K -> bool.
Hypothesis eqb_eq : forall a b, eqb a b = true <-> a = b.

Lemma eqb_same : forall k, eqb k k = true.
Proof. intro k. now apply eqb_eq. Qed.

Lemma eqb_diff : forall k k', k <> k' -> eqb k k' = false.
Proof.
  intros k k' H. destruct (eqb k k') eqn:E; [|reflexivity].
  apply eqb_eq in E. contradiction.
Qed.

Lemma dict_get_set_same : forall k (v : V) d,
  dict_get eqb k (dict_set eqb k v d) = Some v.
Proof.
  induction d as [|[k' v'] d IH]; simpl.
  - now rewrite eqb_same.
  - destruct (eqb k k') eqn:E; simpl; rewrite E; [reflexivity|exact IH].
Qed.

Lemma dict_get_set_other : forall k k' (v : V) d,
  k <> k' -> dict_get eqb k (dict_set eqb k' v d) = dict_get eqb k d.
Proof.
  intros k k' v d Hne. induction d as [|[k2 v2] d IH]; simpl.
  - now rewrite (eqb_diff k k' Hne).
  - destruct (eqb k' k2) eqn:E; simpl.
    + apply eqb_eq in E. subst k2. now rewrite (eqb_diff k k' Hne).
    + now rewrite IH.
Qed.

Lemma dict_get_pop_same : forall k (d : list (K * V)),
  dict_get eqb k (dict_pop eqb k d) = None.
Proof.
  induction d as [|[k' v'] d IH]; simpl; [reflexivity|].
  destruct (eqb k k') eqn:E; simpl; [exact IH|]. now rewrite E.
Qed.

Lemma dict_get_pop_other : forall k k' (d : list (K * V)),
  k <> k' -> dict_get eqb k (dict_pop eqb k' d) = dict_get eqb k d.
Proof.
  intros k k' d Hne. induction d as [|[k2 v2] d IH]; simpl; [reflexivity|].
  destruct (eqb k' k2) eqn:E; simpl.
  - apply eqb_eq in E. subst k2. now rewrite (eqb_diff k k' Hne).
  - now rewrite IH.
Qed.

Lemma dict_pop_absent : forall k (d : list (K * V)),
  dict_get eqb k d = None -> dict_pop eqb k d = d.
Proof.
  induction d as [|[k' v'] d IH]; simpl; [reflexivity|].
  destruct (eqb k k') eqn:E; [discriminate|]. simpl. intro H. now rewrite IH.
Qed.

Lemma dict_get_snoc : forall k k' (v : V) d,
  dict_get eqb k (d ++ [(k', v)])
  = match dict_get eqb k d with
    | Some x => Some x
    | None => if eqb k k' then Some v else None
    end.
Proof.
  induction d as [|[k2 v2] d IH]; simpl; [reflexivity|].
  destruct (eqb k k2); [reflexivity|exact IH].
Qed.

Lemma dict_get_in_keys : forall k (v : V) d,
  dict_get eqb k d = Some v -> In k (map fst d).
Proof.
  induction d as [|[k' v'] d IH]; simpl; [discriminate|].
  destruct (eqb k k') eqn:E.
  - apply eqb_eq in E. now left.
  - intro H. right. now apply IH.
Qed.
End DictFacts.

Lemma fold_left_invariant : forall (A B : Type) (P : A -> Prop) (f : A -> B -> A) l a,
  P a -> (forall a x, P a -> P (f a x)) -> P (fold_left f l a).
Proof.
  induction l as [|x l IH]; intros a Ha Hstep; simpl; [assumption|].
  apply IH; [now apply Hstep|assumption].
Qed.

(* ================================================================== *)
(** * What saving leaves alone *)

Lemma app_eta : forall a, set_prefs_file (prefs_file a) (set_prefs (_prefs a) a) = a.
Proof. destruct a; reflexivity. Qed.

Lemma set_prefs_eta : forall p a, set_prefs_file (prefs_file a) (set_prefs p a) = set_prefs p a.
Proof. destruct a; reflexivity. Qed.

Lemma save_prefs_frame : forall a, exists p f,
  _save_prefs a = set_prefs_file f (set_prefs p a).
Proof.
  intro a. unfold _save_prefs.
  destruct (_suspend_save a).
  - exists (_prefs a), (prefs_file a). symmetry. apply app_eta.
  - destruct (current_meta a) as [m|].
    + destruct (save_commands _ _ _ (dict_update _ _ _)) as [data' [|]].
      * eexists _, _. reflexivity.
      * eexists _, (prefs_file a). symmetry. apply set_prefs_eta.
    + eexists _, _. reflexivity.
Qed.

Lemma save_state_frame : forall label a, exists p f,
  _save_state_for_label label a = set_prefs_file f (set_prefs p a).
Proof.
  intros label a. unfold _save_state_for_label.
  destruct (_suspend_save a); [exists (_prefs a), (prefs_file a); symmetry; apply app_eta|].
  destruct (negb (nonempty label)); [exists (_prefs a), (prefs_file a); symmetry; apply app_eta|].
  destruct (current_meta a) as [m|];
    [|exists (_prefs a), (prefs_file a); symmetry; apply app_eta].
  destruct (save_commands _ _ _ _) as [data' [|]].
  - eexists _, _. reflexivity.
  - eexists _, (prefs_file a). symmetry. apply set_prefs_eta.
Qed.

Lemma same_selection_refl : forall a, same_selection a a.
Proof. intro a. repeat split. Qed.

Lemma same_selection_trans : forall a b c,
  same_selection a b -> same_selection b c -> same_selection a c.
Proof.
  intros a b c (H1 & H2 & H3) (H4 & H5 & H6). repeat split; congruence.
Qed.

Lemma save_prefs_same : forall a, same_selection (_save_prefs a) a.
Proof.
  intro a. destruct (save_prefs_frame a) as (p & f & ->). repeat split.
Qed.

Lemma save_state_same : forall label a, same_selection (_save_state_for_label label a) a.
Proof.
  intros label a. destruct (save_state_frame label a) as (p & f & ->). repeat split.
Qed.

(** The setters of the other attributes leave the selection alone. *)
Lemma set_suspend_save_same : forall x a, same_selection (set_suspend_save x a) a.
Proof. repeat split. Qed.

Lemma set_current_cmd_label_same : forall x a, same_selection (set_current_cmd_label x a) a.
Proof. repeat split. Qed.

Lemma set_cmd_var_same : forall x a, same_selection (set_cmd_var x a) a.
Proof. repeat split. Qed.

Lemma set_cwd_var_same : forall x a, same_selection (set_cwd_var x a) a.
Proof. repeat split. Qed.

Lemma set_db_var_same : forall x a, same_selection (set_db_var x a) a.
Proof. repeat split. Qed.

Lemma set_linkly_var_same : forall x a, same_selection (set_linkly_var x a) a.
Proof. repeat split. Qed.

Lemma set_detail_var_same : forall x a, same_selection (set_detail_var x a) a.
Proof. repeat split. Qed.

Lemma set_quiet_var_same : forall x a, same_selection (set_quiet_var x a) a.
Proof. repeat split. Qed.

Lemma set_debug_var_same : forall x a, same_selection (set_debug_var x a) a.
Proof. repeat split. Qed.

Lemma set_output_same : forall x a, same_selection (set_output x a) a.
Proof. repeat split. Qed.

Lemma set_prefs_same : forall x a, same_selection (set_prefs x a) a.
Proof. repeat split. Qed.

Lemma set_restore_cmd_same : forall x a, same_selection (set_restore_cmd x a) a.
Proof. repeat split. Qed.

Lemma set_prefs_file_same : forall x a, same_selection (set_prefs_file x a) a.
Proof. repeat split. Qed.

Create HintDb selection.
#[local] Hint Resolve same_selection_refl save_prefs_same save_state_same
  set_suspend_save_same set_current_cmd_label_same set_cmd_var_same set_cwd_var_same set_db_var_same set_linkly_var_same set_detail_var_same set_quiet_var_same set_debug_var_same set_output_same set_prefs_same set_restore_cmd_same set_prefs_file_same : selection.

(** Peels the saves and setters off a state that kept its selection. *)
Ltac peel_same :=
  repeat first
    [ apply same_selection_refl
    | eapply same_selection_trans; [solve [auto with selection]|] ].

(* ================================================================== *)
(** * The toggles, spec by spec *)

Lemma same_selection_sel_var : forall a b x,
  same_selection a b -> sel_var a x = sel_var b x.
Proof. intros a b x (H & _). unfold sel_var. now rewrite H. Qed.

Lemma same_selection_row_of : forall a b x,
  same_selection a b -> row_of a x = row_of b x.
Proof. intros a b x (_ & H & _). unfold row_of. now rewrite H. Qed.

Lemma has_row_row_of : forall a x, has_row a x = true <-> row_of a x <> None.
Proof.
  intros a x. unfold has_row, dict_mem, row_of.
  destruct (dict_get spec_is x (_selected a)); split; congruence.
Qed.


Lemma sel_var_write : forall a s b x,
  sel_var (set_widget_vars (dict_set spec_is s b (widget_vars a)) a) x
  = if spec_is x s then Some b else sel_var a x.
Proof.
  intros a s b x. unfold sel_var. simpl.
  destruct (spec_is x s) eqn:E.
  - apply spec_is_eq in E. subst x. apply dict_get_set_same, spec_is_eq.
  - apply dict_get_set_other; [apply spec_is_eq|].
    intro H. subst x. rewrite spec_is_refl in E. discriminate.
Qed.

Lemma row_of_pop : forall a s x,
  row_of (set_selected (dict_pop spec_is s (_selected a)) a) x
  = if spec_is x s then None else row_of a x.
Proof.
  intros a s x. unfold row_of. simpl.
  destruct (spec_is x s) eqn:E.
  - apply spec_is_eq in E. subst x. apply dict_get_pop_same.
  - apply dict_get_pop_other; [apply spec_is_eq|].
    intro H. subst x. rewrite spec_is_refl in E. discriminate.
Qed.

Lemma row_of_set : forall a s r x,
  row_of (set_selected (dict_set spec_is s r (_selected a)) a) x
  = if spec_is x s then Some r else row_of a x.
Proof.
  intros a s r x. unfold row_of. simpl.
  destruct (spec_is x s) eqn:E.
  - apply spec_is_eq in E. subst x. apply dict_get_set_same, spec_is_eq.
  - apply dict_get_set_other; [apply spec_is_eq|].
    intro H. subst x. rewrite spec_is_refl in E. discriminate.
Qed.

(** [_remove_selected_row] *)
Lemma remove_row_selected : forall s a,
  _selected (_remove_selected_row s a) = dict_pop spec_is s (_selected a).
Proof.
  intros s a. unfold _remove_selected_row, row_of.
  destruct (dict_get spec_is s (_selected a)) eqn:E.
  - destruct (save_prefs_same (set_selected (dict_pop spec_is s (_selected a)) a))
      as (_ & H & _). exact H.
  - symmetry. now apply dict_pop_absent.
Qed.

Lemma remove_row_widget_vars : forall s a,
  widget_vars (_remove_selected_row s a) = widget_vars a.
Proof.
  intros s a. unfold _remove_selected_row. destruct (row_of a s); [|reflexivity].
  destruct (save_prefs_same (set_selected (dict_pop spec_is s (_selected a)) a))
    as (H & _). exact H.
Qed.

Lemma remove_row_meta : forall s a,
  current_meta (_remove_selected_row s a) = current_meta a.
Proof.
  intros s a. unfold _remove_selected_row. destruct (row_of a s); [|reflexivity].
  destruct (save_prefs_same (set_selected (dict_pop spec_is s (_selected a)) a))
    as (_ & _ & H). exact H.
Qed.

Lemma remove_row_sel_var : forall s a x,
  sel_var (_remove_selected_row s a) x = sel_var a x.
Proof. intros. unfold sel_var. now rewrite remove_row_widget_vars. Qed.

Lemma remove_row_row_of : forall s a x,
  row_of (_remove_selected_row s a) x = if spec_is x s then None else row_of a x.
Proof.
  intros s a x. unfold row_of at 1. rewrite remove_row_selected.
  exact (row_of_pop a s x).
Qed.

(** [_ensure_selected_row] *)
Lemma ensure_row_widget_vars : forall s a,
  widget_vars (_ensure_selected_row s a) = widget_vars a.
Proof.
  intros s a. unfold _ensure_selected_row.
  destruct (dict_mem spec_is s (_selected a)); reflexivity.
Qed.

Lemma ensure_row_meta : forall s a,
  current_meta (_ensure_selected_row s a) = current_meta a.
Proof.
  intros s a. unfold _ensure_selected_row.
  destruct (dict_mem spec_is s (_selected a)); reflexivity.
Qed.

Lemma ensure_row_sel_var : forall s a x,
  sel_var (_ensure_selected_row s a) x = sel_var a x.
Proof. intros. unfold sel_var. now rewrite ensure_row_widget_vars. Qed.

Lemma ensure_row_row_of : forall s a x,
  row_of (_ensure_selected_row s a) x
  = match row_of a x with
    | Some r => Some r
    | None => if spec_is x s then Some (new_row s) else None
    end.
Proof.
  intros s a x. unfold _ensure_selected_row, dict_mem.
  destruct (dict_get spec_is s (_selected a)) eqn:E.
  - fold (row_of a x). destruct (row_of a x) eqn:R; [reflexivity|].
    destruct (spec_is x s) eqn:X; [|reflexivity].
    apply spec_is_eq in X. subst x. unfold row_of in R. congruence.
  - unfold row_of. simpl. apply dict_get_snoc.
Qed.

Lemma ensure_row_has_row : forall s a, has_row (_ensure_selected_row s a) s = true.
Proof.
  intros s a. apply has_row_row_of. rewrite ensure_row_row_of.
  destruct (row_of a s); [discriminate|]. rewrite spec_is_refl. discriminate.
Qed.

(** [sv.set(False)] in the loop *)
Lemma clear_sel_var : forall o a x,
  sel_var (sel_var_clear o a) x = if spec_is x o then Some false else sel_var a x.
Proof.
  intros o a x. unfold sel_var_clear.
  rewrite (same_selection_sel_var _ _ x (save_prefs_same _)), remove_row_sel_var.
  apply sel_var_write.
Qed.

Lemma clear_row_of : forall o a x,
  row_of (sel_var_clear o a) x = if spec_is x o then None else row_of a x.
Proof.
  intros o a x. unfold sel_var_clear.
  rewrite (same_selection_row_of _ _ x (save_prefs_same _)), remove_row_row_of.
  reflexivity.
Qed.

Lemma clear_meta : forall o a, current_meta (sel_var_clear o a) = current_meta a.
Proof.
  intros o a. unfold sel_var_clear.
  destruct (save_prefs_same
              (_remove_selected_row o
                 (set_widget_vars (dict_set spec_is o false (widget_vars a)) a)))
    as (_ & _ & ->).
  now rewrite remove_row_meta.
Qed.

(** The loop over the group *)
Lemma unselect_other_cases : forall s a o,
  unselect_other s a o = a
  \/ (o <> s /\ same_group o s = true /\ sel_var a o = Some true
      /\ unselect_other s a o = sel_var_clear o a).
Proof.
  intros s a o. unfold unselect_other.
  destruct (spec_is o s) eqn:E; [now left|].
  destruct (same_group o s) eqn:G; [|now left].
  destruct (sel_var a o) as [[|]|] eqn:S; [|now left|now left].
  right. repeat split; try reflexivity.
  intro H. subst o. rewrite spec_is_refl in E. discriminate.
Qed.

Lemma unselect_other_kept : forall s a o, kept_or_cleared s a (unselect_other s a o).
Proof.
  intros s a o x.
  destruct (unselect_other_cases s a o) as [->|(Hne & G & S & ->)]; [now left|].
  rewrite clear_sel_var, clear_row_of.
  destruct (spec_is x o) eqn:E; [|now left].
  apply spec_is_eq in E. subst x. right. repeat split; assumption.
Qed.

Lemma unselect_fold_kept : forall s ks a,
  kept_or_cleared s a (fold_left (unselect_other s) ks a).
Proof.
  intros s ks. induction ks as [|k ks IH]; intros a x; simpl; [now left|].
  destruct (IH (unselect_other s a k) x) as [[S R]|(Hne & G & S1 & S2 & R)];
    destruct (unselect_other_kept s a k x) as [[S' R']|(Hne' & G' & S1' & S2' & R')].
  - left. split; congruence.
  - right. repeat split; try assumption; congruence.
  - right. repeat split; try assumption; congruence.
  - congruence.
Qed.

Lemma unselect_fold_hits : forall s ks a x,
  In x ks -> x <> s -> same_group x s = true ->
  sel_var (fold_left (unselect_other s) ks a) x <> Some true.
Proof.
  intros s ks. induction ks as [|k ks IH]; intros a x Hin Hne G; [contradiction|].
  simpl. destruct Hin as [->|Hin]; [|now apply IH].
  destruct (unselect_fold_kept s ks (unselect_other s a x) x)
    as [[S _]|(_ & _ & _ & S & _)]; [|congruence].
  rewrite S. unfold unselect_other.
  rewrite (spec_is_neq x s Hne), G.
  destruct (sel_var a x) as [[|]|] eqn:Sx; try congruence.
  rewrite clear_sel_var, spec_is_refl. discriminate.
Qed.

Lemma unselect_fold_meta : forall s ks a,
  current_meta (fold_left (unselect_other s) ks a) = current_meta a.
Proof.
  intros s ks. induction ks as [|k ks IH]; intro a; simpl; [reflexivity|].
  rewrite IH.
  destruct (unselect_other_cases s a k) as [->|(_ & _ & _ & ->)];
    [reflexivity|apply clear_meta].
Qed.

Lemma kept_or_cleared_synced : forall s a a',
  kept_or_cleared s a a' -> synced a -> synced a'.
Proof.
  intros s a a' K Hs x Hx. apply has_row_row_of in Hx.
  destruct (K x) as [[S R]|(_ & _ & _ & _ & R)]; [|contradiction].
  rewrite S. apply Hs. apply has_row_row_of. congruence.
Qed.

Lemma after_unselect_kept : forall s a, kept_or_cleared s a (after_unselect s a).
Proof.
  intros s a. unfold after_unselect. simpl.
  destruct (group_id s); [apply unselect_fold_kept|]. intro x. now left.
Qed.

Lemma after_unselect_meta : forall s a,
  current_meta (after_unselect s a) = current_meta a.
Proof.
  intros s a. unfold after_unselect. simpl.
  destruct (group_id s); [apply unselect_fold_meta|reflexivity].
Qed.

Lemma after_unselect_rival : forall s a x,
  rival s x = true -> sel_var (after_unselect s a) x <> Some true.
Proof.
  intros s a x Hr. unfold rival in Hr.
  apply andb_true_iff in Hr as [Hr Hg]. apply andb_true_iff in Hr as [Hne Hsame].
  assert (x <> s).
  { intro E. subst x. rewrite spec_is_refl in Hne. discriminate. }
  unfold after_unselect. simpl. destruct (group_id s); [|discriminate].
  destruct (sel_var a x) as [[|]|] eqn:S.
  - apply unselect_fold_hits; try assumption.
    unfold sel_var in S. eapply dict_get_in_keys; [apply spec_is_eq|exact S].
  - destruct (unselect_fold_kept s (map fst (widget_vars a)) a x)
      as [[S' _]|(_ & _ & _ & S' & _)]; unfold unselect_group; congruence.
  - destruct (unselect_fold_kept s (map fst (widget_vars a)) a x)
      as [[S' _]|(_ & _ & _ & S' & _)]; unfold unselect_group; congruence.
Qed.

Lemma sel_var_set_true_unfold : forall s a,
  same_selection (sel_var_set s true a)
    (_ensure_selected_row s
       (after_unselect s (set_widget_vars (dict_set spec_is s true (widget_vars a)) a))).
Proof.
  intros s a. unfold sel_var_set, _on_toggle_option. apply save_prefs_same.
Qed.

Lemma sel_var_set_false_unfold : forall s a,
  same_selection (sel_var_set s false a)
    (_remove_selected_row s (set_widget_vars (dict_set spec_is s false (widget_vars a)) a)).
Proof.
  intros s a. unfold sel_var_set, _on_toggle_option. apply save_prefs_same.
Qed.

(** Unselecting: the variable and the row of the spec go, nothing else
    moves. *)
Lemma sel_var_set_false_sel_var : forall s a x,
  sel_var (sel_var_set s false a) x = if spec_is x s then Some false else sel_var a x.
Proof.
  intros s a x.
  rewrite (same_selection_sel_var _ _ x (sel_var_set_false_unfold s a)).
  rewrite remove_row_sel_var. apply sel_var_write.
Qed.

Lemma sel_var_set_false_row_of : forall s a x,
  row_of (sel_var_set s false a) x = if spec_is x s then None else row_of a x.
Proof.
  intros s a x.
  rewrite (same_selection_row_of _ _ x (sel_var_set_false_unfold s a)).
  rewrite remove_row_row_of. reflexivity.
Qed.

(** Selecting: the spec is selected and has a row; any other spec stays as
    it was or, being a selected member of the group, is unselected and
    loses its row; no other member of the group stays selected. *)
Lemma sel_var_set_true_self : forall s a,
  sel_var (sel_var_set s true a) s = Some true /\ has_row (sel_var_set s true a) s = true.
Proof.
  intros s a. split.
  - rewrite (same_selection_sel_var _ _ s (sel_var_set_true_unfold s a)).
    rewrite ensure_row_sel_var.
    destruct (after_unselect_kept s
                (set_widget_vars (dict_set spec_is s true (widget_vars a)) a) s)
      as [[S _]|(Hne & _)]; [|contradiction].
    rewrite S, sel_var_write, spec_is_refl. reflexivity.
  - apply has_row_row_of.
    rewrite (same_selection_row_of _ _ s (sel_var_set_true_unfold s a)).
    apply has_row_row_of, ensure_row_has_row.
Qed.

Lemma after_unselect_cleared : forall s a x,
  (sel_var (after_unselect s a) x = sel_var a x
   /\ row_of (after_unselect s a) x = row_of a x)
  \/ (rival s x = true /\ sel_var a x = Some true
      /\ sel_var (after_unselect s a) x = Some false
      /\ row_of (after_unselect s a) x = None).
Proof.
  intros s a x.
  destruct (group_id s) as [g|] eqn:G.
  - destruct (after_unselect_kept s a x) as [H|(Hne & Hg & S1 & S2 & R)]; [now left|].
    right. repeat split; try assumption.
    unfold rival. rewrite (spec_is_neq x s Hne), Hg, G. reflexivity.
  - left. unfold after_unselect. rewrite G. split; reflexivity.
Qed.

Lemma sel_var_set_true_others : forall s a x,
  x <> s ->
  (sel_var (sel_var_set s true a) x = sel_var a x
   /\ row_of (sel_var_set s true a) x = row_of a x)
  \/ (rival s x = true /\ sel_var a x = Some true
      /\ sel_var (sel_var_set s true a) x = Some false
      /\ row_of (sel_var_set s true a) x = None).
Proof.
  intros s a x Hne.
  rewrite (same_selection_sel_var _ _ x (sel_var_set_true_unfold s a)).
  rewrite (same_selection_row_of _ _ x (sel_var_set_true_unfold s a)).
  rewrite ensure_row_sel_var, ensure_row_row_of, (spec_is_neq x s Hne).
  set (a0 := set_widget_vars (dict_set spec_is s true (widget_vars a)) a).
  assert (W : sel_var a0 x = sel_var a x)
    by (unfold a0; rewrite sel_var_write, (spec_is_neq x s Hne); reflexivity).
  assert (R0 : row_of a0 x = row_of a x) by reflexivity.
  destruct (after_unselect_cleared s a0 x) as [[S R]|(G & S1 & S2 & R)].
  - left. rewrite S, R, W, R0. split; [reflexivity|]. now destruct (row_of a x).
  - right. rewrite R, S2, <- W. repeat split; assumption.
Qed.

Lemma sel_var_set_true_rival : forall s a x,
  rival s x = true -> sel_var (sel_var_set s true a) x <> Some true.
Proof.
  intros s a x Hr.
  rewrite (same_selection_sel_var _ _ x (sel_var_set_true_unfold s a)).
  rewrite ensure_row_sel_var. now apply after_unselect_rival.
Qed.

Lemma sel_var_set_meta : forall s b a,
  current_meta (sel_var_set s b a) = current_meta a.
Proof.
  intros s [|] a.
  - destruct (sel_var_set_true_unfold s a) as (_ & _ & ->).
    now rewrite ensure_row_meta, after_unselect_meta.
  - destruct (sel_var_set_false_unfold s a) as (_ & _ & ->).
    now rewrite remove_row_meta.
Qed.

(* ================================================================== *)
(** * The invariant of the selection *)

Lemma rival_same_group : forall s x g,
  x <> s -> group_id s = Some g -> group_id x = Some g -> rival s x = true.
Proof.
  intros s x g Hne Hs Hx. unfold rival, same_group.
  now rewrite (spec_is_neq x s Hne), Hs, Hx, Nat.eqb_refl.
Qed.

Lemma rival_grouped : forall s x, rival s x = true -> group_id x <> None.
Proof.
  intros s x H. unfold rival, same_group in H.
  destruct (group_id x); [discriminate|].
  destruct (group_id s); rewrite ?andb_false_r in H; discriminate.
Qed.

Lemma well_selected_same : forall m a b,
  same_selection a b -> well_selected m b -> well_selected m a.
Proof.
  intros m a b Hs (Hm & Hsy & Hc & He & Hr).
  assert (SV : forall x, sel_var a x = sel_var b x)
    by (intro x; now apply same_selection_sel_var).
  assert (RW : forall x, has_row a x = has_row b x)
    by (intro x; unfold has_row; destruct Hs as (_ & -> & _); reflexivity).
  split; [destruct Hs as (_ & _ & ->); exact Hm|].
  split; [intros x Hx; rewrite SV; apply Hsy; now rewrite <- RW|].
  split; [intros x Hx; rewrite SV; now apply Hc|].
  split.
  - intros g G s1 s2 H1 H2. rewrite SV in H1, H2. now apply (He g G).
  - intros U x Hx. rewrite SV, RW. now apply Hr.
Qed.

Lemma well_selected_select : forall m a s,
  well_selected m a -> well_selected m (sel_var_set s true a).
Proof.
  intros m a s (Hm & Hsy & Hc & He & Hr).
  destruct (sel_var_set_true_self s a) as [Self Row].
  split; [now rewrite sel_var_set_meta|].
  split; [|split; [|split]].
  - intros x Hx. destruct (OptionSpec_eq_dec x s) as [->|Hne]; [exact Self|].
    apply has_row_row_of in Hx.
    destruct (sel_var_set_true_others s a x Hne) as [[S R]|(_ & _ & _ & R)];
      [|contradiction].
    rewrite S. apply Hsy, has_row_row_of. congruence.
  - intros x Hx. destruct (OptionSpec_eq_dec x s) as [->|Hne]; [congruence|].
    destruct (sel_var_set_true_others s a x Hne) as [[S R]|(_ & _ & S & _)].
    + rewrite S. now apply Hc.
    + congruence.
  - intros g G s1 s2 H1 H2 G1 G2.
    destruct (OptionSpec_eq_dec s1 s) as [E1|N1];
      destruct (OptionSpec_eq_dec s2 s) as [E2|N2]; try congruence.
    + subst s1. exfalso.
      apply (sel_var_set_true_rival s a s2); [|assumption].
      now apply rival_same_group with g.
    + subst s2. exfalso.
      apply (sel_var_set_true_rival s a s1); [|assumption].
      now apply rival_same_group with g.
    + destruct (sel_var_set_true_others s a s1 N1) as [[S1 _]|(_ & _ & S1 & _)];
        [|congruence].
      destruct (sel_var_set_true_others s a s2 N2) as [[S2 _]|(_ & _ & S2 & _)];
        [|congruence].
      apply (He g G); congruence.
  - intros U x Hx. destruct (OptionSpec_eq_dec x s) as [->|Hne]; [now split|].
    destruct (sel_var_set_true_others s a x Hne) as [[S R]|(Rv & _)].
    + destruct (Hr U x Hx) as [Sx Rx]. split; [congruence|].
      apply has_row_row_of. apply has_row_row_of in Rx. congruence.
    + apply rival_grouped in Rv. now rewrite (U x Hx) in Rv.
Qed.

Lemma well_selected_unselect : forall m a s,
  well_selected m a -> ~ In s (arguments m) -> well_selected m (sel_var_set s false a).
Proof.
  intros m a s (Hm & Hsy & Hc & He & Hr) Hnot.
  split; [now rewrite sel_var_set_meta|].
  split; [|split; [|split]].
  - intros x Hx. apply has_row_row_of in Hx.
    rewrite sel_var_set_false_row_of in Hx. rewrite sel_var_set_false_sel_var.
    destruct (spec_is x s); [contradiction|]. now apply Hsy, has_row_row_of.
  - intros x Hx. rewrite sel_var_set_false_sel_var.
    destruct (spec_is x s); [discriminate|]. now apply Hc.
  - intros g G s1 s2 H1 H2. rewrite sel_var_set_false_sel_var in H1, H2.
    destruct (spec_is s1 s); [discriminate|].
    destruct (spec_is s2 s); [discriminate|]. now apply (He g G).
  - intros U x Hx. rewrite sel_var_set_false_sel_var.
    assert (Hne : x <> s) by (intro E; subst x; contradiction).
    rewrite (spec_is_neq x s Hne).
    destruct (Hr U x Hx) as [Sx Rx]. split; [assumption|].
    apply has_row_row_of. rewrite sel_var_set_false_row_of, (spec_is_neq x s Hne).
    now apply has_row_row_of.
Qed.

Lemma well_selected_rows : forall m a a',
  widget_vars a' = widget_vars a -> current_meta a' = current_meta a ->
  (forall x, has_row a' x = true -> has_row a x = true \/ sel_var a x = Some true) ->
  (forall x, has_row a x = true -> has_row a' x = true) ->
  well_selected m a -> well_selected m a'.
Proof.
  intros m a a' W M R1 R2 (Hm & Hsy & Hc & He & Hr).
  assert (SV : forall x, sel_var a' x = sel_var a x)
    by (intro x; unfold sel_var; now rewrite W).
  split; [congruence|].
  split; [intros x Hx; rewrite SV; destruct (R1 x Hx); [now apply Hsy|assumption]|].
  split; [intros x Hx; rewrite SV; now apply Hc|].
  split.
  - intros g G s1 s2 H1 H2. rewrite SV in H1, H2. now apply (He g G).
  - intros U x Hx. rewrite SV. destruct (Hr U x Hx). split; [assumption|now apply R2].
Qed.

Lemma well_selected_ensure : forall m a s,
  well_selected m a -> sel_var a s = Some true -> well_selected m (_ensure_selected_row s a).
Proof.
  intros m a s G S.
  apply well_selected_rows with a; try assumption.
  - apply ensure_row_widget_vars.
  - apply ensure_row_meta.
  - intros x Hx. apply has_row_row_of in Hx. rewrite ensure_row_row_of in Hx.
    destruct (row_of a x) eqn:R.
    + left. apply has_row_row_of. congruence.
    + destruct (spec_is x s) eqn:E; [|contradiction].
      apply spec_is_eq in E. subst x. now right.
  - intros x Hx. apply has_row_row_of. apply has_row_row_of in Hx.
    rewrite ensure_row_row_of. destruct (row_of a x); congruence.
Qed.

Lemma well_selected_row_edit : forall m a s r,
  well_selected m a -> row_of a s <> None ->
  well_selected m (set_selected (dict_set spec_is s r (_selected a)) a).
Proof.
  intros m a s r G Hs.
  apply well_selected_rows with a; try assumption; try reflexivity.
  - intros x Hx. left. apply has_row_row_of. apply has_row_row_of in Hx.
    rewrite row_of_set in Hx. destruct (spec_is x s) eqn:E; [|assumption].
    apply spec_is_eq in E. now subst x.
  - intros x Hx. apply has_row_row_of. apply has_row_row_of in Hx.
    rewrite row_of_set. destruct (spec_is x s); [discriminate|assumption].
Qed.

Lemma well_selected_row_flag_set : forall m a s b, well_selected m a -> well_selected m (row_flag_set s b a).
Proof.
  intros m a s b G. unfold row_flag_set.
  destruct (row_of a s) as [[f|v]|] eqn:R; try assumption.
  eapply well_selected_same; [apply save_prefs_same|].
  apply well_selected_row_edit; [assumption|congruence].
Qed.

Lemma well_selected_row_value_set : forall m a s v, well_selected m a -> well_selected m (row_value_set s v a).
Proof.
  intros m a s v G. unfold row_value_set.
  destruct (row_of a s) as [[f|w]|] eqn:R; try assumption.
  eapply well_selected_same; [apply save_prefs_same|].
  apply well_selected_row_edit; [assumption|congruence].
Qed.

(** Restoring keeps the invariant. *)
Lemma well_selected_restore_row : forall m a s, well_selected m a -> well_selected m (fst (restore_row s a)).
Proof.
  intros m a s G. unfold restore_row.
  destruct (saved_option a s) as [[opt|]|]; try assumption.
  destruct (is_flag s).
  - destruct opt; try assumption. now apply well_selected_row_flag_set.
  - destruct opt; try assumption.
    destruct (jget "value" d); [|assumption]. now apply well_selected_row_value_set.
Qed.

Lemma well_selected_restore_spec : forall m a s,
  In s (categorized_specs m) -> well_selected m a -> well_selected m (fst (restore_spec m s a)).
Proof.
  intros m a s Hin G. unfold restore_spec.
  destruct (saved_option a s) as [[opt|]|]; try assumption.
  destruct (negb (truthy opt)); [assumption|].
  assert (Hc : sel_var a s <> None) by (destruct G as (_ & _ & Hc & _); now apply Hc).
  destruct (sel_var a s) as [b0|] eqn:S; [clear Hc|congruence].
  destruct (spec_in s (arguments m)) eqn:Req.
  - apply well_selected_restore_row, well_selected_ensure; [now apply well_selected_select|].
    apply sel_var_set_true_self.
  - destruct opt; try assumption.
    destruct (truthy (jget_default "selected" (JBool false) d)).
    + apply well_selected_restore_row, well_selected_ensure; [now apply well_selected_select|].
      apply sel_var_set_true_self.
    + apply well_selected_unselect; [assumption|].
      intro H. apply spec_in_In in H. congruence.
Qed.

Lemma well_selected_restore_specs : forall m specs a,
  (forall s, In s specs -> In s (categorized_specs m)) ->
  well_selected m a -> well_selected m (fst (restore_specs m specs a)).
Proof.
  intros m specs. induction specs as [|s specs IH]; intros a Hsub G; [assumption|].
  simpl.
  assert (G1 : well_selected m (fst (restore_spec m s a)))
    by (apply well_selected_restore_spec; [apply Hsub; now left|assumption]).
  destruct (restore_spec m s a) as [a1 [|]]; [|exact G1].
  apply IH; [|exact G1]. intros x Hx. apply Hsub. now right.
Qed.

Lemma well_selected_apply_saved_state : forall m a,
  well_selected m a -> well_selected m (_apply_saved_state_for_current a).
Proof.
  intros m a G. unfold _apply_saved_state_for_current.
  destruct G as (Hm & G'). rewrite Hm.
  assert (G : well_selected m a) by (split; assumption).
  destruct (saved_state a); [|assumption].
  assert (G1 : well_selected m (fst (restore_specs m (categorized_specs m) a)))
    by (apply well_selected_restore_specs; auto).
  destruct (restore_specs m (categorized_specs m) a) as [a1 [|]]; [|exact G1].
  simpl in G1. unfold restore_output.
  destruct (saved_state a1) as [st|]; [|exact G1].
  destruct (jget "output" st) as [[]|]; exact G1.
Qed.

(** ** The layout lists every spec of the command *)

Lemma section_specs_used : forall bd names used specs used',
  section_specs bd names used = (specs, used') ->
  forall p, In p used' -> In p used \/ In p specs.
Proof.
  intros bd names. induction names as [|n names IH]; intros used specs used' H p Hp.
  - injection H as <- <-. now left.
  - simpl in H. destruct (dict_get str_eqb (lit n) bd) as [s|]; [|now apply IH with used'].
    destruct (spec_in s used); [now apply IH with used'|].
    destruct (section_specs bd names (used ++ [s])) as [sp u] eqn:E.
    injection H as <- <-.
    destruct (IH _ _ _ E p Hp) as [H|H].
    + apply in_app_or in H as [H|[<-|[]]]; [now left|right; now left].
    + right. now right.
Qed.

Lemma all_sections_used : forall bd ss used result used',
  all_sections bd ss used = (result, used') ->
  forall p, In p used' -> In p used \/ In p (concat (map snd result)).
Proof.
  intros bd ss. induction ss as [|[title names] ss IH];
    intros used result used' H p Hp.
  - injection H as <- <-. now left.
  - simpl in H.
    destruct (section_specs bd names used) as [specs used1] eqn:E1.
    destruct (all_sections bd ss used1) as [res used2] eqn:E2.
    injection H as <- <-.
    destruct (IH _ _ _ E2 p Hp) as [H|H].
    + destruct (section_specs_used _ _ _ _ _ E1 p H) as [H'|H']; [now left|].
      right. destruct specs as [|o specs]; [contradiction|].
      change (In p ((o :: specs) ++ concat (map snd res))). apply in_or_app. now left.
    + right. destruct (nonempty specs); [|assumption].
      change (In p (specs ++ concat (map snd res))). apply in_or_app. now right.
Qed.

Lemma categorized_all : forall m p,
  In p (arguments m ++ switches m) -> In p (categorized_specs m).
Proof.
  intros m p Hp. unfold categorized_specs, categorize.
  destruct (str_eqb (name m) (lit "run")).
  - destruct (all_sections _ sects []) as [result used] eqn:E.
    destruct (spec_in p used) eqn:U.
    + apply spec_in_In in U.
      destruct (all_sections_used _ _ _ _ _ E p U) as [[]|H].
      destruct (nonempty (filter _ (arguments m ++ switches m)));
        [rewrite map_app, concat_app; apply in_or_app; now left|assumption].
    + assert (F : In p (filter (fun s => negb (spec_in s used)) (arguments m ++ switches m)))
        by (apply filter_In; split; [assumption|now rewrite U]).
      destruct (filter (fun s => negb (spec_in s used)) (arguments m ++ switches m))
        as [|q rem] eqn:R; [contradiction|].
      simpl nonempty. cbv iota. rewrite map_app, concat_app. apply in_or_app. right.
      simpl. now rewrite app_nil_r.
  - simpl. now rewrite app_nil_r.
Qed.

(** ** Building the selector establishes the invariant *)

Lemma build_option_sel_var : forall m a k x,
  sel_var (build_option m a k) x
  = if spec_is x k then Some (spec_in k (arguments m)) else sel_var a x.
Proof.
  intros m a k x. unfold build_option.
  replace ((spec_in k (arguments m) && negb (is_flag k)) || spec_in k (arguments m))
    with (spec_in k (arguments m))
    by (destruct (spec_in k (arguments m)), (is_flag k); reflexivity).
  destruct (spec_in k (arguments m)).
  - rewrite ensure_row_sel_var. apply sel_var_write.
  - apply sel_var_write.
Qed.

Lemma build_option_row_of : forall m a k x,
  row_of (build_option m a k) x
  = match row_of a x with
    | Some r => Some r
    | None => if spec_is x k && spec_in k (arguments m) then Some (new_row k) else None
    end.
Proof.
  intros m a k x. unfold build_option.
  replace ((spec_in k (arguments m) && negb (is_flag k)) || spec_in k (arguments m))
    with (spec_in k (arguments m))
    by (destruct (spec_in k (arguments m)), (is_flag k); reflexivity).
  destruct (spec_in k (arguments m)).
  - rewrite ensure_row_row_of, andb_true_r. reflexivity.
  - rewrite andb_false_r. unfold row_of. simpl. now destruct (dict_get spec_is x (_selected a)).
Qed.

Lemma build_option_meta : forall m a k,
  current_meta (build_option m a k) = current_meta a.
Proof.
  intros m a k. unfold build_option.
  destruct ((spec_in k (arguments m) && negb (is_flag k)) || spec_in k (arguments m));
    [rewrite ensure_row_meta|]; reflexivity.
Qed.

Lemma build_option_built : forall m a k, being_built m a -> being_built m (build_option m a k).
Proof.
  intros m a k (Hm & Hv & Hr).
  split; [now rewrite build_option_meta|]. split.
  - intro x. rewrite build_option_sel_var.
    destruct (spec_is x k) eqn:E; [|apply Hv].
    apply spec_is_eq in E. subst x. now right.
  - intro x. rewrite has_row_row_of, build_option_row_of, build_option_sel_var.
    destruct (spec_is x k) eqn:E.
    + apply spec_is_eq in E. subst x. simpl.
      destruct (row_of a k) eqn:R.
      * assert (S : sel_var a k = Some true) by (apply Hr, has_row_row_of; congruence).
        destruct (Hv k) as [N|N]; [congruence|].
        rewrite S in N. injection N as <-. split; congruence.
      * destruct (spec_in k (arguments m)); split; congruence.
    + simpl. rewrite <- Hr, has_row_row_of.
      destruct (row_of a x); split; congruence.
Qed.

Lemma build_options_built : forall m l a,
  being_built m a -> being_built m (fold_left (build_option m) l a).
Proof.
  intros m l a B. apply fold_left_invariant; [assumption|].
  intros. now apply build_option_built.
Qed.

Lemma build_options_covered : forall m l a x,
  In x l \/ sel_var a x <> None ->
  sel_var (fold_left (build_option m) l a) x <> None.
Proof.
  intros m l. induction l as [|k l IH]; intros a x H; simpl.
  - destruct H; [contradiction|assumption].
  - apply IH. rewrite build_option_sel_var.
    destruct (spec_is x k) eqn:E; [right; discriminate|].
    destruct H as [[->|H]|H]; [rewrite spec_is_refl in E; discriminate|now left|now right].
Qed.

Lemma being_built_well_selected : forall m a,
  being_built m a -> covered m a -> well_selected m a.
Proof.
  intros m a (Hm & Hv & Hr) Hc.
  split; [assumption|]. split; [intros x Hx; now apply Hr|]. split; [assumption|].
  split.
  - intros g G s1 s2 H1 _ G1 _. exfalso.
    destruct (Hv s1) as [N|N]; [congruence|].
    rewrite H1 in N. injection N as N. symmetry in N. apply spec_in_In in N.
    now apply (G s1 N).
  - intros U x Hx.
    assert (S : sel_var a x = Some true).
    { destruct (Hv x) as [N|N].
      - exfalso. apply (Hc x); [|assumption].
        apply categorized_all, in_or_app. now left.
      - rewrite N. f_equal. now apply spec_in_In. }
    split; [assumption|now apply Hr].
Qed.

Lemma well_selected_invariant : forall m a, well_selected m a -> selection_invariant a.
Proof.
  intros m a G. unfold selection_invariant.
  destruct G as (Hm & G). rewrite Hm. split; assumption.
Qed.

Lemma invariant_same : forall a b,
  same_selection a b -> selection_invariant b -> selection_invariant a.
Proof.
  intros a b Hs Hb. unfold selection_invariant in *.
  destruct Hs as (W & S & M). rewrite M.
  destruct (current_meta b) as [m|] eqn:Mb.
  - apply well_selected_same with b; [repeat split; congruence|assumption].
  - destruct Hb. split; congruence.
Qed.

Lemma on_command_change_invariant : forall a, selection_invariant (_on_command_change a).
Proof.
  intro a. unfold _on_command_change.
  set (a0 := match _current_cmd_label a, current_meta a with
             | Some prev_label, Some _ =>
                 if nonempty prev_label then _save_state_for_label prev_label a else a
             | _, _ => a
             end).
  destruct (dict_get str_eqb (cmd_var a0) (cmd_metas a0)) as [m|].
  - apply invariant_same with
      (_apply_saved_state_for_current
         (fold_left (build_option m) (categorized_specs m)
            (_clear_option_frames (set_current_meta (Some m) a0)))).
    + destruct (save_prefs_same
                  (_apply_saved_state_for_current
                     (fold_left (build_option m) (categorized_specs m)
                        (_clear_option_frames (set_current_meta (Some m) a0)))))
        as (W & S & M).
      repeat split; assumption.
    + apply well_selected_invariant with m, well_selected_apply_saved_state, being_built_well_selected.
      * apply build_options_built. split; [reflexivity|].
        split; [intro x; now left|]. intro x. split; discriminate.
      * intros x Hx. apply build_options_covered. now left.
  - split; reflexivity.
Qed.

Lemma apply_saved_state_invariant : forall a,
  selection_invariant a -> selection_invariant (_apply_saved_state_for_current a).
Proof.
  intros a H. unfold selection_invariant in H.
  destruct (current_meta a) as [m|] eqn:M.
  - apply well_selected_invariant with m. now apply well_selected_apply_saved_state.
  - unfold _apply_saved_state_for_current. rewrite M.
    unfold selection_invariant. now rewrite M.
Qed.

Lemma load_prefs_same : forall a, same_selection (_load_prefs a) a.
Proof.
  intro a. unfold _load_prefs.
  destruct (prefs_file a) as [| |data]; try (repeat split; reflexivity).
  set (d := match data with JObj d => d | _ => [] end).
  assert (step : forall (A : Type) (x : option A) (f : A -> App -> App) b,
             (forall v c, same_selection (f v c) c) ->
             same_selection b a -> same_selection (set_if x f b) a).
  { intros A x f b Hf Hb. destruct x as [v|]; simpl; [|assumption].
    eapply same_selection_trans; [apply Hf|assumption]. }
  repeat (apply step;
          [intros v c; unfold cwd_var_set, db_var_set, linkly_var_set,
                              detail_var_set, quiet_var_set, debug_var_set;
           eapply same_selection_trans; [apply save_prefs_same|repeat split]|]).
  repeat split.
Qed.

Lemma startup_invariant : forall metas file a,
  startup metas file = Some a -> selection_invariant a.
Proof.
  intros metas file a. unfold startup.
  set (a0 := _load_prefs (new_app metas file)).
  assert (I0 : selection_invariant a0).
  { apply invariant_same with (new_app metas file); [apply load_prefs_same|].
    split; reflexivity. }
  assert (fin : forall b, selection_invariant b ->
                          selection_invariant (_save_prefs (set_suspend_save false b))).
  { intros b Hb. eapply invariant_same; [|exact Hb].
    eapply same_selection_trans; [apply save_prefs_same|repeat split]. }
  assert (go : forall c,
             selection_invariant
               (_save_prefs (set_suspend_save false
                  (_apply_saved_state_for_current
                     (_on_command_change (set_cmd_var c a0)))))).
  { intro c. apply fin, apply_saved_state_invariant, on_command_change_invariant. }
  destruct (sorted (map fst metas)) as [|first rest].
  - intro H. injection H as <-. now apply fin.
  - destruct (_restore_cmd a0); try (intro H; injection H as <-; apply go);
      try discriminate.
    destruct (dict_mem str_eqb s metas); intro H; injection H as <-; apply go.
Qed.

Lemma reset_defaults_invariant : forall a,
  selection_invariant a -> selection_invariant (_reset_defaults a).
Proof.
  intros a H. unfold _reset_defaults.
  set (b := debug_var_set 0 _).
  assert (E : same_selection b a).
  { unfold b, cwd_var_set, db_var_set, linkly_var_set,
           detail_var_set, quiet_var_set, debug_var_set. peel_same. }
  eapply invariant_same; [apply save_prefs_same|].
  destruct (sorted (map fst (cmd_metas b))) as [|first rest];
    [now apply invariant_same with a|apply on_command_change_invariant].
Qed.

Lemma swap_from_to_dest_invariant : forall dest a,
  selection_invariant a -> selection_invariant (_swap_from_to_dest dest a).
Proof.
  intros dest a H. unfold _swap_from_to_dest.
  set (shown := if match current_meta a with
                   | Some m => str_eqb (name m) (lit "run")
                   | None => false
                   end
                then Some a
                else if dict_mem str_eqb (lit "run") (cmd_metas a)
                     then Some (_on_command_change (set_cmd_var (lit "run") a))
                     else None).
  assert (I : forall a1, shown = Some a1 -> selection_invariant a1).
  { intros a1. unfold shown.
    destruct (match current_meta a with
              | Some m => str_eqb (name m) (lit "run")
              | None => false
              end); [intro E; injection E as <-; exact H|].
    destruct (dict_mem str_eqb (lit "run") (cmd_metas a)); [|discriminate].
    intro E. injection E as <-. apply on_command_change_invariant. }
  destruct shown as [a1|]; [|exact H].
  specialize (I a1 eq_refl). unfold selection_invariant in I.
  destruct (current_meta a1) as [m|] eqn:M.
  - destruct (find is_from_spec (arguments m ++ switches m)) as [spec|];
      [|apply well_selected_invariant with m; exact I].
    eapply invariant_same; [apply save_prefs_same|].
    apply well_selected_invariant with m.
    assert (G2 : well_selected m match sel_var a1 spec with
                        | Some false => _ensure_selected_row spec (sel_var_set spec true a1)
                        | _ => a1
                        end).
    { destruct (sel_var a1 spec) as [[|]|]; try exact I.
      apply well_selected_ensure; [now apply well_selected_select|apply sel_var_set_true_self]. }
    destruct (row_of _ spec) as [[f|v]|]; try exact G2.
    now apply well_selected_row_value_set.
  - unfold selection_invariant. now rewrite M.
Qed.

Lemma handle_invariant : forall a e,
  selection_invariant a -> selection_invariant (handle a e).
Proof.
  intros a e H.
  assert (saved : forall b, same_selection b a -> selection_invariant (_save_prefs b)).
  { intros b Hb. apply invariant_same with a; [|assumption].
    eapply same_selection_trans; [apply save_prefs_same|assumption]. }
  destruct e as [s|s v|s|n|v|v|v|z|z|z|out|dest|]; simpl;
    try (apply saved; repeat split; fail);
    try (now apply swap_from_to_dest_invariant);
    try (now apply reset_defaults_invariant).
  - (* a checkbox of the selector *)
    destruct (sel_var a s) as [b|] eqn:S; [|assumption].
    destruct (is_required a s) eqn:R; [assumption|].
    unfold selection_invariant in H. unfold is_required in R.
    destruct (current_meta a) as [m|] eqn:M.
    + apply well_selected_invariant with m. destruct b; simpl.
      * apply well_selected_unselect; [assumption|].
        intro I. apply spec_in_In in I. congruence.
      * now apply well_selected_select.
    + destruct H as [W _]. unfold sel_var in S. rewrite W in S. discriminate.
  - (* the entry of a row *)
    unfold selection_invariant in H.
    destruct (current_meta a) as [m|] eqn:M.
    + apply well_selected_invariant with m. now apply well_selected_row_value_set.
    + destruct H as [W R]. unfold row_value_set, row_of. rewrite R. simpl.
      unfold selection_invariant. rewrite M. split; assumption.
  - (* the checkbox of a flag row *)
    destruct (row_of a s) as [[b|w]|] eqn:R; try assumption.
    unfold selection_invariant in H.
    destruct (current_meta a) as [m|] eqn:M.
    + apply well_selected_invariant with m. now apply well_selected_row_flag_set.
    + destruct H as [_ E]. unfold row_of in R. rewrite E in R. discriminate.
  - (* the command box *)
    destruct (dict_mem str_eqb n (cmd_metas a)); [|assumption].
    apply on_command_change_invariant.
Qed.

Lemma reachable_invariant : forall a, reachable a -> selection_invariant a.
Proof.
  intros a R. induction R as [metas file a H|a e R IH].
  - now apply startup_invariant with metas file.
  - now apply handle_invariant.
Qed.

Lemma run_events_reachable : forall es a, reachable a -> reachable (run_events a es).
Proof.
  unfold run_events. induction es as [|e es IH]; intros a R; simpl; [assumption|].
  apply IH. now apply reach_handle.
Qed.

Lemma session_reachable : forall file es,
  startup catalogue file <> None -> reachable (session file es).
Proof.
  intros file es H. unfold session.
  destruct (startup catalogue file) as [a|] eqn:E; [|contradiction].
  apply run_events_reachable. now apply reach_startup with catalogue file.
Qed.

Lemma reachable_synced : forall a, reachable a -> synced a.
Proof.
  intros a R. apply reachable_invariant in R. unfold selection_invariant in R.
  destruct (current_meta a) as [m|].
  - now destruct R as (_ & S & _).
  - destruct R as [_ E]. intros x Hx. unfold has_row in Hx. rewrite E in Hx. discriminate.
Qed.

(* ================================================================== *)
(** * The selection state *)

(** C3 (as amended).  In every state of a session each spec that has a
    value (a row of the editor) is selected; and the positionals, far from
    being kept out, are in both: while a command is shown whose required
    arguments are in no mutual-exclusion group, each of them is selected
    and has its value. *)
Theorem values_are_selected : forall a : App,
  reachable a ->
  synced a
  /\ forall m, current_meta a = Some m -> ungrouped_arguments m -> required_on m a.
Proof.
  intros a R. split; [now apply reachable_synced|].
  intros m M U. apply reachable_invariant in R. unfold selection_invariant in R.
  rewrite M in R. destruct R as (_ & _ & _ & _ & G). now apply G.
Qed.

Lemma values_are_selected_witness :
  reachable (session NoFile [ChooseCommand (lit "local"); ClickOption ly_spec])
  /\ sel_var (session NoFile [ChooseCommand (lit "local"); ClickOption ly_spec]) ly_spec
     = Some true
  /\ sel_var (session NoFile [ChooseCommand (lit "local"); ClickOption ly_spec]) near_spec
     = Some true
  /\ has_row (session NoFile [ChooseCommand (lit "local"); ClickOption ly_spec]) near_spec
     = true.
Proof.
  assert (R : reachable (session NoFile [ChooseCommand (lit "local"); ClickOption ly_spec]))
    by (apply session_reachable; vm_compute; discriminate).
  split; [exact R|].
  destruct (values_are_selected _ R) as [S P].
  split; [apply S; vm_compute; reflexivity|].
  apply (P local_meta); [vm_compute; reflexivity| |now left].
  intros s [<-|[]]. reflexivity.
Defined.

(** C3 as it is worded fails in its second half: a positional is selected
    and has a value as soon as its command is shown. *)
Lemma positional_in_both_counterexample :
  reachable (session NoFile [ChooseCommand (lit "local")])
  /\ In near_spec (arguments local_meta)
  /\ is_positional near_spec = true
  /\ sel_var (session NoFile [ChooseCommand (lit "local")]) near_spec = Some true
  /\ row_of (session NoFile [ChooseCommand (lit "local")]) near_spec = Some (RowValue []).
Proof.
  split; [apply session_reachable; vm_compute; discriminate|].
  split; [now left|].
  repeat split; vm_compute; reflexivity.
Qed.




Example select_second_member :
  let a := session NoFile [ChooseCommand (lit "market"); ClickOption buy_spec;
                           ClickOption sell_spec] in
  map (fun sw => (display_name (fst sw), snd sw)) (widget_vars a)
  = [(lit "origin", true); (lit "--buy", false); (lit "--sell", true)]
  /\ map (fun sw => display_name (fst sw)) (_selected a) = [lit "origin"; lit "--sell"].
Proof. vm_compute. split; reflexivity. Qed.

(** C10.  Unticking a selected spec takes its row and value away and
    unchecks its variable, and changes nothing else: the variables and
    rows of all other specs, members of its group included, are as
    before, in the same order. *)
Theorem unselect_changes_one : forall (a : App) (s : OptionSpec),
  sel_var a s = Some true ->
  is_required a s = false ->
  widget_vars (handle a (ClickOption s)) = dict_set spec_is s false (widget_vars a)
  /\ _selected (handle a (ClickOption s)) = dict_pop spec_is s (_selected a)
  /\ sel_var (handle a (ClickOption s)) s = Some false
  /\ row_of (handle a (ClickOption s)) s = None
  /\ forall x, x <> s ->
               sel_var (handle a (ClickOption s)) x = sel_var a x
               /\ row_of (handle a (ClickOption s)) x = row_of a x.
Proof.
  intros a s S R. simpl. rewrite S, R. simpl.
  destruct (sel_var_set_false_unfold s a) as (W & Sel & _).
  split; [rewrite W, remove_row_widget_vars; reflexivity|].
  split; [rewrite Sel, remove_row_selected; reflexivity|].
  split; [rewrite sel_var_set_false_sel_var, spec_is_refl; reflexivity|].
  split; [rewrite sel_var_set_false_row_of, spec_is_refl; reflexivity|].
  intros x Hne.
  rewrite sel_var_set_false_sel_var, sel_var_set_false_row_of, (spec_is_neq x s Hne).
  split; reflexivity.
Qed.

Lemma unselect_changes_one_witness :
  sel_var (session NoFile [ChooseCommand (lit "market"); ClickOption buy_spec]) buy_spec
  = Some true
  /\ is_required (session NoFile [ChooseCommand (lit "market"); ClickOption buy_spec])
                 buy_spec = false
  /\ _selected (handle (session NoFile [ChooseCommand (lit "market"); ClickOption buy_spec])
                       (ClickOption buy_spec))
     = [(origin_spec, RowValue [])].
Proof.
  split; [vm_compute; reflexivity|]. split; [vm_compute; reflexivity|].
  rewrite (proj1 (proj2 (unselect_changes_one
             (session NoFile [ChooseCommand (lit "market"); ClickOption buy_spec])
             buy_spec ltac:(vm_compute; reflexivity) ltac:(vm_compute; reflexivity)))).
  vm_compute. reflexivity.
Defined.

(* ================================================================== *)
(** * Saving merges into the document *)

Lemma jget_jset_same : forall k v d, jget k (jset k v d) = Some v.
Proof. intros. apply dict_get_set_same, str_eqb_eq. Qed.

Lemma save_cmd_state_other : forall label rs out c y,
  label <> y ->
  dict_get str_eqb y (fst (save_cmd_state label rs out c)) = dict_get str_eqb y c.
Proof.
  intros label rs out c y Hne.
  assert (set_other : forall v, dict_get str_eqb y (dict_set str_eqb label v c)
                                = dict_get str_eqb y c)
    by (intro v; apply dict_get_set_other; [apply str_eqb_eq|congruence]).
  assert (with_state : forall st,
    dict_get str_eqb y
      (fst (match jget "options" st with
            | None =>
                let '(o, ok) := save_records rs [] in
                (dict_set str_eqb label
                   (JObj (if ok : bool
                          then jset "output" (JStr out) (jset "options" (JObj o) st)
                          else jset "options" (JObj o) st)) c, ok)
            | Some (JObj o0) =>
                let '(o, ok) := save_records rs o0 in
                (dict_set str_eqb label
                   (JObj (if ok : bool
                          then jset "output" (JStr out) (jset "options" (JObj o) st)
                          else jset "options" (JObj o) st)) c, ok)
            | Some _ =>
                match rs with
                | [] => (dict_set str_eqb label (JObj (jset "output" (JStr out) st)) c, true)
                | _ :: _ => (c, false)
                end
            end)) = dict_get str_eqb y c).
  { intro st. destruct (jget "options" st) as [[]|];
      try (destruct rs; simpl; [apply set_other|reflexivity]);
      destruct (save_records rs _) as [o ok]; simpl; apply set_other. }
  unfold save_cmd_state.
  destruct (dict_get str_eqb label c) as [[]|]; try reflexivity; apply with_state.
Qed.

Lemma save_commands_other : forall label rs out d y,
  label <> y ->
  command_entry y (fst (save_commands label rs out d)) = command_entry y d.
Proof.
  intros label rs out d y Hne. unfold save_commands, command_entry.
  destruct (jget "commands" d) as [[]|] eqn:C; simpl; rewrite ?C; try reflexivity.
  - pose proof (save_cmd_state_other label rs out d0 y Hne) as H.
    destruct (save_cmd_state label rs out d0) as [c ok]. simpl in *.
    now rewrite jget_jset_same.
  - pose proof (save_cmd_state_other label rs out [] y Hne) as H.
    destruct (save_cmd_state label rs out []) as [c ok]. simpl in *.
    now rewrite jget_jset_same.
Qed.

Lemma globals_update_commands : forall a d,
  jget "commands" (dict_update str_eqb (globals_update a) d) = jget "commands" d.
Proof.
  intros a d. unfold dict_update, globals_update, jget. simpl.
  repeat (rewrite dict_get_set_other; [|apply str_eqb_eq|discriminate]).
  reflexivity.
Qed.

Lemma globals_update_entry : forall a d y,
  command_entry y (dict_update str_eqb (globals_update a) d) = command_entry y d.
Proof. intros. unfold command_entry. now rewrite globals_update_commands. Qed.

Lemma commit_file_entry : forall d a y,
  file_entry y (prefs_file (commit d a)) = command_entry y d.
Proof. reflexivity. Qed.

Lemma commit_prefs : forall d a, _prefs (commit d a) = d.
Proof. reflexivity. Qed.

Lemma save_prefs_other : forall a y,
  cmd_var a <> y ->
  file_entry y (prefs_file a) = command_entry y (_prefs a) ->
  file_entry y (prefs_file (_save_prefs a)) = file_entry y (prefs_file a)
  /\ command_entry y (_prefs (_save_prefs a)) = command_entry y (_prefs a).
Proof.
  intros a y Hne Agree. unfold _save_prefs.
  destruct (_suspend_save a); [now split|].
  destruct (current_meta a) as [m|].
  - pose proof (save_commands_other (cmd_var a) (option_records a m) (output_get a)
                  (dict_update str_eqb (globals_update a) (_prefs a)) y Hne) as H.
    rewrite globals_update_entry in H.
    destruct (save_commands (cmd_var a) (option_records a m) (output_get a)
                (dict_update str_eqb (globals_update a) (_prefs a))) as [data' [|]].
    + rewrite commit_file_entry, commit_prefs. simpl in H. split; congruence.
    + split; [reflexivity|].
      change (_prefs (set_prefs ?p a)) with p. now apply save_commands_other.
  - rewrite commit_file_entry, commit_prefs, globals_update_entry. split; congruence.
Qed.

Lemma save_state_other : forall a label y,
  label <> y ->
  file_entry y (prefs_file a) = command_entry y (_prefs a) ->
  file_entry y (prefs_file (_save_state_for_label label a)) = file_entry y (prefs_file a)
  /\ command_entry y (_prefs (_save_state_for_label label a)) = command_entry y (_prefs a).
Proof.
  intros a label y Hne Agree. unfold _save_state_for_label.
  destruct (_suspend_save a); [now split|].
  destruct (negb (nonempty label)); [now split|].
  destruct (current_meta a) as [m|]; [|now split].
  pose proof (save_commands_other label (option_records a m) (output_get a)
                (_prefs a) y Hne) as H.
  destruct (save_commands label (option_records a m) (output_get a) (_prefs a))
    as [data' [|]]; simpl in H.
  - rewrite commit_file_entry, commit_prefs. split; congruence.
  - split; [reflexivity|exact H].
Qed.

(** C6.  With the file and the raw document in memory agreeing on the
    entry of a command Y (as they do once the file is loaded), saving the
    state of another command, be it the one shown ([_save_prefs]) or the
    one a label names ([_save_state_for_label]), leaves the entry of Y as
    it was, in the file and in the raw document: the save merges into the
    document it loaded. *)
Theorem save_keeps_other_commands : forall (a : App) (label y : str),
  cmd_var a <> y ->
  label <> y ->
  file_entry y (prefs_file a) = command_entry y (_prefs a) ->
  file_entry y (prefs_file (_save_prefs a)) = file_entry y (prefs_file a)
  /\ command_entry y (_prefs (_save_prefs a)) = command_entry y (_prefs a)
  /\ file_entry y (prefs_file (_save_state_for_label label a)) = file_entry y (prefs_file a)
  /\ command_entry y (_prefs (_save_state_for_label label a)) = command_entry y (_prefs a).
Proof.
  intros a label y Hx Hl Agree.
  destruct (save_prefs_other a y Hx Agree).
  destruct (save_state_other a label y Hl Agree).
  repeat split; assumption.
Qed.

Lemma save_keeps_other_commands_witness :
  cmd_var (session market_file [ChooseCommand (lit "local"); ClickOption ly_spec])
  <> lit "market"
  /\ file_entry (lit "market")
       (prefs_file (_save_prefs
          (session market_file [ChooseCommand (lit "local"); ClickOption ly_spec])))
     = file_entry (lit "market") market_file
  /\ file_entry (lit "local")
       (prefs_file (_save_prefs
          (session market_file [ChooseCommand (lit "local"); ClickOption ly_spec])))
     <> None.
Proof.
  assert (N : cmd_var (session market_file [ChooseCommand (lit "local"); ClickOption ly_spec])
              <> lit "market") by (vm_compute; discriminate).
  split; [exact N|]. split.
  - rewrite (proj1 (save_keeps_other_commands
                      (session market_file [ChooseCommand (lit "local"); ClickOption ly_spec])
                      (lit "local") (lit "market") N
                      ltac:(vm_compute; discriminate) ltac:(vm_compute; reflexivity))).
    vm_compute. reflexivity.
  - vm_compute. discriminate.
Defined.

(* ================================================================== *)
(** * The counters *)

Lemma save_prefs_counters : forall a,
  detail_var (_save_prefs a) = detail_var a
  /\ quiet_var (_save_prefs a) = quiet_var a
  /\ debug_var (_save_prefs a) = debug_var a.
Proof.
  intro a. destruct (save_prefs_frame a) as (p & f & ->). repeat split.
Qed.

Lemma load_prefs_counters : forall a d zv zq zw,
  prefs_file a = Stored (JObj d) ->
  jget "detail" d = Some (JInt zv) ->
  jget "quiet" d = Some (JInt zq) ->
  jget "debug" d = Some (JInt zw) ->
  detail_var (_load_prefs a) = zv
  /\ quiet_var (_load_prefs a) = zq
  /\ debug_var (_load_prefs a) = zw.
Proof.
  intros a d zv zq zw F V Q W. unfold _load_prefs. rewrite F, V, Q, W. simpl.
  unfold detail_var_set, quiet_var_set, debug_var_set.
  set (b := set_if (as_str (jget "linkly" d)) linkly_var_set _).
  destruct (save_prefs_counters (set_detail_var zv b)) as (D1 & _ & _).
  destruct (save_prefs_counters (set_quiet_var zq (_save_prefs (set_detail_var zv b))))
    as (D2 & Q2 & _).
  destruct (save_prefs_counters
              (set_debug_var zw
                 (_save_prefs (set_quiet_var zq (_save_prefs (set_detail_var zv b))))))
    as (D3 & Q3 & W3).
  rewrite D3, Q3, W3. simpl. rewrite D2, Q2. simpl. rewrite D1. simpl.
  repeat split.
Qed.

(** C2.  The counters are not kept within 0..5 when the preferences file
    is restored (the spin boxes that hold them are declared from 0 to 5):
    [_load_prefs] takes whatever integers the file stores under detail,
    quiet and debug; started on a file that stores 9, -2 and 6 the
    program holds these counters and builds nine verbosity tokens and six
    debug tokens. *)
Theorem counters_restored_out_of_range :
  (forall zv zq zw : Z,
     detail_var (_load_prefs (new_app catalogue (counters_file zv zq zw))) = zv
     /\ quiet_var (_load_prefs (new_app catalogue (counters_file zv zq zw))) = zq
     /\ debug_var (_load_prefs (new_app catalogue (counters_file zv zq zw))) = zw)
  /\ loud_file = counters_file 9 (-2) 6
  /\ reachable (session loud_file [])
  /\ detail_var (session loud_file []) = 9%Z
  /\ quiet_var (session loud_file []) = (-2)%Z
  /\ debug_var (session loud_file []) = 6%Z
  /\ _build_args (session loud_file [])
     = map lit ["import"; "-P"; "eddblink"; "-O"; "clean,all,skipvend,force"]%string
       ++ repeat (lit "-v") 9 ++ repeat (lit "-w") 6.
Proof.
  split.
  { intros zv zq zw.
    now apply load_prefs_counters
      with [ (lit "detail", JInt zv); (lit "quiet", JInt zq); (lit "debug", JInt zw) ]. }
  split; [reflexivity|].
  split; [apply session_reachable; vm_compute; discriminate|].
  repeat split; vm_compute; reflexivity.
Qed.

(* ================================================================== *)
(** * Saving and restoring the state of a command *)

(** C5: the state of a command comes back when the program starts on it,
    but not when the user changes to it.  The file written after the visit
    holds both switches of [local] as selected, with their values; a
    program started on the file that ends on [local] shows them again
    (with one more line feed at the end of the output); a program started
    on the file that went on to [market] and then changed to [local] shows
    neither switch selected: the first write of a checkbox variable runs
    [_save_prefs], which overwrites the entries still to be read. *)
Theorem state_lost_on_command_change :
  file_entry (lit "local") file_on_market
  = Some (JObj
      [ (lit "options",
         JObj [ (lit "near", JObj [(lit "selected", JBool true); (lit "value", JStr [])]);
                (lit "maxLyPer",
                 JObj [(lit "selected", JBool true); (lit "value", JStr (lit "12"))]);
                (lit "--avoid",
                 JObj [(lit "selected", JBool true); (lit "value", JStr (lit "Sol"))]) ]);
        (lit "output", JStr (lit "ok" ++ nl)) ])
  /\ file_entry (lit "local") file_on_local = file_entry (lit "local") file_on_market
  /\ shown_rows (session NoFile visit_local)
     = [ (lit "near", RowValue []); (lit "--ly", RowValue (lit "12"));
         (lit "--avoid", RowValue (lit "Sol")) ]
  /\ output (session NoFile visit_local) = lit "ok"
  /\ shown_rows (session file_on_local [])
     = [ (lit "near", RowValue []); (lit "--ly", RowValue (lit "12"));
         (lit "--avoid", RowValue (lit "Sol")) ]
  /\ output (session file_on_local []) = lit "ok" ++ nl
  /\ shown_vars (session file_on_market [ChooseCommand (lit "local")])
     = [ (lit "near", true); (lit "--ly", false); (lit "--avoid", false) ]
  /\ shown_rows (session file_on_market [ChooseCommand (lit "local")])
     = [ (lit "near", RowValue []) ]
  /\ output (session file_on_market [ChooseCommand (lit "local")]) = lit "ok" ++ nl ++ nl.
Proof. vm_compute. repeat split; reflexivity. Qed.

(* ================================================================== *)
(** * A command that is not visited keeps its entry *)

Lemma keeps_refl : forall y a, keeps y a a.
Proof. intros y a. repeat split; assumption. Qed.

Lemma keeps_trans : forall y a b c, keeps y a b -> keeps y b c -> keeps y a c.
Proof.
  intros y a b c (C1 & L1 & K1) (C2 & L2 & K2).
  split; [congruence|]. split; [congruence|].
  intros Hne Ha. destruct (K1 Hne Ha) as [Hb Fb].
  rewrite <- C1 in Hne. destruct (K2 Hne Hb) as [Hc Fc].
  split; [assumption|congruence].
Qed.

Lemma keeps_save_prefs : forall y a, keeps y a (_save_prefs a).
Proof.
  intros y a.
  split; [destruct (save_prefs_frame a) as (p & f & ->); reflexivity|].
  split; [destruct (save_prefs_frame a) as (p & f & ->); reflexivity|].
  intros Hne Ha. destruct (save_prefs_other a y Hne Ha) as [F P].
  split; [unfold agree in *; congruence|assumption].
Qed.

Lemma keeps_set_widget_vars : forall y x a, keeps y a (set_widget_vars x a).
Proof. intros. repeat split; assumption. Qed.
Lemma keeps_set_selected : forall y x a, keeps y a (set_selected x a).
Proof. intros. repeat split; assumption. Qed.
Lemma keeps_set_output : forall y x a, keeps y a (set_output x a).
Proof. intros. repeat split; assumption. Qed.
Lemma keeps_set_cwd_var : forall y x a, keeps y a (set_cwd_var x a).
Proof. intros. repeat split; assumption. Qed.
Lemma keeps_set_db_var : forall y x a, keeps y a (set_db_var x a).
Proof. intros. repeat split; assumption. Qed.
Lemma keeps_set_linkly_var : forall y x a, keeps y a (set_linkly_var x a).
Proof. intros. repeat split; assumption. Qed.
Lemma keeps_set_detail_var : forall y x a, keeps y a (set_detail_var x a).
Proof. intros. repeat split; assumption. Qed.
Lemma keeps_set_quiet_var : forall y x a, keeps y a (set_quiet_var x a).
Proof. intros. repeat split; assumption. Qed.
Lemma keeps_set_debug_var : forall y x a, keeps y a (set_debug_var x a).
Proof. intros. repeat split; assumption. Qed.
Lemma keeps_set_current_meta : forall y x a, keeps y a (set_current_meta x a).
Proof. intros. repeat split; assumption. Qed.
Lemma keeps_set_suspend_save : forall y x a, keeps y a (set_suspend_save x a).
Proof. intros. repeat split; assumption. Qed.
Lemma keeps_set_restore_cmd : forall y x a, keeps y a (set_restore_cmd x a).
Proof. intros. repeat split; assumption. Qed.

Create HintDb entries.
#[local] Hint Resolve keeps_refl keeps_save_prefs keeps_set_widget_vars
  keeps_set_selected keeps_set_output keeps_set_cwd_var keeps_set_db_var
  keeps_set_linkly_var keeps_set_detail_var keeps_set_quiet_var keeps_set_debug_var
  keeps_set_current_meta keeps_set_suspend_save keeps_set_restore_cmd : entries.

(** Peels the steps already known to keep the entry off a state. *)
Ltac peel_keeps :=
  repeat first
    [ solve [auto with entries]
    | eapply keeps_trans; [|solve [auto with entries]] ].

Lemma keeps_remove_row : forall y s a, keeps y a (_remove_selected_row s a).
Proof.
  intros y s a. unfold _remove_selected_row. destruct (row_of a s); peel_keeps.
Qed.

Lemma keeps_ensure_row : forall y s a, keeps y a (_ensure_selected_row s a).
Proof.
  intros y s a. unfold _ensure_selected_row.
  destruct (dict_mem spec_is s (_selected a)); peel_keeps.
Qed.

#[local] Hint Resolve keeps_remove_row keeps_ensure_row : entries.

Lemma keeps_clear : forall y o a, keeps y a (sel_var_clear o a).
Proof. intros y o a. unfold sel_var_clear. peel_keeps. Qed.

Lemma keeps_unselect_group : forall y s a, keeps y a (unselect_group s a).
Proof.
  intros y s a. unfold unselect_group.
  apply fold_left_invariant with (P := keeps y a); [apply keeps_refl|].
  intros b o Hb. eapply keeps_trans; [exact Hb|].
  destruct (unselect_other_cases s b o) as [->|(_ & _ & _ & ->)];
    [apply keeps_refl|apply keeps_clear].
Qed.

#[local] Hint Resolve keeps_clear keeps_unselect_group : entries.

Lemma keeps_toggle : forall y s b a, keeps y a (_on_toggle_option s b a).
Proof.
  intros y s b a. unfold _on_toggle_option.
  destruct (b && match group_id s with Some _ => true | None => false end);
    destruct b; peel_keeps.
Qed.

#[local] Hint Resolve keeps_toggle : entries.

Lemma keeps_sel_var_set : forall y s b a, keeps y a (sel_var_set s b a).
Proof. intros y s b a. unfold sel_var_set. peel_keeps. Qed.

Lemma keeps_row_flag_set : forall y s b a, keeps y a (row_flag_set s b a).
Proof.
  intros y s b a. unfold row_flag_set. destruct (row_of a s) as [[]|]; peel_keeps.
Qed.

Lemma keeps_row_value_set : forall y s v a, keeps y a (row_value_set s v a).
Proof.
  intros y s v a. unfold row_value_set. destruct (row_of a s) as [[]|]; peel_keeps.
Qed.

#[local] Hint Resolve keeps_sel_var_set keeps_row_flag_set keeps_row_value_set : entries.

Lemma keeps_restore_row : forall y s a, keeps y a (fst (restore_row s a)).
Proof.
  intros y s a. unfold restore_row.
  destruct (saved_option a s) as [[opt|]|]; try apply keeps_refl.
  destruct (is_flag s).
  - destruct opt; simpl; peel_keeps.
  - destruct opt; simpl; try apply keeps_refl.
    destruct (jget "value" d); simpl; peel_keeps.
Qed.

Lemma keeps_restore_spec : forall y m s a, keeps y a (fst (restore_spec m s a)).
Proof.
  intros y m s a. unfold restore_spec.
  destruct (saved_option a s) as [[opt|]|]; try apply keeps_refl.
  destruct (negb (truthy opt)); [apply keeps_refl|].
  assert (K : forall b, keeps y a match sel_var a s with
                                  | Some _ => sel_var_set s b a
                                  | None => a
                                  end)
    by (intro b; destruct (sel_var a s); peel_keeps).
  assert (T : forall b0,
            keeps y a (fst (restore_row s (_ensure_selected_row s
                                 match sel_var a s with
                                 | Some _ => sel_var_set s b0 a
                                 | None => a
                                 end)))).
  { intro b0. eapply keeps_trans; [|apply keeps_restore_row].
    eapply keeps_trans; [apply K|apply keeps_ensure_row]. }
  destruct (spec_in s (arguments m)); [apply T|].
  destruct opt; try apply keeps_refl.
  destruct (truthy (jget_default "selected" (JBool false) d)); [apply T|apply K].
Qed.

Lemma keeps_restore_specs : forall y m specs a,
  keeps y a (fst (restore_specs m specs a)).
Proof.
  intros y m specs. induction specs as [|s specs IH]; intro a; [apply keeps_refl|].
  simpl. pose proof (keeps_restore_spec y m s a) as K.
  destruct (restore_spec m s a) as [a1 [|]]; [|exact K].
  eapply keeps_trans; [exact K|apply IH].
Qed.

Lemma keeps_apply_saved_state : forall y a,
  keeps y a (_apply_saved_state_for_current a).
Proof.
  intros y a. unfold _apply_saved_state_for_current.
  destruct (current_meta a) as [m|]; [|apply keeps_refl].
  destruct (saved_state a); [|apply keeps_refl].
  pose proof (keeps_restore_specs y m (categorized_specs m) a) as K.
  destruct (restore_specs m (categorized_specs m) a) as [a1 [|]]; [|exact K].
  eapply keeps_trans; [exact K|]. unfold restore_output.
  destruct (saved_state a1) as [st|]; [|apply keeps_refl].
  destruct (jget "output" st) as [[]|]; peel_keeps.
Qed.

Lemma keeps_build_options : forall y m l a,
  keeps y a (fold_left (build_option m) l a).
Proof.
  intros y m l a.
  apply fold_left_invariant with (P := keeps y a); [apply keeps_refl|].
  intros b s Hb. eapply keeps_trans; [exact Hb|]. unfold build_option.
  destruct ((spec_in s (arguments m) && negb (is_flag s)) || spec_in s (arguments m));
    peel_keeps.
Qed.

#[local] Hint Resolve keeps_apply_saved_state keeps_build_options : entries.

(** Changing to a command other than [y], away from a command other than
    [y]. *)
Lemma on_command_change_keeps : forall y a,
  away_from y a -> agree y a ->
  away_from y (_on_command_change a)
  /\ agree y (_on_command_change a)
  /\ file_entry y (prefs_file (_on_command_change a)) = file_entry y (prefs_file a).
Proof.
  intros y a [Hc Hl] Ha. unfold _on_command_change.
  set (a0 := match _current_cmd_label a, current_meta a with
             | Some prev_label, Some _ =>
                 if nonempty prev_label then _save_state_for_label prev_label a else a
             | _, _ => a
             end).
  assert (K0 : cmd_var a0 = cmd_var a /\ _current_cmd_label a0 = _current_cmd_label a
               /\ agree y a0
               /\ file_entry y (prefs_file a0) = file_entry y (prefs_file a)).
  { unfold a0. destruct (_current_cmd_label a) as [prev|] eqn:L; [|now repeat split].
    destruct (current_meta a); [|now repeat split].
    destruct (nonempty prev); [|now repeat split].
    assert (Hp : prev <> y) by congruence.
    destruct (save_state_other a prev y Hp Ha) as [F P].
    split; [destruct (save_state_frame prev a) as (p & f & ->); reflexivity|].
    split; [destruct (save_state_frame prev a) as (p & f & ->); exact L|].
    split; [unfold agree in *; congruence|assumption]. }
  destruct K0 as (C0 & L0 & A0 & F0).
  assert (Hc0 : cmd_var a0 <> y) by congruence.
  destruct (dict_get str_eqb (cmd_var a0) (cmd_metas a0)) as [m|].
  - assert (K : keeps y a0
                  (_save_prefs
                     (_apply_saved_state_for_current
                        (fold_left (build_option m) (categorized_specs m)
                           (_clear_option_frames (set_current_meta (Some m) a0))))))
      by (unfold _clear_option_frames; peel_keeps).
    destruct K as (C & _ & K). destruct (K Hc0 A0) as [A F].
    split; [split; simpl; [congruence|intro E; injection E as E; congruence]|].
    split; [exact A|]. simpl. congruence.
  - split; [split; simpl; [congruence|now rewrite L0]|].
    split; [exact A0|exact F0].
Qed.

Lemma handle_keeps : forall y a e,
  leaves_alone y e -> away_from y a -> agree y a ->
  away_from y (handle a e)
  /\ agree y (handle a e)
  /\ file_entry y (prefs_file (handle a e)) = file_entry y (prefs_file a).
Proof.
  intros y a e He [Hc Hl] Ha.
  assert (from_keeps : forall a', keeps y a a' ->
            away_from y a' /\ agree y a'
            /\ file_entry y (prefs_file a') = file_entry y (prefs_file a)).
  { intros a' (C & L & K). destruct (K Hc Ha) as [A F].
    split; [split; congruence|]. split; assumption. }
  destruct e as [s|s v|s|n|v|v|v|z|z|z|out|dest|]; simpl in *;
    try (apply from_keeps;
         unfold cwd_var_set, db_var_set, linkly_var_set,
                detail_var_set, quiet_var_set, debug_var_set; peel_keeps; fail).
  - destruct (sel_var a s); [|now apply from_keeps, keeps_refl].
    destruct (is_required a s); apply from_keeps; peel_keeps.
  - destruct (row_of a s) as [[]|]; apply from_keeps; peel_keeps.
  - destruct (dict_mem str_eqb n (cmd_metas a)); [|now apply from_keeps, keeps_refl].
    destruct (on_command_change_keeps y (set_cmd_var n a)) as (W & A & F);
      [split; [exact He|exact Hl]|exact Ha|].
    split; [exact W|]. split; [exact A|exact F].
  - (* the button of a route card *)
    unfold _swap_from_to_dest.
    set (shown := if match current_meta a with
                     | Some m => str_eqb (name m) (lit "run")
                     | None => false
                     end
                  then Some a
                  else if dict_mem str_eqb (lit "run") (cmd_metas a)
                       then Some (_on_command_change (set_cmd_var (lit "run") a))
                       else None).
    assert (S : forall a1, shown = Some a1 ->
                  away_from y a1 /\ agree y a1
                  /\ file_entry y (prefs_file a1) = file_entry y (prefs_file a)).
    { intro a1. unfold shown.
      destruct (match current_meta a with
                | Some m => str_eqb (name m) (lit "run")
                | None => false
                end);
        [intro E; injection E as <-; now apply from_keeps, keeps_refl|].
      destruct (dict_mem str_eqb (lit "run") (cmd_metas a)); [|discriminate].
      intro E. injection E as <-.
      apply (on_command_change_keeps y (set_cmd_var (lit "run") a));
        [split; [exact He|exact Hl]|exact Ha]. }
    destruct shown as [a1|]; [|now apply from_keeps, keeps_refl].
    destruct (S a1 eq_refl) as ([Hc1 Hl1] & A1 & F1).
    assert (step : forall a', keeps y a1 a' ->
              away_from y a' /\ agree y a'
              /\ file_entry y (prefs_file a') = file_entry y (prefs_file a)).
    { intros a' (C & L & K). destruct (K Hc1 A1) as [A F].
      split; [split; congruence|]. split; [assumption|congruence]. }
    destruct (current_meta a1) as [m|]; [|now apply step, keeps_refl].
    destruct (find is_from_spec (arguments m ++ switches m)) as [spec|];
      [|now apply step, keeps_refl].
    apply step.
    eapply keeps_trans; [|apply keeps_save_prefs].
    assert (K2 : keeps y a1 match sel_var a1 spec with
                            | Some false => _ensure_selected_row spec (sel_var_set spec true a1)
                            | _ => a1
                            end)
      by (destruct (sel_var a1 spec) as [[|]|]; peel_keeps).
    eapply keeps_trans; [exact K2|].
    destruct (row_of _ spec) as [[]|]; peel_keeps.
  - contradiction.
Qed.

Lemma save_prefs_suspended : forall a, _suspend_save a = true -> _save_prefs a = a.
Proof. intros a H. unfold _save_prefs. now rewrite H. Qed.

Lemma untouched_set_if : forall (A : Type) (x : option A) (f : A -> App -> App) a b,
  _suspend_save a = true ->
  (forall v c, _suspend_save c = true -> untouched c (f v c)) ->
  untouched a b -> untouched a (set_if x f b).
Proof.
  intros A x f a b Hs Hf (S & P & F & C & L).
  destruct x as [v|]; simpl; [|repeat split; assumption].
  destruct (Hf v b) as (S' & P' & F' & C' & L'); [congruence|].
  repeat split; congruence.
Qed.

Lemma load_prefs_agree : forall metas file y,
  agree y (_load_prefs (new_app metas file))
  /\ file_entry y (prefs_file (_load_prefs (new_app metas file))) = file_entry y file
  /\ cmd_var (_load_prefs (new_app metas file)) = []
  /\ _current_cmd_label (_load_prefs (new_app metas file)) = None
  /\ _suspend_save (_load_prefs (new_app metas file)) = true.
Proof.
  intros metas file y. unfold _load_prefs. simpl prefs_file.
  destruct file as [| |data]; try (repeat split; reflexivity).
  set (d := match data with JObj d => d | _ => [] end).
  set (b := set_restore_cmd _ (set_prefs d (new_app metas (Stored data)))).
  assert (U : untouched b
                (set_if (as_int (jget "debug" d)) debug_var_set
                (set_if (as_int (jget "quiet" d)) quiet_var_set
                (set_if (as_int (jget "detail" d)) detail_var_set
                (set_if (as_str (jget "linkly" d)) linkly_var_set
                (set_if (as_str (jget "db" d)) db_var_set
                (set_if (as_str (jget "cwd" d)) cwd_var_set b))))))).
  { repeat (apply untouched_set_if;
            [reflexivity
            |intros v c Hc;
             unfold cwd_var_set, db_var_set, linkly_var_set,
                    detail_var_set, quiet_var_set, debug_var_set;
             rewrite save_prefs_suspended by exact Hc; repeat split|]).
    repeat split. }
  destruct U as (S & P & F & C & L).
  unfold agree. rewrite F, P, C, L, S. unfold b, d. simpl.
  repeat split. destruct data; reflexivity.
Qed.

Lemma startup_keeps : forall metas file a y,
  startup metas file = Some a ->
  cmd_var a <> y ->
  away_from y a /\ agree y a
  /\ file_entry y (prefs_file a) = file_entry y file.
Proof.
  intros metas file a y. unfold startup.
  destruct (load_prefs_agree metas file y) as (A0 & F0 & C0 & L0 & S0).
  set (a0 := _load_prefs (new_app metas file)) in *.
  assert (fin : forall b, agree y b -> _current_cmd_label b <> Some y ->
                  file_entry y (prefs_file b) = file_entry y file ->
                  cmd_var (_save_prefs (set_suspend_save false b)) <> y ->
                  away_from y (_save_prefs (set_suspend_save false b))
                  /\ agree y (_save_prefs (set_suspend_save false b))
                  /\ file_entry y (prefs_file (_save_prefs (set_suspend_save false b)))
                     = file_entry y file).
  { intros b Ab Lb Fb Hne.
    assert (K : keeps y b (_save_prefs (set_suspend_save false b))) by peel_keeps.
    destruct K as (C & L & K). rewrite C in Hne. destruct (K Hne Ab) as [A F].
    split; [split; congruence|]. split; [assumption|congruence]. }
  assert (go : forall c,
            cmd_var (_save_prefs (set_suspend_save false
                       (_apply_saved_state_for_current
                          (_on_command_change (set_cmd_var c a0))))) <> y ->
            away_from y (_save_prefs (set_suspend_save false
                           (_apply_saved_state_for_current
                              (_on_command_change (set_cmd_var c a0)))))
            /\ agree y (_save_prefs (set_suspend_save false
                          (_apply_saved_state_for_current
                             (_on_command_change (set_cmd_var c a0)))))
            /\ file_entry y (prefs_file (_save_prefs (set_suspend_save false
                                (_apply_saved_state_for_current
                                   (_on_command_change (set_cmd_var c a0))))))
               = file_entry y file).
  { intros c Hne.
    assert (Kc : keeps y (_on_command_change (set_cmd_var c a0))
                   (_save_prefs (set_suspend_save false
                      (_apply_saved_state_for_current
                         (_on_command_change (set_cmd_var c a0))))))
      by peel_keeps.
    destruct Kc as (C & L & K). rewrite C in Hne.
    assert (Hc : cmd_var (set_cmd_var c a0) <> y).
    { intro E. apply Hne. unfold _on_command_change.
      set (x := match _current_cmd_label (set_cmd_var c a0),
                      current_meta (set_cmd_var c a0) with
                | Some prev_label, Some _ =>
                    if nonempty prev_label
                    then _save_state_for_label prev_label (set_cmd_var c a0)
                    else set_cmd_var c a0
                | _, _ => set_cmd_var c a0
                end).
      assert (X : x = set_cmd_var c a0) by (unfold x; simpl; now rewrite L0).
      rewrite X.
      destruct (dict_get str_eqb (cmd_var (set_cmd_var c a0))
                         (cmd_metas (set_cmd_var c a0))) as [m|]; simpl.
      - assert (Km : keeps y (set_cmd_var c a0)
                       (_save_prefs
                          (_apply_saved_state_for_current
                             (fold_left (build_option m) (categorized_specs m)
                                (_clear_option_frames
                                   (set_current_meta (Some m) (set_cmd_var c a0)))))))
          by (unfold _clear_option_frames; peel_keeps).
        destruct Km as (Cm & _). rewrite Cm. exact E.
      - exact E. }
    destruct (on_command_change_keeps y (set_cmd_var c a0)) as ([W1 W2] & A & F);
      [split; [exact Hc|simpl; rewrite L0; discriminate]|exact A0|].
    destruct (K W1 A) as [A' F'].
    split; [split; congruence|]. split; [exact A'|].
    rewrite F', F. exact F0. }
  destruct (sorted (map fst metas)) as [|first rest].
  - intros E Hne. injection E as <-.
    apply fin; try assumption. rewrite L0. discriminate.
  - destruct (_restore_cmd a0); try discriminate;
      try (intros E Hne; injection E as <-; now apply go).
    destruct (dict_mem str_eqb s metas); intros E Hne; injection E as <-; now apply go.
Qed.

Lemma run_events_keeps : forall y es a,
  Forall (leaves_alone y) es -> away_from y a -> agree y a ->
  away_from y (run_events a es)
  /\ agree y (run_events a es)
  /\ file_entry y (prefs_file (run_events a es)) = file_entry y (prefs_file a).
Proof.
  intros y es. unfold run_events.
  induction es as [|e es IH]; intros a Hes W A; simpl;
    [split; [exact W|split; [exact A|reflexivity]]|].
  inversion Hes as [|e' es' He Hes']; subst.
  destruct (handle_keeps y a e He W A) as (W1 & A1 & F1).
  destruct (IH (handle a e) Hes' W1 A1) as (W2 & A2 & F2).
  split; [assumption|]. split; [assumption|congruence].
Qed.

(** The entry of a command that the session never shows is, in the file
    the session leaves, the one in the file the session started on. *)
Corollary unvisited_command_kept : forall metas file a y es,
  startup metas file = Some a ->
  cmd_var a <> y ->
  Forall (leaves_alone y) es ->
  file_entry y (prefs_file (run_events a es)) = file_entry y file.
Proof.
  intros metas file a y es S Hne Hes.
  destruct (startup_keeps metas file a y S Hne) as (W & A & F).
  destruct (run_events_keeps y es a Hes W A) as (_ & _ & F').
  congruence.
Qed.

(* ================================================================== *)
(** * Rows are of the kind of their spec

    [_build_args] reads the checkbox of the row of a flag and the entry of
    any other row; in the states of a session it finds them. *)

Lemma fits_refl : forall a, fits_after a a.
Proof. intros a H. exact H. Qed.

Lemma fits_trans : forall a b c, fits_after a b -> fits_after b c -> fits_after a c.
Proof. intros a b c H1 H2 H. apply H2, H1, H. Qed.

Lemma fits_same : forall a b, same_selection b a -> fits_after a b.
Proof. intros a b (_ & S & _) H. unfold rows_fit. now rewrite S. Qed.

Lemma fits_save_prefs : forall a, fits_after a (_save_prefs a).
Proof. intro a. apply fits_same, save_prefs_same. Qed.

Lemma fits_set_widget_vars : forall x a, fits_after a (set_widget_vars x a).
Proof. intros x a H. exact H. Qed.

Lemma fits_pop : forall s a,
  fits_after a (set_selected (dict_pop spec_is s (_selected a)) a).
Proof.
  intros s a H. unfold rows_fit in *. simpl. unfold dict_pop.
  apply Forall_forall. intros sw Hin. apply filter_In in Hin as [Hin _].
  rewrite Forall_forall in H. now apply H.
Qed.

Lemma fits_dict_set : forall s r d,
  row_fits (s, r) -> Forall row_fits d -> dict_get spec_is s d <> None ->
  Forall row_fits (dict_set spec_is s r d).
Proof.
  intros s r d Hr. induction d as [|[k v] d IH]; intros H Hin; [contradiction|].
  simpl in *. inversion H as [|x l Hk Hd]; subst.
  destruct (spec_is s k) eqn:E.
  - apply spec_is_eq in E. subst k. constructor; assumption.
  - constructor; [assumption|]. now apply IH.
Qed.

Lemma fits_ensure_row : forall s a, fits_after a (_ensure_selected_row s a).
Proof.
  intros s a H. unfold _ensure_selected_row.
  destruct (dict_mem spec_is s (_selected a)); [exact H|].
  unfold rows_fit in *. simpl. apply Forall_app. split; [exact H|].
  constructor; [|constructor].
  unfold row_fits, new_row. simpl. destruct (is_flag s); reflexivity.
Qed.

Lemma fits_remove_row : forall s a, fits_after a (_remove_selected_row s a).
Proof.
  intros s a. unfold _remove_selected_row. destruct (row_of a s); [|apply fits_refl].
  eapply fits_trans; [apply fits_pop|apply fits_save_prefs].
Qed.

Lemma fits_row_flag_set : forall s b a, fits_after a (row_flag_set s b a).
Proof.
  intros s b a. unfold row_flag_set.
  destruct (row_of a s) as [[f|v]|] eqn:R; try apply fits_refl.
  eapply fits_trans; [|apply fits_save_prefs].
  intro H. unfold rows_fit in *. simpl. unfold row_of in R.
  apply fits_dict_set; [|exact H|congruence].
  revert R. induction H as [|[k w] d Hk Hd IH]; simpl; [discriminate|].
  destruct (spec_is s k) eqn:E; [|exact IH].
  apply spec_is_eq in E. subst k. intro X. injection X as ->. exact Hk.
Qed.

Lemma fits_row_value_set : forall s v a, fits_after a (row_value_set s v a).
Proof.
  intros s v a. unfold row_value_set.
  destruct (row_of a s) as [[f|w]|] eqn:R; try apply fits_refl.
  eapply fits_trans; [|apply fits_save_prefs].
  intro H. unfold rows_fit in *. simpl. unfold row_of in R.
  apply fits_dict_set; [|exact H|congruence].
  revert R. induction H as [|[k u] d Hk Hd IH]; simpl; [discriminate|].
  destruct (spec_is s k) eqn:E; [|exact IH].
  apply spec_is_eq in E. subst k. intro X. injection X as ->. exact Hk.
Qed.

Create HintDb rows.
#[local] Hint Resolve fits_refl fits_save_prefs fits_set_widget_vars fits_ensure_row
  fits_remove_row fits_row_flag_set fits_row_value_set : rows.

(** Peels the steps already known to keep the rows fitting. *)
Ltac peel_fits :=
  repeat first
    [ solve [auto with rows]
    | eapply fits_trans; [|solve [auto with rows]] ].

Lemma fits_clear : forall o a, fits_after a (sel_var_clear o a).
Proof. intros o a. unfold sel_var_clear. peel_fits. Qed.

Lemma fits_unselect_group : forall s a, fits_after a (unselect_group s a).
Proof.
  intros s a. unfold unselect_group.
  apply fold_left_invariant with (P := fits_after a); [apply fits_refl|].
  intros b o Hb. eapply fits_trans; [exact Hb|].
  destruct (unselect_other_cases s b o) as [->|(_ & _ & _ & ->)];
    [apply fits_refl|apply fits_clear].
Qed.

#[local] Hint Resolve fits_clear fits_unselect_group : rows.

Lemma fits_sel_var_set : forall s b a, fits_after a (sel_var_set s b a).
Proof.
  intros s b a. unfold sel_var_set, _on_toggle_option.
  destruct (b && match group_id s with Some _ => true | None => false end);
    destruct b; peel_fits.
Qed.

#[local] Hint Resolve fits_sel_var_set : rows.

Lemma fits_restore_row : forall s a, fits_after a (fst (restore_row s a)).
Proof.
  intros s a. unfold restore_row.
  destruct (saved_option a s) as [[opt|]|]; try apply fits_refl.
  destruct (is_flag s).
  - destruct opt; simpl; peel_fits.
  - destruct opt; simpl; try apply fits_refl.
    destruct (jget "value" d); simpl; peel_fits.
Qed.

Lemma fits_restore_spec : forall m s a, fits_after a (fst (restore_spec m s a)).
Proof.
  intros m s a. unfold restore_spec.
  destruct (saved_option a s) as [[opt|]|]; try apply fits_refl.
  destruct (negb (truthy opt)); [apply fits_refl|].
  assert (K : forall b, fits_after a match sel_var a s with
                                     | Some _ => sel_var_set s b a
                                     | None => a
                                     end)
    by (intro b; destruct (sel_var a s); peel_fits).
  assert (T : forall b0,
            fits_after a (fst (restore_row s (_ensure_selected_row s
                                 match sel_var a s with
                                 | Some _ => sel_var_set s b0 a
                                 | None => a
                                 end)))).
  { intro b0. eapply fits_trans; [|apply fits_restore_row].
    eapply fits_trans; [apply K|apply fits_ensure_row]. }
  destruct (spec_in s (arguments m)); [apply T|].
  destruct opt; try apply fits_refl.
  destruct (truthy (jget_default "selected" (JBool false) d)); [apply T|apply K].
Qed.

Lemma fits_restore_specs : forall m specs a,
  fits_after a (fst (restore_specs m specs a)).
Proof.
  intros m specs. induction specs as [|s specs IH]; intro a; [apply fits_refl|].
  simpl. pose proof (fits_restore_spec m s a) as K.
  destruct (restore_spec m s a) as [a1 [|]]; [|exact K].
  eapply fits_trans; [exact K|apply IH].
Qed.

Lemma fits_apply_saved_state : forall a,
  fits_after a (_apply_saved_state_for_current a).
Proof.
  intro a. unfold _apply_saved_state_for_current.
  destruct (current_meta a) as [m|]; [|apply fits_refl].
  destruct (saved_state a); [|apply fits_refl].
  pose proof (fits_restore_specs m (categorized_specs m) a) as K.
  destruct (restore_specs m (categorized_specs m) a) as [a1 [|]]; [|exact K].
  eapply fits_trans; [exact K|]. unfold restore_output.
  destruct (saved_state a1) as [st|]; [|apply fits_refl].
  destruct (jget "output" st) as [[]|]; try apply fits_refl.
  intro H. exact H.
Qed.

Lemma on_command_change_fits : forall a, rows_fit (_on_command_change a).
Proof.
  intro a. unfold _on_command_change.
  set (a0 := match _current_cmd_label a, current_meta a with
             | Some prev_label, Some _ =>
                 if nonempty prev_label then _save_state_for_label prev_label a else a
             | _, _ => a
             end).
  destruct (dict_get str_eqb (cmd_var a0) (cmd_metas a0)) as [m|];
    [|constructor].
  apply (fits_save_prefs
           (_apply_saved_state_for_current
              (fold_left (build_option m) (categorized_specs m)
                 (_clear_option_frames (set_current_meta (Some m) a0))))).
  apply fits_apply_saved_state.
  apply fold_left_invariant; [constructor|].
  intros b s Hb. unfold build_option.
  destruct ((spec_in s (arguments m) && negb (is_flag s)) || spec_in s (arguments m));
    [apply fits_ensure_row|]; exact Hb.
Qed.

Lemma handle_fits : forall a e, rows_fit a -> rows_fit (handle a e).
Proof.
  intros a e H.
  assert (same : forall b, same_selection b a -> rows_fit b)
    by (intros b Hb; now apply (fits_same a b Hb)).
  destruct e as [s|s v|s|n|v|v|v|z|z|z|out|dest|]; simpl;
    try (apply same;
         unfold cwd_var_set, db_var_set, linkly_var_set,
                detail_var_set, quiet_var_set, debug_var_set; peel_same; fail).
  - destruct (sel_var a s); [|exact H].
    destruct (is_required a s); [exact H|]. now apply fits_sel_var_set.
  - now apply fits_row_value_set.
  - destruct (row_of a s) as [[]|]; try exact H. now apply fits_row_flag_set.
  - destruct (dict_mem str_eqb n (cmd_metas a)); [apply on_command_change_fits|exact H].
  - unfold _swap_from_to_dest.
    set (shown := if match current_meta a with
                     | Some m => str_eqb (name m) (lit "run")
                     | None => false
                     end
                  then Some a
                  else if dict_mem str_eqb (lit "run") (cmd_metas a)
                       then Some (_on_command_change (set_cmd_var (lit "run") a))
                       else None).
    assert (S : forall a1, shown = Some a1 -> rows_fit a1).
    { intro a1. unfold shown.
      destruct (match current_meta a with
                | Some m => str_eqb (name m) (lit "run")
                | None => false
                end); [intro E; injection E as <-; exact H|].
      destruct (dict_mem str_eqb (lit "run") (cmd_metas a)); [|discriminate].
      intro E. injection E as <-. apply on_command_change_fits. }
    destruct shown as [a1|]; [|exact H]. specialize (S a1 eq_refl).
    destruct (current_meta a1) as [m|]; [|exact S].
    destruct (find is_from_spec (arguments m ++ switches m)) as [spec|]; [|exact S].
    apply fits_save_prefs.
    assert (S2 : rows_fit match sel_var a1 spec with
                          | Some false => _ensure_selected_row spec (sel_var_set spec true a1)
                          | _ => a1
                          end).
    { destruct (sel_var a1 spec) as [[|]|]; try exact S.
      now apply fits_ensure_row, fits_sel_var_set. }
    destruct (row_of _ spec) as [[]|]; try exact S2. now apply fits_row_value_set.
  - unfold _reset_defaults. apply fits_save_prefs.
    set (b := debug_var_set 0 _).
    destruct (sorted (map fst (cmd_metas b))); [|apply on_command_change_fits].
    apply same. unfold b, cwd_var_set, db_var_set, linkly_var_set,
                       detail_var_set, quiet_var_set, debug_var_set. peel_same.
Qed.

Lemma startup_fits : forall metas file a, startup metas file = Some a -> rows_fit a.
Proof.
  intros metas file a. unfold startup.
  set (a0 := _load_prefs (new_app metas file)).
  assert (F0 : rows_fit a0)
    by (apply (fits_same (new_app metas file) a0 (load_prefs_same _)); constructor).
  assert (fin : forall b, rows_fit b -> rows_fit (_save_prefs (set_suspend_save false b)))
    by (intros b Hb; apply fits_save_prefs; exact Hb).
  assert (go : forall c,
            rows_fit (_save_prefs (set_suspend_save false
                        (_apply_saved_state_for_current
                           (_on_command_change (set_cmd_var c a0))))))
    by (intro c; apply fin, fits_apply_saved_state, on_command_change_fits).
  destruct (sorted (map fst metas)) as [|first rest].
  - intro E. injection E as <-. now apply fin.
  - destruct (_restore_cmd a0); try discriminate;
      try (intro E; injection E as <-; apply go).
    destruct (dict_mem str_eqb s metas); intro E; injection E as <-; apply go.
Qed.

Lemma reachable_rows_fit : forall a, reachable a -> rows_fit a.
Proof.
  intros a R. induction R as [metas file a H|a e R IH].
  - now apply startup_fits with metas file.
  - now apply handle_fits.
Qed.
(* ================================================================== *)
(** * Trimming *)

Lemma dropwhile_head : forall p s c s',
  dropwhile p s = c :: s' -> p c = false.
Proof.
  induction s as [|x s IH]; intros c s' H; [discriminate|].
  simpl in H. destruct (p x) eqn:Px.
  - now apply IH with s'.
  - injection H as <- _. exact Px.
Qed.

Lemma dropwhile_stop : forall p l c,
  p c = false -> dropwhile p (l ++ [c]) = dropwhile p l ++ [c].
Proof.
  induction l as [|x l IH]; intros c Pc; simpl.
  - now rewrite Pc.
  - destruct (p x); [now apply IH|reflexivity].
Qed.

Lemma dropwhile_idem : forall p s, dropwhile p (dropwhile p s) = dropwhile p s.
Proof.
  intros p s. destruct (dropwhile p s) as [|c s'] eqn:E; [reflexivity|].
  simpl. now rewrite (dropwhile_head _ _ _ _ E).
Qed.

(** What [strip] leaves of a text that has ink: its first character that
    is not white space, and the rest trimmed on the right. *)
Lemma strip_cons : forall s c u,
  lstrip s = c :: u -> strip s = c :: rstrip u /\ isspace c = false.
Proof.
  intros s c u E. unfold strip, rstrip. rewrite E.
  assert (Sc : isspace c = false) by exact (dropwhile_head _ _ _ _ E).
  split; [|exact Sc].
  simpl rev. rewrite (dropwhile_stop _ _ _ Sc), rev_app_distr. reflexivity.
Qed.

Lemma rstrip_idem : forall s, rstrip (rstrip s) = rstrip s.
Proof.
  intro s. unfold rstrip. now rewrite rev_involutive, dropwhile_idem.
Qed.

Lemma strip_idem : forall s, strip (strip s) = strip s.
Proof.
  intro s. destruct (lstrip s) as [|c u] eqn:E.
  - unfold strip. rewrite E. reflexivity.
  - destruct (strip_cons _ _ _ E) as [-> Sc].
    assert (L : lstrip (c :: rstrip u) = c :: rstrip u)
      by (unfold lstrip; simpl; now rewrite Sc).
    destruct (strip_cons _ _ _ L) as [-> _]. now rewrite rstrip_idem.
Qed.

Lemma strip_head : forall s c u, strip s = c :: u -> isspace c = false.
Proof.
  intros s c u E. destruct (lstrip s) as [|d v] eqn:L.
  - unfold strip in E. rewrite L in E. discriminate.
  - destruct (strip_cons _ _ _ L) as [E' Sd]. rewrite E' in E.
    injection E as <- _. exact Sd.
Qed.

(* ================================================================== *)
(** * The matcher *)

(** A continuation that fails on every text of a class closed under
    taking the tail makes the matcher fail on the texts of the class. *)
Section DeadEnd.
Variable Q : str -> Prop.
Hypothesis Q_tail : forall c s, Q (c :: s) -> Q s.

Lemma star_dead : forall p k, dead Q k -> dead Q (fun s pos cs => star p s pos cs k).
Proof.
  intros p k Hk s. induction s as [|c s IH]; intros pos cs Qs; simpl.
  - now apply Hk.
  - destruct (p c); [|now apply Hk].
    rewrite IH by (now apply Q_tail with c). now apply Hk.
Qed.

Lemma lazy_star_dead : forall p k,
  dead Q k -> dead Q (fun s pos cs => lazy_star p s pos cs k).
Proof.
  intros p k Hk s. induction s as [|c s IH]; intros pos cs Qs; simpl.
  - now rewrite Hk.
  - rewrite Hk by assumption. destruct (p c); [|reflexivity].
    apply IH. now apply Q_tail with c.
Qed.

Lemma exec_dead : forall r k, dead Q k -> dead Q (fun s pos cs => exec r s pos cs k).
Proof.
  induction r as [| | |p|p|p|r1 IH1 r2 IH2|r IH|i r IH]; intros k Hk s pos cs Qs; simpl.
  - now apply Hk.
  - destruct (Nat.eqb pos 0); [now apply Hk|reflexivity].
  - destruct s as [|c [|d s]]; [now apply Hk| |reflexivity].
    destruct (N.eqb c 10); [now apply Hk|reflexivity].
  - destruct s as [|c s]; [reflexivity|].
    destruct (p c); [|reflexivity]. apply Hk. now apply Q_tail with c.
  - now apply star_dead.
  - now apply lazy_star_dead.
  - apply IH1; [|assumption]. now apply IH2.
  - rewrite IH by assumption. now apply Hk.
  - apply IH; [|assumption]. intros s' pos' cs' Qs'. now apply Hk.
Qed.

Lemma cat_dead : forall r1 r2 k,
  dead Q (fun s pos cs => exec r2 s pos cs k) ->
  dead Q (fun s pos cs => exec (r1 ;; r2) s pos cs k).
Proof.
  intros r1 r2 k H s pos cs Qs. simpl.
  now apply (exec_dead r1 (fun s' pos' cs' => exec r2 s' pos' cs' k)).
Qed.

End DeadEnd.

(** A block-start line has an arrow, so a hyphen. *)
Lemma is_start_hyphen : forall ln, is_start ln = true -> In (chr "-") ln.
Proof.
  intros ln H.
  destruct (in_dec N.eq_dec (chr "-") ln) as [Hin|Hout]; [assumption|exfalso].
  set (Q := fun s : str => ~ In (chr "-") s).
  assert (Qt : forall c s, Q (c :: s) -> Q s)
    by (intros c s Hc Hs; apply Hc; now right).
  assert (D : dead Q (fun s pos cs =>
                        exec start_pat s pos cs (fun _ pos cs => Some (pos, cs)))).
  { unfold start_pat. do 4 apply (cat_dead Q Qt).
    intros s pos cs Qs.
    replace (lit "->") with [45%N; 62%N] by reflexivity. cbn [exec Lit].
    destruct s as [|c s]; [reflexivity|].
    destruct (N.eqb 45 c) eqn:E; [|reflexivity].
    apply N.eqb_eq in E. exfalso. apply Qs. left. now rewrite <- E. }
  unfold is_start, re_match in H. rewrite (D ln 0%nat [] Hout) in H. discriminate.
Qed.

Lemma is_start_not_blank : forall ln, is_start ln = true -> blank ln = false.
Proof.
  intros ln H. apply is_start_hyphen in H.
  unfold blank. destruct (str_eqb (strip ln) []) eqn:E; [|reflexivity].
  apply str_eqb_eq, strip_nil in E. rewrite forallb_forall in E.
  specialize (E _ H). discriminate.
Qed.

(* ================================================================== *)
(** * The colour sequences *)

Lemma sub_empty_skip : forall r pre rest,
  sub_empty_from r (length pre) (pre ++ rest) = sub_empty_from r 0 rest.
Proof.
  intros r. induction pre as [|c pre IH]; intro rest; [reflexivity|].
  simpl. apply IH.
Qed.

Lemma dropwhile_length : forall p s, length (dropwhile p s) <= length s.
Proof.
  intros p s. destruct (dropwhile_suffix p s) as (pre & E & _).
  rewrite E at 2. rewrite length_app. lia.
Qed.

Lemma dropwhile_prefix : forall p pre c rest,
  forallb p pre = true -> p c = false ->
  dropwhile p (pre ++ c :: rest) = c :: rest.
Proof.
  induction pre as [|x pre IH]; intros c rest F Pc; simpl.
  - now rewrite Pc.
  - simpl in F. apply andb_true_iff in F as [Px F]. rewrite Px. now apply IH.
Qed.

(** The greedy run of parameters never gives a character back, when what
    follows it in the pattern refuses every parameter. *)
Lemma star_params : forall k,
  (forall c s pos cs, is_param c = true -> k (c :: s) pos cs = None) ->
  forall s pos cs,
    star is_param s pos cs k
    = k (dropwhile is_param s)
        (pos + (length s - length (dropwhile is_param s))) cs.
Proof.
  intros k Hk. induction s as [|c s IH]; intros pos cs.
  - simpl. now rewrite Nat.add_0_r.
  - cbn [star dropwhile]. destruct (is_param c) eqn:Pc.
    + rewrite IH.
      pose proof (dropwhile_length is_param s) as L.
      replace (S pos + (length s - length (dropwhile is_param s)))
        with (pos + (length (c :: s) - length (dropwhile is_param s)))
        by (cbn [length]; lia).
      destruct (k (dropwhile is_param s) _ cs); [reflexivity|].
      now apply Hk.
    + now rewrite Nat.sub_diag, Nat.add_0_r.
Qed.

(** The pattern matches at the head of a text where a colour sequence
    starts, and takes the sequence. *)
Lemma match_ansi_pat : forall s,
  re_match ansi_pat s
  = match after_code s with
    | Some rest => Some (length s - length rest, [])
    | None => None
    end.
Proof.
  intro s. unfold re_match, ansi_pat, after_code. cbn [exec].
  destruct s as [|e [|b s2]]; [reflexivity|now destruct (N.eqb 27 e)|].
  destruct (N.eqb 27 e); [|reflexivity].
  destruct (N.eqb (chr "[") b); [|reflexivity]. cbn [andb].
  change (fun c : char => ((48 <=? c) && (c <=? 57))%N || N.eqb c (chr ";"))
    with is_param.
  rewrite star_params.
  - pose proof (dropwhile_length is_param s2) as L.
    destruct (dropwhile is_param s2) as [|m rest]; [reflexivity|].
    destruct (N.eqb (chr "m") m); [|reflexivity].
    do 2 f_equal. cbn [length] in L |- *. lia.
  - intros c s pos cs Pc. destruct (N.eqb (chr "m") c) eqn:E; [|reflexivity].
    apply N.eqb_eq in E. subst c. discriminate.
Qed.

Lemma after_code_of_code : forall code rest,
  colour_code code -> after_code (code ++ rest) = Some rest.
Proof.
  intros code rest (params & F & ->). unfold after_code. cbn [app andb N.eqb].
  change (N.eqb 27 27) with true. change (N.eqb (chr "[") (chr "[")) with true.
  cbn [andb]. rewrite <- app_assoc. cbn [app].
  rewrite dropwhile_prefix by (exact F || reflexivity).
  reflexivity.
Qed.

Lemma after_code_starts : forall s rest,
  after_code s = Some rest -> exists code, colour_code code /\ s = code ++ rest.
Proof.
  intros s rest H. unfold after_code in H.
  destruct s as [|e [|b s2]]; try discriminate.
  destruct (N.eqb 27 e) eqn:Ee; [|discriminate].
  destruct (N.eqb (chr "[") b) eqn:Eb; [|discriminate]. cbn [andb] in H.
  apply N.eqb_eq in Ee, Eb. subst e b.
  destruct (dropwhile_suffix is_param s2) as (params & E & F).
  destruct (dropwhile is_param s2) as [|m rest']; [discriminate|].
  destruct (N.eqb (chr "m") m) eqn:Em; [|discriminate].
  apply N.eqb_eq in Em. subst m. injection H as ->.
  exists ([27%N; chr "["] ++ params ++ [chr "m"]). split.
  - now exists params.
  - rewrite E. cbn [app]. now rewrite <- app_assoc.
Qed.

Lemma sub_empty_match : forall r c s n cs,
  re_match r (c :: s) = Some (S n, cs) ->
  sub_empty_from r 0 (c :: s) = sub_empty_from r n s.
Proof. intros r c s n cs M. cbn [sub_empty_from]. now rewrite M. Qed.

Lemma sub_empty_keep : forall r c s,
  re_match r (c :: s) = None ->
  sub_empty_from r 0 (c :: s) = c :: sub_empty_from r 0 s.
Proof. intros r c s M. cbn [sub_empty_from]. now rewrite M. Qed.

Lemma strip_ansi_code : forall code rest,
  colour_code code -> _strip_ansi (code ++ rest) = _strip_ansi rest.
Proof.
  intros code rest C.
  assert (M : re_match ansi_pat (code ++ rest) = Some (length code, [])).
  { rewrite match_ansi_pat, (after_code_of_code code rest C). do 2 f_equal.
    rewrite length_app. lia. }
  destruct C as (params & _ & ->). cbn [app length] in M.
  unfold _strip_ansi, sub_empty. cbn [app].
  rewrite (sub_empty_match _ _ _ _ _ M).
  exact (sub_empty_skip ansi_pat (chr "[" :: params ++ [chr "m"]) rest).
Qed.

Lemma strip_ansi_char : forall c rest,
  ~ starts_with_code (c :: rest) -> _strip_ansi (c :: rest) = c :: _strip_ansi rest.
Proof.
  intros c rest H. unfold _strip_ansi, sub_empty. apply sub_empty_keep.
  rewrite match_ansi_pat.
  destruct (after_code (c :: rest)) as [rest'|] eqn:A; [|reflexivity].
  exfalso. apply H. destruct (after_code_starts _ _ A) as (code & C & E).
  now exists code, rest'.
Qed.

Lemma strip_ansi_uncoloured : forall n s, length s <= n -> uncoloured s (_strip_ansi s).
Proof.
  induction n as [|n IH]; intros s L.
  - destruct s; [apply uncoloured_end|simpl in L; lia].
  - destruct s as [|c s']; [apply uncoloured_end|].
    destruct (after_code (c :: s')) as [rest|] eqn:A.
    + destruct (after_code_starts _ _ A) as (code & C & E). rewrite E.
      rewrite (strip_ansi_code _ _ C). apply uncoloured_code; [exact C|].
      apply IH. destruct C as (params & _ & ->).
      rewrite E in L. simpl in L. rewrite !length_app in L. lia.
    + assert (H : ~ starts_with_code (c :: s')).
      { intros (code & rest & C & E). rewrite E, (after_code_of_code _ _ C) in A.
        discriminate. }
      rewrite (strip_ansi_char _ _ H). apply uncoloured_char; [exact H|].
      apply IH. simpl in L. lia.
Qed.

(** X1.  [_strip_ansi] takes the colour sequences out of a text and
    nothing else: read from the left, every colour sequence (the escape
    character, an opening bracket, digits and semicolons, the letter m)
    is left out and every character that starts none is kept, in its
    place; the result is the only text the input reads as in this way. *)
Theorem strip_ansi_removes_codes_only : forall s : str,
  uncoloured s (_strip_ansi s)
  /\ forall out, uncoloured s out -> out = _strip_ansi s.
Proof.
  intro s. split; [now apply strip_ansi_uncoloured with (length s)|].
  intros out U. induction U as [|code rest out C U IH|c rest out H U IH].
  - reflexivity.
  - now rewrite (strip_ansi_code _ _ C).
  - now rewrite (strip_ansi_char _ _ H), IH.
Qed.

(** X2.  A text without an escape character goes through [_strip_ansi]
    unchanged. *)
Theorem strip_ansi_without_escape : forall s : str,
  ~ In 27%N s -> _strip_ansi s = s.
Proof.
  unfold _strip_ansi, sub_empty.
  induction s as [|c s IH]; intro H; [reflexivity|].
  cbn [sub_empty_from].
  assert (M : re_match ansi_pat (c :: s) = None).
  { unfold re_match, ansi_pat. cbn [exec].
    destruct (N.eqb 27 c) eqn:E; [|reflexivity].
    apply N.eqb_eq in E. exfalso. apply H. now left. }
  rewrite M. f_equal. apply IH. intro Hin. apply H. now right.
Qed.

Lemma strip_ansi_without_escape_witness :
  ~ In 27%N (lit "Sol -> Lave") /\ _strip_ansi (lit "Sol -> Lave") = lit "Sol -> Lave".
Proof.
  assert (H : ~ In 27%N (lit "Sol -> Lave")).
  { vm_compute. intro H. repeat (destruct H as [H|H]; [discriminate|]). exact H. }
  split; [exact H|]. exact (strip_ansi_without_escape _ H).
Defined.

(* ================================================================== *)
(** * The blocks of the route parser *)

Lemma blank_not_start : forall ln, blank ln = true -> is_start ln = false.
Proof.
  intros ln B. destruct (is_start ln) eqn:S; [|reflexivity].
  apply is_start_not_blank in S. congruence.
Qed.

(** A block under construction whose first line has ink closes into a
    record. *)
Lemma close_block_route : forall routes current,
  blank (hd [] current) = false ->
  close_block routes current = routes ++ [route_of current].
Proof.
  intros routes current B. destruct current as [|ln rest].
  - discriminate.
  - destruct (not_blank_has_ink _ B) as (c & Hc & Sc).
    unfold close_block.
    now rewrite (strip_nonempty (join nl (ln :: rest)) c (in_join_hd nl ln rest c Hc) Sc).
Qed.

Lemma hd_app_cons : forall (l : list str) x y, hd x (l ++ [y]) = hd y l.
Proof. destruct l; reflexivity. Qed.

Lemma parse_lines_chunks_from : forall lines routes current,
  current <> [] -> blank (hd [] current) = false ->
  parse_lines lines routes current = routes ++ map route_of (chunks_from current lines).
Proof.
  induction lines as [|ln rest IH]; intros routes current Hne B.
  - simpl. destruct current as [|l0 current]; [contradiction|].
    now apply close_block_route.
  - assert (N : @nonempty str current = true)
      by (destruct current; [contradiction|reflexivity]).
    cbn [parse_lines chunks_from]. rewrite N, andb_true_r. destruct (is_start ln) eqn:S.
    + pose proof (is_start_not_blank _ S) as Bl. unfold blank in Bl. rewrite Bl.
      rewrite IH; [|discriminate|exact (is_start_not_blank _ S)].
      rewrite (close_block_route _ _ B), <- app_assoc. reflexivity.
    + rewrite N.
      assert (G : parse_lines rest routes (current ++ [ln])
                  = routes ++ map route_of (chunks_from (current ++ [ln]) rest)).
      { apply IH.
        - destruct current; discriminate.
        - destruct current; [contradiction|exact B]. }
      destruct (str_eqb (strip ln) []); exact G.
Qed.

Lemma parse_lines_chunks : forall lines routes,
  parse_lines lines routes [] = routes ++ map route_of (chunks lines).
Proof.
  induction lines as [|ln rest IH]; intro routes.
  - simpl. now rewrite app_nil_r.
  - cbn [parse_lines nonempty]. rewrite andb_false_r. unfold chunks.
    cbn [skip_blank]. unfold blank at 1.
    destruct (str_eqb (strip ln) []) eqn:B.
    + apply IH.
    + now apply parse_lines_chunks_from.
Qed.

(** X3.  The parser cuts the lines of the text, colour sequences taken
    out, into groups: the blank lines in front are dropped, and a new
    group starts at every line that matches the block-start pattern.  It
    returns one record per group, in order: the block is the group joined
    by line feeds and trimmed, the destination is read off the first line
    of the group. *)
Theorem parse_routes_by_groups : forall text : str,
  _parse_routes text = map route_of (chunks (lines_of text)).
Proof.
  intro text. unfold _parse_routes. fold (lines_of text).
  now rewrite parse_lines_chunks.
Qed.

Lemma chunks_from_length : forall lines current,
  length (chunks_from current lines) = S (length (filter is_start lines)).
Proof.
  induction lines as [|ln rest IH]; intro current; [reflexivity|].
  simpl. destruct (is_start ln); simpl; now rewrite IH.
Qed.

Lemma filter_start_skip_blank : forall lines,
  filter is_start (skip_blank lines) = filter is_start lines.
Proof.
  induction lines as [|ln rest IH]; [reflexivity|].
  simpl. destruct (blank ln) eqn:B; [|reflexivity].
  now rewrite (blank_not_start _ B).
Qed.

(** X4.  The number of records: one for every line that matches the
    block-start pattern, and one more when the first line that is not
    blank does not match it. *)
Theorem parse_routes_count : forall text : str,
  length (_parse_routes text)
  = length (filter is_start (lines_of text))
    + match skip_blank (lines_of text) with
      | ln :: _ => if is_start ln then 0 else 1
      | [] => 0
      end.
Proof.
  intro text. unfold _parse_routes. fold (lines_of text).
  rewrite parse_lines_chunks. cbn [app]. rewrite length_map.
  rewrite <- (filter_start_skip_blank (lines_of text)). unfold chunks.
  destruct (skip_blank (lines_of text)) as [|ln rest]; [reflexivity|].
  rewrite chunks_from_length. simpl.
  destruct (is_start ln); simpl; lia.
Qed.

Lemma dest_of_line_trimmed : forall ln, trimmed (dest_of_line ln).
Proof.
  intro ln. unfold trimmed, dest_of_line.
  destruct (re_match start_pat ln); [apply strip_idem|reflexivity].
Qed.

Lemma close_block_neat : forall routes current,
  Forall neat routes -> Forall neat (close_block routes current).
Proof.
  intros routes current H. unfold close_block.
  destruct (nonempty (strip (join nl current))) eqn:E; [|assumption].
  apply Forall_app. split; [assumption|].
  constructor; [|constructor]. repeat split; simpl.
  - intro Z. rewrite Z in E. discriminate.
  - apply strip_idem.
  - apply dest_of_line_trimmed.
Qed.

Lemma parse_lines_neat : forall lines routes current,
  Forall neat routes -> Forall neat (parse_lines lines routes current).
Proof.
  induction lines as [|ln rest IH]; intros routes current H; simpl.
  - destruct (nonempty current); [now apply close_block_neat|assumption].
  - destruct (is_start ln && nonempty current).
    + destruct (str_eqb (strip ln) []); simpl; apply IH; now apply close_block_neat.
    + destruct (str_eqb (strip ln) []); [destruct (nonempty current)|]; now apply IH.
Qed.

(** X5.  Every record the parser returns has a block that is not empty
    and has no white space at either end, and a destination without
    white space at either end. *)
Theorem parse_routes_neat : forall text : str,
  Forall neat (_parse_routes text).
Proof.
  intro text. unfold _parse_routes. apply parse_lines_neat. constructor.
Qed.

(* ================================================================== *)
(** * The route cards and the flat export *)

Lemma linebreak_isspace : forall c, is_linebreak c = true -> isspace c = true.
Proof.
  intros c H. unfold is_linebreak in H. unfold isspace.
  repeat (apply orb_true_iff in H as [H|H]).
  - apply andb_true_iff in H as [H1 H2].
    apply N.leb_le in H1, H2.
    assert (G : ((9 <=? c) && (c <=? 13))%N = true)
      by (apply andb_true_iff; split; apply N.leb_le; lia).
    now rewrite G.
  - apply andb_true_iff in H as [H1 H2].
    apply N.leb_le in H1, H2.
    assert (G : ((28 <=? c) && (c <=? 32))%N = true)
      by (apply andb_true_iff; split; apply N.leb_le; lia).
    rewrite G. now rewrite !orb_true_r.
  - rewrite H. now rewrite !orb_true_r.
  - rewrite H. now rewrite !orb_true_r.
  - rewrite H. now rewrite !orb_true_r.
Qed.

Lemma splitlines_from_cons : forall s cur,
  cur <> [] -> exists first rest, splitlines_from cur s = (cur ++ first) :: rest.
Proof.
  induction s as [|c s IH]; intros cur Hne.
  - exists [], []. simpl. rewrite app_nil_r. destruct cur; [contradiction|reflexivity].
  - cbn [splitlines_from]. destruct (N.eqb c 13).
    + destruct s as [|d s'].
      * exists [], []. now rewrite app_nil_r.
      * destruct (N.eqb d 10); eexists [], _; now rewrite app_nil_r.
    + destruct (is_linebreak c).
      * eexists [], _. now rewrite app_nil_r.
      * destruct (IH (cur ++ [c])) as (first & rest & E); [now destruct cur|].
        exists (c :: first), rest. rewrite E, <- app_assoc. reflexivity.
Qed.

(** The first line of a block the parser built is not empty. *)
Lemma neat_first_line : forall r,
  neat r -> exists title more, splitlines (block r) = title :: more /\ title <> [].
Proof.
  intros r (Hne & Ht & _). unfold trimmed in Ht.
  destruct (block r) as [|c u] eqn:E; [contradiction|].
  pose proof (strip_head _ _ _ Ht) as Sc.
  assert (L : is_linebreak c = false).
  { destruct (is_linebreak c) eqn:L; [|reflexivity].
    apply linebreak_isspace in L. congruence. }
  assert (R : N.eqb c 13 = false).
  { destruct (N.eqb c 13) eqn:R; [|reflexivity].
    apply N.eqb_eq in R. subst c. discriminate. }
  unfold splitlines. cbn [splitlines_from]. rewrite R, L.
  destruct (splitlines_from_cons u [c]) as (first & rest & G); [discriminate|].
  exists ([c] ++ first), rest. split; [exact G|discriminate].
Qed.

Lemma build_route_cards_neat : forall routes,
  Forall neat routes ->
  exists cards,
    _build_route_cards routes = Some cards
    /\ map card_dest cards = map dest routes
    /\ Forall (fun c => card_title c <> [] /\ length (card_body c) <= 5) cards.
Proof.
  induction routes as [|r routes IH]; intro H.
  - exists []. repeat split. constructor.
  - inversion H as [|? ? Hr Hrest]; subst.
    destruct (IH Hrest) as (cards & E & D & F).
    destruct (neat_first_line _ Hr) as (title & more & S & T).
    cbn [_build_route_cards]. unfold route_card. rewrite S, E.
    eexists. split; [reflexivity|]. split.
    + simpl. destruct Hr as (_ & _ & Hd). unfold trimmed in Hd. now rewrite Hd, D.
    + constructor; [|assumption]. cbn [card_title card_body]. split; [assumption|].
      rewrite length_firstn. lia.
Qed.

(** X6.  The routes panel: a command other than [run] has no cards; for
    [run] there is one card for every record parsed from the output, in
    order, with the destination of the record, a title that is not empty
    and at most five lines of body. *)
Theorem route_cards_of_output : forall (a : App) (m : CommandMeta),
  current_meta a = Some m ->
  (name m <> lit "run" -> _process_routes_from_output a = [])
  /\ (name m = lit "run" ->
      map card_dest (_process_routes_from_output a)
      = map dest (_parse_routes (output_get a))
      /\ Forall (fun c => card_title c <> [] /\ length (card_body c) <= 5)
                (_process_routes_from_output a)).
Proof.
  intros a m Hm. unfold _process_routes_from_output. rewrite Hm. split; intro N.
  - now rewrite (str_eqb_neq _ _ N).
  - rewrite N, str_eqb_refl.
    destruct (build_route_cards_neat _ (parse_routes_neat (output_get a)))
      as (cards & -> & D & F).
    now split.
Qed.

Lemma route_cards_of_output_witness :
  current_meta (set_output (lit "Sol -> Lave (score: 3)" ++ nl ++ lit "  load 2 x Gold")
                           (showing run_meta [])) = Some run_meta
  /\ name run_meta = lit "run"
  /\ map card_dest
       (_process_routes_from_output
          (set_output (lit "Sol -> Lave (score: 3)" ++ nl ++ lit "  load 2 x Gold")
                      (showing run_meta [])))
     = [lit "Lave"].
Proof.
  split; [reflexivity|]. split; [reflexivity|].
  destruct (route_cards_of_output
              (set_output (lit "Sol -> Lave (score: 3)" ++ nl ++ lit "  load 2 x Gold")
                          (showing run_meta []))
              run_meta eq_refl) as [_ R].
  destruct (R eq_refl) as [D _]. rewrite D. vm_compute. reflexivity.
Defined.

Lemma flat_titles_neat : forall routes i,
  Forall neat routes -> flat_titles i routes = Some (numbered_from i routes).
Proof.
  induction routes as [|r routes IH]; intros i H; [reflexivity|].
  inversion H as [|? ? Hr Hrest]; subst.
  destruct (neat_first_line _ Hr) as (title & more & First & _).
  cbn [flat_titles]. rewrite First, (IH (S i) Hrest).
  unfold numbered_from, numbered_line. cbn [length seq combine map fst snd].
  now rewrite First.
Qed.

(** X7.  The flat export never fails on what the parser returns.  The
    text written is the three header lines and then one line for every
    record, in order, each line ended by a line feed; the line of the
    n-th record (counted from 1) is n on two digits at least, a full
    stop, a space and the first line of the record's block without its
    colour sequences. *)
Theorem export_flat_of_parsed : forall stamp preview text : str,
  _export_flat stamp preview (_parse_routes text)
  = Some (join nl ([ lit "Trade Dangerous GUI Flat Export (" ++ stamp ++ lit ")";
                     lit "Command: " ++ preview;
                     repeat (chr "-") 80 ]
                   ++ numbered_from 1 (_parse_routes text)) ++ nl).
Proof.
  intros stamp preview text. unfold _export_flat.
  now rewrite (flat_titles_neat _ 1 (parse_routes_neat text)).
Qed.

(* ================================================================== *)
(** * The layout of the selector *)

Lemma dict_set_values : forall (d : list (str * OptionSpec)) k v k' x,
  dict_get str_eqb k' (dict_set str_eqb k v d) = Some x ->
  x = v \/ dict_get str_eqb k' d = Some x.
Proof.
  induction d as [|[k0 v0] d IH]; intros k v k' x H; simpl in H.
  - destruct (str_eqb k' k); [injection H as <-; now left|discriminate].
  - destruct (str_eqb k k0) eqn:E; simpl in H |- *.
    + destruct (str_eqb k' k0); [injection H as <-; now left|now right].
    + destruct (str_eqb k' k0); [now right|]. now apply IH with k.
Qed.

(** The dictionary [by_dest] holds specs of the command only. *)
Lemma by_dest_values : forall specs d,
  (forall k x, dict_get str_eqb k d = Some x -> In x specs) ->
  forall l, incl l specs ->
  forall k x, dict_get str_eqb k (fold_left by_dest_step l d) = Some x -> In x specs.
Proof.
  intros specs d Hd l. revert d Hd.
  induction l as [|s l IH]; intros d Hd Hl k x H; simpl in H.
  - now apply Hd with k.
  - apply IH with (by_dest_step d s) k; [|intros y Hy; apply Hl; now right|exact H].
    clear H. intros k1 x1 H1. unfold by_dest_step in H1.
    assert (Hs : In s specs) by (apply Hl; now left).
    match type of H1 with
    | context [dict_set str_eqb ?key1 s d] =>
        set (d1 := dict_set str_eqb key1 s d) in *;
        assert (G : forall k2 x2, dict_get str_eqb k2 d1 = Some x2 -> In x2 specs)
    end.
    { intros k2 x2 H2. unfold d1 in H2.
      apply dict_set_values in H2 as [->|H2]; [assumption|now apply Hd with k2]. }
    destruct (dict_mem str_eqb (lstrip_dash (long_flag s)) d1).
    + now apply G with k1.
    + apply dict_set_values in H1 as [->|H1]; [assumption|now apply G with k1].
Qed.

(** A section adds the specs it takes to [used]: none of them was used
    before, and each is a value of [by_dest]. *)
Lemma section_specs_adds : forall bd names used specs used',
  section_specs bd names used = (specs, used') ->
  used' = used ++ specs
  /\ (NoDup used -> NoDup used')
  /\ (forall s, In s specs -> exists k, dict_get str_eqb k bd = Some s).
Proof.
  intros bd names. induction names as [|n names IH]; intros used specs used' H.
  - injection H as <- <-. rewrite app_nil_r. repeat split; [tauto|intros s []].
  - simpl in H. destruct (dict_get str_eqb (lit n) bd) as [s|] eqn:G; [|now apply IH].
    destruct (spec_in s used) eqn:U; [now apply IH|].
    destruct (section_specs bd names (used ++ [s])) as [sp u] eqn:E.
    injection H as <- <-.
    destruct (IH _ _ _ E) as (-> & N & V).
    split; [now rewrite <- app_assoc|]. split.
    + intro Nu. apply N. apply NoDup_app; repeat split.
      * exact Nu.
      * constructor; [intros []|constructor].
      * intros x Hx [<-|[]]. apply spec_in_In in Hx. congruence.
    + intros x [<-|Hx]; [now exists (lit n)|now apply V].
Qed.

Lemma all_sections_adds : forall bd ss used result used',
  all_sections bd ss used = (result, used') ->
  used' = used ++ concat (map snd result)
  /\ (NoDup used -> NoDup used')
  /\ (forall s, In s (concat (map snd result)) ->
                exists k, dict_get str_eqb k bd = Some s)
  /\ Forall (fun sec => snd sec <> []) result.
Proof.
  intros bd ss. induction ss as [|[title names] ss IH]; intros used result used' H.
  - injection H as <- <-. rewrite app_nil_r.
    repeat split; [tauto|intros s []|constructor].
  - simpl in H.
    destruct (section_specs bd names used) as [specs used1] eqn:E1.
    destruct (all_sections bd ss used1) as [res used2] eqn:E2.
    injection H as <- <-.
    destruct (section_specs_adds _ _ _ _ _ E1) as (-> & N1 & V1).
    destruct (IH _ _ _ E2) as (-> & N2 & V2 & F2).
    assert (C : concat (map snd (if nonempty specs then (lit title, specs) :: res else res))
                = specs ++ concat (map snd res))
      by (destruct specs; reflexivity).
    rewrite C. split; [now rewrite app_assoc|]. split; [tauto|]. split.
    + intros s Hs. apply in_app_or in Hs as [Hs|Hs]; [now apply V1|now apply V2].
    + destruct specs as [|s0 specs]; [assumption|].
      constructor; [discriminate|assumption].
Qed.

Lemma NoDup_filter : forall (A : Type) (f : A -> bool) (l : list A),
  NoDup l -> NoDup (filter f l).
Proof.
  intros A f. induction l as [|x l IH]; intro H; [constructor|].
  inversion H as [|? ? Hx Hl]; subst. simpl.
  destruct (f x); [|now apply IH].
  constructor; [|now apply IH]. intro Hin. apply filter_In in Hin. tauto.
Qed.

(** The specs of the layout of [run]: those the sections take, then the
    rest. *)
Lemma run_layout_specs : forall m result used,
  all_sections (fold_left by_dest_step (arguments m ++ switches m) []) sects []
  = (result, used) ->
  str_eqb (name m) (lit "run") = true ->
  categorized_specs m
  = used ++ filter (fun s => negb (spec_in s used)) (arguments m ++ switches m).
Proof.
  intros m result used E R. unfold categorized_specs, categorize. rewrite R, E.
  destruct (all_sections_adds _ _ _ _ _ E) as (U & _).
  simpl in U. subst used.
  destruct (filter _ (arguments m ++ switches m)) as [|q rem].
  - simpl. now rewrite app_nil_r.
  - cbn [nonempty]. rewrite map_app, concat_app. simpl. now rewrite app_nil_r.
Qed.

Lemma categorized_NoDup : forall m,
  NoDup (arguments m ++ switches m) -> NoDup (categorized_specs m).
Proof.
  intros m H. destruct (str_eqb (name m) (lit "run")) eqn:R.
  - destruct (all_sections (fold_left by_dest_step (arguments m ++ switches m) []) sects [])
      as [result used] eqn:E.
    rewrite (run_layout_specs _ _ _ E R).
    destruct (all_sections_adds _ _ _ _ _ E) as (_ & N & _).
    apply NoDup_app; repeat split.
    + apply N. constructor.
    + now apply NoDup_filter.
    + intros x Hx Hf. apply filter_In in Hf as [_ Hf].
      apply spec_in_In in Hx. rewrite Hx in Hf. discriminate.
  - unfold categorized_specs, categorize. rewrite R. simpl. now rewrite app_nil_r.
Qed.

Lemma categorized_within : forall m p,
  In p (categorized_specs m) -> In p (arguments m ++ switches m).
Proof.
  intros m p H. destruct (str_eqb (name m) (lit "run")) eqn:R.
  - destruct (all_sections (fold_left by_dest_step (arguments m ++ switches m) []) sects [])
      as [result used] eqn:E.
    rewrite (run_layout_specs _ _ _ E R) in H.
    destruct (all_sections_adds _ _ _ _ _ E) as (U & _ & V & _).
    simpl in U. subst used.
    apply in_app_or in H as [H|H].
    + destruct (V _ H) as (k & G).
      apply (by_dest_values (arguments m ++ switches m) []) with (arguments m ++ switches m) k;
        [intros ? ? Z; discriminate|apply incl_refl|exact G].
    + now apply filter_In in H as [H _].
  - unfold categorized_specs, categorize in H. rewrite R in H. simpl in H.
    now rewrite app_nil_r in H.
Qed.

(** X8.  The layout of the selector lists the options of the command,
    each of them once: when no spec is declared twice, the specs of the
    sections, one after the other, are a rearrangement of the arguments
    followed by the switches.  This holds for the layout of [run], with
    its named sections and the rest under Misc, as for the two sections of
    any other command. *)
Theorem categorize_lists_each_once : forall m : CommandMeta,
  NoDup (arguments m ++ switches m) ->
  Permutation (categorized_specs m) (arguments m ++ switches m).
Proof.
  intros m H. apply NoDup_Permutation.
  - now apply categorized_NoDup.
  - exact H.
  - intro p. split; [apply categorized_within|apply categorized_all].
Qed.

Lemma categorize_lists_each_once_witness :
  NoDup (arguments run_meta ++ switches run_meta)
  /\ Permutation (categorized_specs run_meta) (arguments run_meta ++ switches run_meta)
  /\ categorized_specs run_meta
     = [capacity_spec; credits_spec; from_spec; towards_spec; loop_spec; hops_spec;
        gpt_spec].
Proof.
  assert (N : NoDup (arguments run_meta ++ switches run_meta)).
  { apply (NoDup_map_inv oid). vm_compute.
    repeat constructor; intro H; simpl in H;
      repeat (destruct H as [H|H]; [discriminate|]); exact H. }
  split; [exact N|]. split; [exact (categorize_lists_each_once run_meta N)|].
  vm_compute. reflexivity.
Defined.

(** X9.  In the layout of [run] no section is empty: a section none of
    whose names is an option of the command is left out, and Misc shows
    only when an option is in no section. *)
Theorem run_layout_has_no_empty_section : forall m : CommandMeta,
  name m = lit "run" ->
  Forall (fun sec => snd sec <> []) (categorize m).
Proof.
  intros m R. unfold categorize. rewrite R, str_eqb_refl.
  destruct (all_sections (fold_left by_dest_step (arguments m ++ switches m) []) sects [])
    as [result used] eqn:E.
  destruct (all_sections_adds _ _ _ _ _ E) as (_ & _ & _ & F).
  destruct (filter _ (arguments m ++ switches m)) as [|q rem]; [exact F|].
  cbn [nonempty]. apply Forall_app. split; [exact F|].
  constructor; [discriminate|constructor].
Qed.

Lemma run_layout_has_no_empty_section_witness :
  name run_meta = lit "run"
  /\ map fst (categorize run_meta) = map lit ["Required"; "Other"; "Travel"; "Misc"]%string
  /\ Forall (fun sec => snd sec <> []) (categorize run_meta).
Proof.
  split; [reflexivity|]. split; [vm_compute; reflexivity|].
  apply (run_layout_has_no_empty_section run_meta). reflexivity.
Defined.

(* ================================================================== *)
(** * The preview *)

Lemma escape_quotes_escaped : forall s b, quotes_escaped b (escape_quotes s) = true.
Proof.
  induction s as [|c s IH]; intro b; [reflexivity|].
  simpl. destruct (N.eqb c 34) eqn:E.
  - simpl. apply IH.
  - simpl. rewrite E. apply IH.
Qed.

(** What [escape_quotes] returns never starts with a double quote. *)
Lemma escape_quotes_head : forall s q rest,
  escape_quotes s = q :: rest -> N.eqb q 34 = false.
Proof.
  intros [|c s] q rest H; [discriminate|]. simpl in H.
  destruct (N.eqb c 34) eqn:E; injection H as <- _; [reflexivity|exact E].
Qed.

Lemma unquoted_escape_quotes : forall s, unquoted (escape_quotes s) = s.
Proof.
  induction s as [|c s IH]; [reflexivity|].
  change (escape_quotes (c :: s))
    with ((if N.eqb c 34 then [92%N; 34%N] else [c]) ++ escape_quotes s).
  destruct (N.eqb c 34) eqn:E.
  - apply N.eqb_eq in E. subst c. cbn [app unquoted N.eqb Pos.eqb].
    now rewrite IH.
  - cbn [app unquoted]. destruct (N.eqb c 92) eqn:B; [|now rewrite IH].
    apply N.eqb_eq in B. subst c.
    destruct (escape_quotes s) as [|q rest] eqn:Q.
    + simpl in IH. now rewrite <- IH.
    + rewrite (escape_quotes_head _ _ _ Q). now rewrite IH.
Qed.

Lemma quote_double_shown : forall t, shown_as t (quote_double t).
Proof.
  intro t. unfold quote_double, shown_as, plain_word.
  assert (Q : exists body,
            [34%N] ++ escape_quotes (strip t) ++ [34%N] = [34%N] ++ body ++ [34%N]
            /\ quotes_escaped false body = true /\ unquoted body = strip t).
  { exists (escape_quotes (strip t)).
    repeat split; [apply escape_quotes_escaped|apply unquoted_escape_quotes]. }
  destruct (str_eqb (strip t) []) eqn:E.
  - right. split; [|exact Q]. apply str_eqb_eq in E. intros (N & _). congruence.
  - destruct (existsb isspace (strip t)) eqn:W.
    + right. split; [|exact Q]. intros (_ & N & _). discriminate.
    + destruct (contains (lit "/") (strip t)) eqn:S.
      * right. split; [|exact Q]. intros (_ & _ & N). discriminate.
      * left. simpl. repeat split.
        intro Z. rewrite Z in E. discriminate.
Qed.

(** A text whose double quotes all come after a backslash is what
    [escape_quotes] makes of the text read back. *)
Lemma escape_quotes_unquoted : forall s,
  (quotes_escaped false s = true -> escape_quotes (unquoted s) = s)
  /\ (quotes_escaped true s = true -> escape_quotes (unquoted (92%N :: s)) = 92%N :: s).
Proof.
  induction s as [|q s [IHa IHb]]; [now split|].
  assert (A : quotes_escaped false (q :: s) = true ->
              escape_quotes (unquoted (q :: s)) = q :: s).
  { cbn [quotes_escaped]. destruct (N.eqb q 34) eqn:Q; [discriminate|].
    destruct (N.eqb q 92) eqn:B.
    - apply N.eqb_eq in B. subst q. exact IHb.
    - intro H. cbn [unquoted]. rewrite B. simpl. rewrite Q. simpl.
      now rewrite (IHa H). }
  split; [exact A|].
  cbn [quotes_escaped unquoted]. change (N.eqb 92 92) with true. cbv iota.
  destruct (N.eqb q 34) eqn:Q.
  - apply N.eqb_eq in Q. subst q. cbn [andb]. intro H.
    simpl. now rewrite (IHa H).
  - intro H. simpl. f_equal. apply A. cbn [quotes_escaped]. now rewrite Q.
Qed.

(** A token shows in one way only. *)
Lemma shown_as_quote_double : forall t piece, shown_as t piece -> piece = quote_double t.
Proof.
  intros t piece [[(Hne & Hw & Hs) ->]|[Hn (body & -> & He & Hu)]]; unfold quote_double.
  - rewrite Hw, Hs. destruct (str_eqb (strip t) []) eqn:E; [|reflexivity].
    apply str_eqb_eq in E. contradiction.
  - rewrite <- Hu, (proj1 (escape_quotes_unquoted body) He).
    destruct (str_eqb (unquoted body) [] || existsb isspace (unquoted body)
              || contains (lit "/") (unquoted body)) eqn:N; [reflexivity|].
    exfalso. apply Hn. rewrite <- Hu.
    apply orb_false_iff in N as [N Ns]. apply orb_false_iff in N as [Ne Nw].
    repeat split; try assumption.
    intro Z. rewrite Z in Ne. discriminate.
Qed.

(** X10.  The preview is the interpreter, the script and the tokens of
    the argument vector, in order, with one space between them.  Each is
    shown trimmed: as it is when that leaves a text that is not empty and
    has neither white space nor a slash in it, and only then; otherwise
    between double quotes, with a backslash before every double quote
    inside and nothing else changed.  This fixes the preview: no other
    list of pieces shows the tokens so. *)
Theorem preview_shows_tokens : forall (executable trade_py : str) (a : App),
  exists pieces,
    _update_preview executable trade_py a = join (lit " ") pieces
    /\ Forall2 shown_as (executable :: trade_py :: _build_args a) pieces
    /\ forall others,
         Forall2 shown_as (executable :: trade_py :: _build_args a) others ->
         others = pieces.
Proof.
  intros e t a. exists (map quote_double (e :: t :: _build_args a)).
  split; [reflexivity|].
  induction (e :: t :: _build_args a) as [|x l [IH1 IH2]].
  - split; [constructor|]. intros others H. now inversion H.
  - split; [constructor; [apply quote_double_shown|exact IH1]|].
    intros others H. inversion H as [|? p ? ps Hp Hps]; subst. simpl.
    f_equal; [now apply shown_as_quote_double|now apply IH2].
Qed.

(* ================================================================== *)
(** * The timer *)

Lemma format_02d_min : forall z, 2 <= length (format_02d z).
Proof.
  intro z. unfold format_02d. rewrite length_app, repeat_length.
  change (@length N) with (@length char). lia.
Qed.

Lemma format_02d_two : forall z, (0 <= z < 100)%Z -> length (format_02d z) = 2.
Proof.
  intros z Hz.
  assert (T : forallb (fun n => Nat.eqb (length (format_02d (Z.of_nat n))) 2) (seq 0 100)
              = true) by (vm_compute; reflexivity).
  rewrite forallb_forall in T.
  specialize (T (Z.to_nat z)). rewrite Z2Nat.id in T by lia.
  apply Nat.eqb_eq, T, in_seq. lia.
Qed.

(** X11.  The elapsed time shows as hours, minutes and seconds between
    colons: the three fields add up to the whole seconds of the time (none
    when the time is negative), minutes and seconds are below 60 and take
    two digits each, the hours take two digits or more; so that a time
    below a hundred hours shows in eight characters. *)
Theorem format_elapsed_fields : forall seconds : QArith_base.Q,
  exists h m s : Z,
    (0 <= h /\ 0 <= m < 60 /\ 0 <= s < 60
     /\ h * 3600 + m * 60 + s = Z.max 0 (int_of_float seconds))%Z
    /\ _format_elapsed seconds
       = format_02d h ++ lit ":" ++ format_02d m ++ lit ":" ++ format_02d s
    /\ 2 <= length (format_02d h)
    /\ length (format_02d m) = 2 /\ length (format_02d s) = 2
    /\ ((int_of_float seconds < 360000)%Z -> length (_format_elapsed seconds) = 8).
Proof.
  intro seconds. unfold _format_elapsed.
  set (sec := Z.max 0 (int_of_float seconds)).
  assert (P : (0 <= sec)%Z) by (unfold sec; lia).
  pose proof (Z.div_mod sec 3600 ltac:(lia)) as D1.
  pose proof (Z.mod_pos_bound sec 3600 ltac:(lia)) as B1.
  pose proof (Z.div_mod (sec mod 3600) 60 ltac:(lia)) as D2.
  pose proof (Z.mod_pos_bound (sec mod 3600) 60 ltac:(lia)) as B2.
  assert (Hh : (0 <= sec / 3600)%Z) by (apply Z.div_pos; lia).
  assert (Hm : (0 <= sec mod 3600 / 60 < 60)%Z).
  { split; [apply Z.div_pos; lia|apply Z.div_lt_upper_bound; lia]. }
  exists (sec / 3600)%Z, (sec mod 3600 / 60)%Z, ((sec mod 3600) mod 60)%Z.
  split; [repeat split; lia|]. split; [reflexivity|].
  split; [apply format_02d_min|].
  split; [apply format_02d_two; lia|].
  split; [apply format_02d_two; lia|].
  intro Hlt.
  assert (Hh' : (0 <= sec / 3600 < 100)%Z).
  { split; [assumption|apply Z.div_lt_upper_bound; lia]. }
  rewrite !length_app, !format_02d_two by lia. reflexivity.
Qed.

Lemma format_elapsed_fields_witness :
  _format_elapsed (QArith_base.Qmake 7325 2) = lit "01:01:02"
  /\ _format_elapsed (QArith_base.Qmake (-3) 2) = lit "00:00:00"
  /\ length (_format_elapsed (QArith_base.Qmake 7325 2)) = 8.
Proof.
  split; [vm_compute; reflexivity|]. split; [vm_compute; reflexivity|].
  destruct (format_elapsed_fields (QArith_base.Qmake 7325 2))
    as (h & m & s & _ & _ & _ & _ & _ & L).
  apply L. vm_compute. reflexivity.
Defined.

(* ================================================================== *)
(** * Wrapping a line *)

Lemma split_from_nonempty : forall sep s cur, split_from sep cur s <> [].
Proof.
  intros sep. induction s as [|c s IH]; intro cur; simpl; [discriminate|].
  destruct (N.eqb c sep); [discriminate|apply IH].
Qed.

Lemma join_cons : forall sep p q rest,
  join sep (p :: q :: rest) = p ++ sep ++ join sep (q :: rest).
Proof. reflexivity. Qed.

(** Splitting at a character and joining with it again gives the text
    back. *)
Lemma join_split_from : forall sep s cur,
  join [sep] (split_from sep cur s) = cur ++ s.
Proof.
  intros sep. induction s as [|c s IH]; intro cur; simpl.
  - now rewrite app_nil_r.
  - destruct (N.eqb c sep) eqn:E.
    + apply N.eqb_eq in E. subst c.
      destruct (split_from sep [] s) as [|q rest] eqn:S;
        [now apply split_from_nonempty in S|].
      rewrite join_cons, <- S, IH. reflexivity.
    + rewrite IH, <- app_assoc. reflexivity.
Qed.


Lemma ink_app : forall a b, ink (a ++ b) = ink a ++ ink b.
Proof. intros. unfold ink. apply filter_app. Qed.

Lemma ink_join : forall ws, ink (join (lit " ") ws) = ink (concat ws).
Proof.
  induction ws as [|w [|q rest] IH]; [reflexivity|simpl; now rewrite app_nil_r|].
  rewrite join_cons. cbn [concat]. rewrite !ink_app, IH. cbn [concat].
  rewrite ink_app. reflexivity.
Qed.

Section WrapLineFacts.
Variable fits : str -> bool.

Lemma wrap_word_eq : forall (out : list str) (cur w : str),
  wrap_word fits (out, cur) w
  = if fits (cur ++ (if nonempty cur then lit " " else []) ++ w)
    then (out, cur ++ (if nonempty cur then lit " " else []) ++ w)
    else (if nonempty cur then out ++ [cur] else out, w).
Proof. reflexivity. Qed.



Lemma final_lines_concat : forall (out : list str) (cur : str),
  concat (if nonempty cur then out ++ [cur] else out) = concat out ++ cur.
Proof.
  intros out [|c cur]; cbn [nonempty]; [now rewrite app_nil_r|].
  rewrite concat_app. simpl. now rewrite app_nil_r.
Qed.

(** The loop loses nothing but spaces. *)
Lemma wrap_word_ink : forall (ws out : list str) (cur : str),
  ink (concat (fst (fold_left (wrap_word fits) ws (out, cur)))
       ++ snd (fold_left (wrap_word fits) ws (out, cur)))
  = ink (concat out ++ cur) ++ ink (concat ws).
Proof.
  induction ws as [|w ws IH]; intros out cur.
  - simpl. now rewrite app_nil_r.
  - cbn [fold_left]. rewrite wrap_word_eq.
    destruct (fits (cur ++ (if nonempty cur then lit " " else []) ++ w)); cbv iota.
    + rewrite IH. cbn [concat]. rewrite !ink_app.
      destruct cur; simpl; now rewrite <- !app_assoc.
    + rewrite IH. destruct cur as [|c cur]; cbn [nonempty concat].
      * rewrite app_nil_r, !ink_app, <- !app_assoc. reflexivity.
      * rewrite concat_app. cbn [concat]. rewrite app_nil_r, !ink_app, <- !app_assoc.
        reflexivity.
Qed.

Lemma join_cons_ne : forall sep (p : str) rest,
  rest <> [] -> join sep (p :: rest) = p ++ sep ++ join sep rest.
Proof. intros sep p [|q rest] H; [contradiction|reflexivity]. Qed.

(** Two neighbours of a list joined by the separator beforehand do not
    change the joined text. *)
Lemma join_merge : forall sep (l : list str) a b r,
  join sep (l ++ (a ++ sep ++ b) :: r) = join sep (l ++ a :: b :: r).
Proof.
  intros sep. induction l as [|x l IH]; intros a b r.
  - cbn [app]. rewrite join_cons. destruct r as [|q r].
    + reflexivity.
    + rewrite !join_cons. now rewrite <- !app_assoc.
  - cbn [app]. rewrite !join_cons_ne by (now destruct l). now rewrite IH.
Qed.

(** The lines a state of the loop stands for. *)
Lemma wrap_word_join : forall (ws out : list str) (cur : str),
  Forall (fun w => w <> []) ws ->
  join (lit " ")
       (if nonempty (snd (fold_left (wrap_word fits) ws (out, cur)))
        then fst (fold_left (wrap_word fits) ws (out, cur))
             ++ [snd (fold_left (wrap_word fits) ws (out, cur))]
        else fst (fold_left (wrap_word fits) ws (out, cur)))
  = join (lit " ") ((if nonempty cur then out ++ [cur] else out) ++ ws).
Proof.
  induction ws as [|w ws IH]; intros out cur Hw.
  - simpl. now rewrite app_nil_r.
  - inversion Hw as [|? ? Hw1 Hws]; subst.
    cbn [fold_left]. rewrite wrap_word_eq.
    destruct w as [|c w]; [contradiction|].
    destruct (fits (cur ++ (if nonempty cur then lit " " else []) ++ c :: w)); cbv iota.
    + rewrite IH by assumption. destruct cur as [|d cur]; cbn [nonempty app].
      * now rewrite <- app_assoc.
      * rewrite <- !app_assoc. cbn [app].
        exact (join_merge (lit " ") out (d :: cur) (c :: w) ws).
    + rewrite IH by assumption. cbn [nonempty].
      destruct cur as [|d cur]; cbn [nonempty]; now rewrite <- !app_assoc.
Qed.

(** X13.  Wrapping loses nothing but spaces: the characters of the
    lines other than spaces are those of the text, tabs expanded, in
    order; and when the words of the text stand one space apart, the
    lines joined by single spaces are the text again. *)
Theorem wrap_line_keeps_the_words : forall s : str,
  ink (concat (wrap_line fits s)) = ink (expand_tabs s)
  /\ (Forall (fun w => w <> []) (split (chr " ") (expand_tabs s)) ->
      join (lit " ") (wrap_line fits s) = expand_tabs s).
Proof.
  intro s. unfold wrap_line. destruct (fits (expand_tabs s)).
  - split; [simpl; now rewrite app_nil_r|reflexivity].
  - pose proof (join_split_from (chr " ") (expand_tabs s) []) as J.
    split.
    + transitivity (ink (concat (split (chr " ") (expand_tabs s)))).
      * rewrite final_lines_concat.
        exact (wrap_word_ink (split (chr " ") (expand_tabs s)) [] []).
      * rewrite <- ink_join. f_equal. exact J.
    + intro Hw. etransitivity; [|exact J].
      exact (wrap_word_join (split (chr " ") (expand_tabs s)) [] [] Hw).
Qed.

End WrapLineFacts.


Lemma wrap_line_keeps_the_words_witness :
  let fits := fun s : str => length s <=? 12 in
  wrap_line fits (lit "Sol to Alpha Centauri") = [lit "Sol to Alpha"; lit "Centauri"]
  /\ join (lit " ") (wrap_line fits (lit "Sol to Alpha Centauri"))
     = lit "Sol to Alpha Centauri"
  /\ wrap_line fits (lit "  a  Procyon-Wolf-359x") = [lit "a "; lit "Procyon-Wolf-359x"].
Proof.
  intro fits. split; [vm_compute; reflexivity|]. split; [|vm_compute; reflexivity].
  destruct (wrap_line_keeps_the_words fits (lit "Sol to Alpha Centauri")) as [_ R].
  rewrite R; [reflexivity|].
  vm_compute. repeat constructor; discriminate.
Defined.

(* ================================================================== *)
(** * Loading the commands *)

Lemma specs_from_app : forall e1 e2 next,
  specs_from next (e1 ++ e2) = specs_from next e1 ++ specs_from (next + length e1) e2.
Proof.
  induction e1 as [|e e1 IH]; intros e2 next; simpl.
  - now rewrite Nat.add_0_r.
  - rewrite IH. now rewrite Nat.add_succ_r.
Qed.

Lemma specs_from_declared : forall entries next,
  map declared (specs_from next entries) = entries.
Proof.
  induction entries as [|[[] g] rest IH]; intro next; simpl; [reflexivity|].
  now rewrite IH.
Qed.

Lemma specs_from_oid : forall entries next,
  map oid (specs_from next entries) = seq next (length entries).
Proof.
  induction entries as [|e rest IH]; intro next; simpl; [reflexivity|].
  now rewrite IH.
Qed.

Lemma flatten_members : forall gid subs base entries,
  fold_left (flatten_member gid) subs
            (specs_from base entries, base + length entries)
  = (specs_from base (entries ++ map (fun d => (d, Some gid)) subs),
     base + length (entries ++ map (fun d => (d, Some gid)) subs)).
Proof.
  intros gid. induction subs as [|d subs IH]; intros base entries.
  - simpl. now rewrite app_nil_r.
  - cbn [fold_left]. unfold flatten_member at 2. cbn [fst snd].
    replace (specs_from base entries ++ [new_spec (base + length entries) d (Some gid)])
      with (specs_from base (entries ++ [(d, Some gid)]))
      by (now rewrite specs_from_app).
    replace (S (base + length entries)) with (base + length (entries ++ [(d, Some gid)]))
      by (rewrite length_app; simpl; lia).
    rewrite IH. cbn [map]. now rewrite <- app_assoc.
Qed.

Lemma flatten_items : forall items base entries,
  fold_left flatten_item items (specs_from base entries, base + length entries)
  = (specs_from base (entries ++ flat_map item_entries items),
     base + length (entries ++ flat_map item_entries items)).
Proof.
  induction items as [|item items IH]; intros base entries.
  - simpl. now rewrite app_nil_r.
  - cbn [fold_left flat_map]. rewrite app_assoc. rewrite <- IH. f_equal.
    destruct item as [d|gid subs].
    + unfold flatten_item. cbn [fst snd item_entries].
      rewrite specs_from_app, length_app. simpl. f_equal. lia.
    + unfold flatten_item. cbn [item_entries]. apply flatten_members.
Qed.

(** [_flatten_args] in one step. *)
Lemma flatten_args_specs : forall items next,
  _flatten_args items next
  = (specs_from next (entries_of items), next + length (entries_of items)).
Proof.
  intros items next. unfold _flatten_args, entries_of.
  pose proof (flatten_items (match items with Some l => l | None => [] end) next []) as H.
  simpl in H. rewrite Nat.add_0_r in H. exact H.
Qed.

(** X14.  [_flatten_args] returns one spec for every declaration, in the
    order of the declarations, the members of a mutual-exclusion group
    standing where the group stands: each spec has the names and keywords
    of its declaration; a member of a group has the identity of the group
    as its group, any other spec has none; and the specs are objects of
    their own, no two the same. *)
Theorem flatten_args_keeps_declarations : forall (items : option (list Item)) (next : nat),
  map declared (fst (_flatten_args items next)) = entries_of items
  /\ NoDup (map oid (fst (_flatten_args items next)))
  /\ NoDup (fst (_flatten_args items next)).
Proof.
  intros items next. rewrite flatten_args_specs. cbn [fst].
  assert (N : NoDup (map oid (specs_from next (entries_of items)))).
  { rewrite specs_from_oid. apply seq_NoDup. }
  split; [apply specs_from_declared|]. split; [exact N|].
  now apply NoDup_map_inv with (f := oid).
Qed.

Lemma load_command_eq : forall metas next n md,
  load_command (metas, next) (n, md)
  = (dict_set str_eqb n
       {| name := n;
          arguments := specs_from next (entries_of (m_arguments md));
          switches := specs_from (next + length (entries_of (m_arguments md)))
                                 (entries_of (m_switches md));
          fixed_args := None |} metas,
     next + length (entries_of (m_arguments md)) + length (entries_of (m_switches md))).
Proof.
  intros metas next n md. unfold load_command. cbn [fst snd].
  now rewrite !flatten_args_specs.
Qed.

(** The loop over the index: a name that is not in the index keeps its
    entry, and a name of the index gets the command of its module. *)
Lemma load_commands_loop : forall idx metas next,
  (forall n, ~ In n (map fst idx) ->
             dict_get str_eqb n (fst (fold_left load_command idx (metas, next)))
             = dict_get str_eqb n metas)
  /\ (NoDup (map fst idx) ->
      forall n md, In (n, md) idx ->
      exists k1 k2,
        dict_get str_eqb n (fst (fold_left load_command idx (metas, next)))
        = Some {| name := n;
                  arguments := specs_from k1 (entries_of (m_arguments md));
                  switches := specs_from k2 (entries_of (m_switches md));
                  fixed_args := None |}).
Proof.
  induction idx as [|[n0 md0] idx IH]; intros metas next.
  - split; [reflexivity|intros _ n md []].
  - cbn [fold_left]. rewrite load_command_eq.
    match goal with
    | |- context [fold_left load_command idx (?m, ?k)] =>
        destruct (IH m k) as [Out Inn]
    end.
    split.
    + intros n Hn. rewrite Out by (intro H; apply Hn; now right).
      apply dict_get_set_other; [apply str_eqb_eq|].
      intros ->. apply Hn. now left.
    + intros N n md Hin. inversion N as [|? ? Hn0 Nidx]; subst.
      destruct Hin as [E|Hin].
      * injection E as -> ->. rewrite Out by assumption.
        eexists _, _. apply dict_get_set_same, str_eqb_eq.
      * now apply Inn.
Qed.

Lemma load_commands_entry : forall idx n md,
  NoDup (map fst idx) -> In (n, md) idx -> n <> lit "Update/Rebuild DB" ->
  exists k1 k2,
    dict_get str_eqb n (load_commands idx)
    = Some {| name := n;
              arguments := specs_from k1 (entries_of (m_arguments md));
              switches := specs_from k2 (entries_of (m_switches md));
              fixed_args := None |}.
Proof.
  intros idx n md N Hin Hn. unfold load_commands.
  destruct (load_commands_loop idx [] 0) as [_ Inn].
  destruct (Inn N n md Hin) as (k1 & k2 & E). exists k1, k2.
  rewrite dict_get_set_other; [exact E|apply str_eqb_eq|exact Hn].
Qed.

(** X15.  The catalogue [load_commands] returns: under its own label the
    composite command that imports with the fixed arguments, whatever the
    index holds; under every other name of the index a command of that
    name, without fixed arguments, whose arguments and switches are the
    declarations of the module; and nothing else. *)
Theorem load_commands_catalogue : forall idx : list (str * CommandModule),
  NoDup (map fst idx) ->
  dict_get str_eqb (lit "Update/Rebuild DB") (load_commands idx) = Some rebuild_meta
  /\ (forall n md, In (n, md) idx -> n <> lit "Update/Rebuild DB" ->
        exists m, dict_get str_eqb n (load_commands idx) = Some m
                  /\ name m = n /\ fixed_args m = None
                  /\ map declared (arguments m) = entries_of (m_arguments md)
                  /\ map declared (switches m) = entries_of (m_switches md))
  /\ (forall n, dict_get str_eqb n (load_commands idx) <> None ->
                n = lit "Update/Rebuild DB" \/ In n (map fst idx)).
Proof.
  intros idx N. split; [|split].
  - unfold load_commands. apply dict_get_set_same, str_eqb_eq.
  - intros n md Hin Hn.
    destruct (load_commands_entry idx n md N Hin Hn) as (k1 & k2 & E).
    eexists. split; [exact E|]. cbn [name fixed_args arguments switches].
    now rewrite !specs_from_declared.
  - intros n H.
    destruct (str_eq_dec n (lit "Update/Rebuild DB")) as [->|Hn]; [now left|right].
    destruct (in_dec str_eq_dec n (map fst idx)) as [Hin|Hout]; [assumption|exfalso].
    apply H. unfold load_commands.
    rewrite dict_get_set_other; [|apply str_eqb_eq|exact Hn].
    destruct (load_commands_loop idx [] 0) as [Out _]. now rewrite Out.
Qed.

Lemma small_index_names : NoDup (map fst small_index).
Proof.
  repeat constructor; intro H; simpl in H;
    repeat (destruct H as [H|H]; [discriminate|]); exact H.
Qed.

Lemma load_commands_catalogue_witness :
  NoDup (map fst small_index)
  /\ dict_get str_eqb (lit "Update/Rebuild DB") (load_commands small_index)
     = Some rebuild_meta
  /\ map fst (load_commands small_index)
     = map lit ["market"; "station"; "Update/Rebuild DB"]%string
  /\ option_map (fun m => map group_id (switches m))
                (dict_get str_eqb (lit "market") (load_commands small_index))
     = Some [Some 7; Some 7].
Proof.
  split; [exact small_index_names|].
  destruct (load_commands_catalogue small_index small_index_names) as (R & _ & _).
  split; [exact R|]. split; vm_compute; reflexivity.
Defined.

Lemma specs_from_group : forall entries next s,
  In s (specs_from next entries) -> In (group_id s) (map snd entries).
Proof.
  induction entries as [|e entries IH]; intros next s H; [contradiction|].
  destruct H as [<-|H]; [now left|right; now apply IH with (S next)].
Qed.

Lemma plain_entries : forall items g,
  plain_items items -> ~ In (Some g) (map snd (entries_of items)).
Proof.
  intros items g P. unfold entries_of, plain_items in *.
  induction (match items with Some l => l | None => [] end) as [|item l IH];
    [intros []|].
  cbn [flat_map]. rewrite map_app. intro H. apply in_app_or in H as [H|H].
  - destruct item as [d|g0 ds].
    + destruct H as [H|[]]. discriminate.
    + apply (P g0 ds). now left.
  - apply IH; [|exact H]. intros g0 ds Hin. apply (P g0 ds). now right.
Qed.

(** X16.  A module that declares no mutual-exclusion group among its
    arguments loads into a command none of whose required arguments is in
    a group: every group of the command is a group of switches. *)
Theorem loaded_groups_are_switch_groups :
  forall (idx : list (str * CommandModule)) (n : str) (md : CommandModule) (m : CommandMeta),
  NoDup (map fst idx) -> In (n, md) idx -> n <> lit "Update/Rebuild DB" ->
  plain_items (m_arguments md) ->
  dict_get str_eqb n (load_commands idx) = Some m ->
  ungrouped_arguments m /\ forall g, group_of_switches m g.
Proof.
  intros idx n md m N Hin Hn P E.
  destruct (load_commands_entry idx n md N Hin Hn) as (k1 & k2 & E').
  rewrite E' in E. injection E as <-.
  assert (U : forall s, In s (specs_from k1 (entries_of (m_arguments md))) ->
                        group_id s = None).
  { intros s Hs. apply specs_from_group in Hs.
    destruct (group_id s) as [g|]; [|reflexivity].
    now apply plain_entries in Hs. }
  split.
  - exact U.
  - intros g s Hs. cbn [arguments] in Hs. rewrite (U s Hs). discriminate.
Qed.

Lemma loaded_groups_are_switch_groups_witness :
  exists m,
    dict_get str_eqb (lit "market") (load_commands small_index) = Some m
    /\ ungrouped_arguments m /\ group_of_switches m 7.
Proof.
  destruct (dict_get str_eqb (lit "market") (load_commands small_index)) as [m|] eqn:E;
    [|vm_compute in E; discriminate].
  exists m. split; [reflexivity|].
  assert (P : plain_items (m_arguments market_module)).
  { intros g ds H. simpl in H. destruct H as [H|[]]. discriminate. }
  destruct (loaded_groups_are_switch_groups small_index (lit "market") market_module m
              small_index_names (or_introl eq_refl) ltac:(discriminate) P E) as [U G].
  split; [exact U|exact (G 7)].
Defined.

(* ================================================================== *)
(** * The steps of the engine *)

Lemma works_trans : forall a b c, works a b -> works b c -> works a c.
Proof.
  intros a b c H1 H2. induction H2; [assumption| | | | |]; constructor; now apply IHworks.
Qed.

(** What no step touches stays as it is. *)
Lemma works_field : forall (T : Type) (f : App -> T),
  (forall x b, f (set_widget_vars x b) = f b) ->
  (forall x b, f (set_selected x b) = f b) ->
  (forall x b, f (set_output x b) = f b) ->
  (forall p fl b, f (set_prefs_file fl (set_prefs p b)) = f b) ->
  forall a b, works a b -> f b = f a.
Proof.
  intros T f Hv Hr Ho Hp a b W. induction W as [a|a b x W IH|a b x W IH|a b x W IH|a b W IH|a b l W IH].
  - reflexivity.
  - now rewrite Hv.
  - now rewrite Hr.
  - now rewrite Ho.
  - destruct (save_prefs_frame b) as (p & fl & ->). now rewrite Hp.
  - destruct (save_state_frame l b) as (p & fl & ->). now rewrite Hp.
Qed.

Create HintDb engine.
#[local] Hint Constructors works : engine.

Lemma works_ensure_row : forall s a, works a (_ensure_selected_row s a).
Proof.
  intros s a. unfold _ensure_selected_row.
  destruct (dict_mem spec_is s (_selected a)); auto with engine.
Qed.

Lemma works_remove_row : forall s a, works a (_remove_selected_row s a).
Proof.
  intros s a. unfold _remove_selected_row. destruct (row_of a s); auto with engine.
Qed.

Lemma works_clear : forall o a, works a (sel_var_clear o a).
Proof.
  intros o a. unfold sel_var_clear. apply works_save.
  eapply works_trans; [|apply works_remove_row]. auto with engine.
Qed.

Lemma works_unselect_group : forall s a, works a (unselect_group s a).
Proof.
  intros s a. unfold unselect_group.
  apply fold_left_invariant with (P := works a); [apply works_refl|].
  intros b o Hb. eapply works_trans; [exact Hb|].
  destruct (unselect_other_cases s b o) as [->|(_ & _ & _ & ->)];
    [apply works_refl|apply works_clear].
Qed.

Lemma works_toggle : forall s sel a, works a (_on_toggle_option s sel a).
Proof.
  intros s sel a. unfold _on_toggle_option.
  set (a1 := if sel && match group_id s with Some _ => true | None => false end
             then unselect_group s a else a).
  assert (W : works a a1)
    by (unfold a1; destruct (sel && _); [apply works_unselect_group|apply works_refl]).
  eapply works_trans; [exact W|].
  destruct sel; [apply works_ensure_row|apply works_remove_row].
Qed.

Lemma works_sel_var_set : forall s b a, works a (sel_var_set s b a).
Proof.
  intros s b a. unfold sel_var_set. apply works_save.
  eapply works_trans; [|apply works_toggle]. auto with engine.
Qed.

Lemma works_row_flag_set : forall s b a, works a (row_flag_set s b a).
Proof.
  intros s b a. unfold row_flag_set. destruct (row_of a s) as [[]|]; auto with engine.
Qed.

Lemma works_row_value_set : forall s v a, works a (row_value_set s v a).
Proof.
  intros s v a. unfold row_value_set. destruct (row_of a s) as [[]|]; auto with engine.
Qed.

#[local] Hint Resolve works_ensure_row works_remove_row works_clear works_unselect_group
  works_toggle works_sel_var_set works_row_flag_set works_row_value_set : engine.

Lemma works_restore_row : forall s a, works a (fst (restore_row s a)).
Proof.
  intros s a. unfold restore_row.
  destruct (saved_option a s) as [[opt|]|]; try apply works_refl.
  destruct (is_flag s).
  - destruct opt; simpl; auto with engine.
  - destruct opt; simpl; try apply works_refl.
    destruct (jget "value" d); simpl; auto with engine.
Qed.

Lemma works_restore_spec : forall m s a, works a (fst (restore_spec m s a)).
Proof.
  intros m s a. unfold restore_spec.
  destruct (saved_option a s) as [[opt|]|]; try apply works_refl.
  destruct (negb (truthy opt)); [apply works_refl|].
  assert (K : forall b, works a match sel_var a s with
                                | Some _ => sel_var_set s b a
                                | None => a
                                end)
    by (intro b; destruct (sel_var a s); auto with engine).
  assert (T : forall b0,
            works a (fst (restore_row s (_ensure_selected_row s
                            match sel_var a s with
                            | Some _ => sel_var_set s b0 a
                            | None => a
                            end)))).
  { intro b0. eapply works_trans; [|apply works_restore_row].
    eapply works_trans; [apply K|apply works_ensure_row]. }
  destruct (spec_in s (arguments m)); [apply T|].
  destruct opt; try apply works_refl.
  destruct (truthy (jget_default "selected" (JBool false) d)); [apply T|apply K].
Qed.

Lemma works_restore_specs : forall m specs a, works a (fst (restore_specs m specs a)).
Proof.
  intros m specs. induction specs as [|s specs IH]; intro a; [apply works_refl|].
  simpl. pose proof (works_restore_spec m s a) as K.
  destruct (restore_spec m s a) as [a1 [|]]; [|exact K].
  eapply works_trans; [exact K|apply IH].
Qed.

Lemma works_apply_saved_state : forall a, works a (_apply_saved_state_for_current a).
Proof.
  intro a. unfold _apply_saved_state_for_current.
  destruct (current_meta a) as [m|]; [|apply works_refl].
  destruct (saved_state a); [|apply works_refl].
  pose proof (works_restore_specs m (categorized_specs m) a) as K.
  destruct (restore_specs m (categorized_specs m) a) as [a1 [|]]; [|exact K].
  eapply works_trans; [exact K|]. unfold restore_output.
  destruct (saved_state a1) as [st|]; [|apply works_refl].
  destruct (jget "output" st) as [[]|]; auto with engine.
Qed.

Lemma works_build_options : forall m specs a, works a (fold_left (build_option m) specs a).
Proof.
  intros m specs a.
  apply fold_left_invariant with (P := works a); [apply works_refl|].
  intros b s Hb. unfold build_option.
  destruct ((spec_in s (arguments m) && negb (is_flag s)) || spec_in s (arguments m)).
  - eapply works_trans; [|apply works_ensure_row]. auto with engine.
  - auto with engine.
Qed.

#[local] Hint Resolve works_restore_row works_restore_spec works_restore_specs
  works_apply_saved_state works_build_options : engine.

(** [_on_command_change] in three parts: the save of the command shown
    so far, the change of the command, and the steps that build and fill
    the selector. *)
Lemma on_command_change_parts : forall a,
  exists a0, works a a0
    /\ match dict_get str_eqb (cmd_var a0) (cmd_metas a0) with
       | None =>
           _on_command_change a
           = set_selected [] (set_widget_vars [] (set_current_meta None a0))
       | Some m =>
           exists b,
             works (set_current_meta (Some m) a0) b
             /\ _on_command_change a = set_current_cmd_label (Some (cmd_var a0)) b
       end.
Proof.
  intro a. unfold _on_command_change.
  set (a0 := match _current_cmd_label a, current_meta a with
             | Some prev_label, Some _ =>
                 if nonempty prev_label then _save_state_for_label prev_label a else a
             | _, _ => a
             end).
  exists a0. split.
  - unfold a0. destruct (_current_cmd_label a) as [l|]; [|apply works_refl].
    destruct (current_meta a); [|apply works_refl].
    destruct (nonempty l); auto with engine.
  - destruct (dict_get str_eqb (cmd_var a0) (cmd_metas a0)) as [m|]; [|reflexivity].
    eexists. split; [|reflexivity].
    apply works_save. eapply works_trans; [|apply works_apply_saved_state].
    eapply works_trans; [|apply works_build_options].
    unfold _clear_option_frames. auto with engine.
Qed.

(* ================================================================== *)
(** * What the engine leaves alone *)

Section Kept.
Variable T : Type.
Variable f : App -> T.
Hypothesis K : kept_by_engine f.

Lemma kept_works : forall a b, works a b -> f b = f a.
Proof.
  destruct K as (Hv & Hr & Ho & Hp & _ & _). now apply works_field.
Qed.

Lemma kept_save : forall a, f (_save_prefs a) = f a.
Proof. intro a. apply kept_works. auto with engine. Qed.

Lemma kept_on_command_change : forall a, f (_on_command_change a) = f a.
Proof.
  intro a. destruct (on_command_change_parts a) as (a0 & W0 & H).
  pose proof (kept_works _ _ W0) as E0.
  destruct K as (Hv & Hr & _ & _ & Hm & Hl).
  destruct (dict_get str_eqb (cmd_var a0) (cmd_metas a0)) as [m|].
  - destruct H as (b & W & ->). rewrite Hl, (kept_works _ _ W), Hm. exact E0.
  - rewrite H, Hr, Hv, Hm. exact E0.
Qed.

Lemma kept_swap : forall dest a,
  (forall x b, f (set_cmd_var x b) = f b) ->
  f (_swap_from_to_dest dest a) = f a.
Proof.
  intros dest a Hc. unfold _swap_from_to_dest.
  set (shown := if match current_meta a with
                   | Some m => str_eqb (name m) (lit "run")
                   | None => false
                   end
                then Some a
                else if dict_mem str_eqb (lit "run") (cmd_metas a)
                     then Some (_on_command_change (set_cmd_var (lit "run") a))
                     else None).
  assert (S : forall a1, shown = Some a1 -> f a1 = f a).
  { intro a1. unfold shown.
    destruct (match current_meta a with
              | Some m => str_eqb (name m) (lit "run")
              | None => false
              end); [intro E; now injection E as <-|].
    destruct (dict_mem str_eqb (lit "run") (cmd_metas a)); [|discriminate].
    intro E. injection E as <-. now rewrite kept_on_command_change, Hc. }
  destruct shown as [a1|]; [|reflexivity]. specialize (S a1 eq_refl).
  destruct (current_meta a1) as [m|]; [|exact S].
  destruct (find is_from_spec (arguments m ++ switches m)) as [spec|]; [|exact S].
  rewrite <- S. apply kept_works. apply works_save.
  assert (W2 : works a1 match sel_var a1 spec with
                        | Some false => _ensure_selected_row spec (sel_var_set spec true a1)
                        | _ => a1
                        end).
  { destruct (sel_var a1 spec) as [[|]|]; try apply works_refl.
    eapply works_trans; [apply works_sel_var_set|apply works_ensure_row]. }
  destruct (row_of _ spec) as [[]|]; try exact W2.
  eapply works_trans; [exact W2|apply works_row_value_set].
Qed.

(** The step of [_reset_defaults] that shows the first command. *)
Lemma kept_first_command : forall b,
  (forall x a, f (set_cmd_var x a) = f a) ->
  f match sorted (map fst (cmd_metas b)) with
    | first :: _ => _on_command_change (set_cmd_var first b)
    | [] => b
    end = f b.
Proof.
  intros b Hc. destruct (sorted (map fst (cmd_metas b))) as [|first rest]; [reflexivity|].
  now rewrite kept_on_command_change, Hc.
Qed.

End Kept.

Lemma globals_kept : kept_by_engine globals.
Proof. repeat split. Qed.

Lemma cmd_metas_kept : kept_by_engine cmd_metas.
Proof. repeat split. Qed.

Lemma cmd_var_kept : kept_by_engine cmd_var.
Proof. repeat split. Qed.

(** A write of a global option saves; the save leaves the six options
    and the catalogue. *)
Lemma globals_cwd_set : forall v a,
  globals (cwd_var_set v a)
  = match globals a with (_, d, l, (de, q, g)) => (v, d, l, (de, q, g)) end.
Proof. intros. unfold cwd_var_set. now rewrite (kept_save _ _ globals_kept). Qed.

Lemma globals_db_set : forall v a,
  globals (db_var_set v a)
  = match globals a with (c, _, l, (de, q, g)) => (c, v, l, (de, q, g)) end.
Proof. intros. unfold db_var_set. now rewrite (kept_save _ _ globals_kept). Qed.

Lemma globals_linkly_set : forall v a,
  globals (linkly_var_set v a)
  = match globals a with (c, d, _, (de, q, g)) => (c, d, v, (de, q, g)) end.
Proof. intros. unfold linkly_var_set. now rewrite (kept_save _ _ globals_kept). Qed.

Lemma globals_detail_set : forall z a,
  globals (detail_var_set z a)
  = match globals a with (c, d, l, (_, q, g)) => (c, d, l, (z, q, g)) end.
Proof. intros. unfold detail_var_set. now rewrite (kept_save _ _ globals_kept). Qed.

Lemma globals_quiet_set : forall z a,
  globals (quiet_var_set z a)
  = match globals a with (c, d, l, (de, _, g)) => (c, d, l, (de, z, g)) end.
Proof. intros. unfold quiet_var_set. now rewrite (kept_save _ _ globals_kept). Qed.

Lemma globals_debug_set : forall z a,
  globals (debug_var_set z a)
  = match globals a with (c, d, l, (de, q, _)) => (c, d, l, (de, q, z)) end.
Proof. intros. unfold debug_var_set. now rewrite (kept_save _ _ globals_kept). Qed.

(** An attribute that neither a save nor a write of a global option
    touches comes through the six writes of [_reset_defaults]. *)
Section Writes.
Variable T : Type.
Variable f : App -> T.
Hypothesis saved : forall a, f (_save_prefs a) = f a.
Hypothesis written : forall a,
  (forall v, f (set_cwd_var v a) = f a)
  /\ (forall v, f (set_db_var v a) = f a)
  /\ (forall v, f (set_linkly_var v a) = f a)
  /\ (forall z, f (set_detail_var z a) = f a)
  /\ (forall z, f (set_quiet_var z a) = f a)
  /\ (forall z, f (set_debug_var z a) = f a).

Lemma reset_writes_keep : forall a,
  f (debug_var_set 0 (quiet_var_set 0 (detail_var_set 0
       (linkly_var_set [] (db_var_set [] (cwd_var_set [] a))))))
  = f a.
Proof.
  intro a.
  unfold debug_var_set. rewrite saved.
  rewrite (proj2 (proj2 (proj2 (proj2 (proj2 (written _))))) 0%Z).
  unfold quiet_var_set. rewrite saved.
  rewrite (proj1 (proj2 (proj2 (proj2 (proj2 (written _))))) 0%Z).
  unfold detail_var_set. rewrite saved.
  rewrite (proj1 (proj2 (proj2 (proj2 (written _)))) 0%Z).
  unfold linkly_var_set. rewrite saved.
  rewrite (proj1 (proj2 (proj2 (written _))) []).
  unfold db_var_set. rewrite saved.
  rewrite (proj1 (proj2 (written _)) []).
  unfold cwd_var_set. rewrite saved.
  exact (proj1 (written _) []).
Qed.

End Writes.

(** The writes of [_reset_defaults]. *)
Lemma reset_writes_globals : forall a,
  globals (debug_var_set 0 (quiet_var_set 0 (detail_var_set 0
             (linkly_var_set [] (db_var_set [] (cwd_var_set [] a))))))
  = ([], [], [], (0, 0, 0))%Z
  /\ cmd_metas (debug_var_set 0 (quiet_var_set 0 (detail_var_set 0
                   (linkly_var_set [] (db_var_set [] (cwd_var_set [] a))))))
     = cmd_metas a.
Proof.
  intro a. split.
  - rewrite globals_debug_set, globals_quiet_set, globals_detail_set,
            globals_linkly_set, globals_db_set, globals_cwd_set.
    now destruct (globals a) as [[[c d] l] [[de q] g]].
  - apply reset_writes_keep; [apply kept_save, cmd_metas_kept|now repeat split].
Qed.

(** X17.  Each global option changes by its own widget and by the reset
    button only: typing into the working-directory, database or
    link-distance entry, or turning one of the three spin boxes, writes
    that option and leaves the five others; the reset empties the three
    texts and zeroes the three counters; and whatever else the user does
    (choosing a command, ticking and filling options, a run, the button of
    a route card) leaves all six as they are.  The catalogue never
    changes. *)
Theorem global_options_change_by_their_widgets : forall (a : App) (e : event),
  globals (handle a e) = globals_after a e
  /\ cmd_metas (handle a e) = cmd_metas a.
Proof.
  intros a e.
  assert (G : forall b, works a b -> globals b = globals a)
    by (apply kept_works, globals_kept).
  assert (M : forall b, works a b -> cmd_metas b = cmd_metas a)
    by (apply kept_works, cmd_metas_kept).
  destruct e as [s|s v|s|n|v|v|v|z|z|z|out|dest|]; cbn [handle globals_after].
  - assert (W : works a match sel_var a s with
                        | Some b => if is_required a s then a else sel_var_set s (negb b) a
                        | None => a
                        end)
      by (destruct (sel_var a s); [destruct (is_required a s)|]; auto with engine).
    split; [now apply G|now apply M].
  - split; [apply G|apply M]; auto with engine.
  - assert (W : works a match row_of a s with
                        | Some (RowFlag b) => row_flag_set s (negb b) a
                        | _ => a
                        end)
      by (destruct (row_of a s) as [[]|]; auto with engine).
    split; [now apply G|now apply M].
  - destruct (dict_mem str_eqb n (cmd_metas a)); [|now split].
    split.
    + now rewrite (kept_on_command_change _ _ globals_kept).
    + now rewrite (kept_on_command_change _ _ cmd_metas_kept).
  - unfold cwd_var_set.
    now rewrite (kept_save _ _ globals_kept), (kept_save _ _ cmd_metas_kept).
  - unfold db_var_set.
    now rewrite (kept_save _ _ globals_kept), (kept_save _ _ cmd_metas_kept).
  - unfold linkly_var_set.
    now rewrite (kept_save _ _ globals_kept), (kept_save _ _ cmd_metas_kept).
  - unfold detail_var_set.
    now rewrite (kept_save _ _ globals_kept), (kept_save _ _ cmd_metas_kept).
  - unfold quiet_var_set.
    now rewrite (kept_save _ _ globals_kept), (kept_save _ _ cmd_metas_kept).
  - unfold debug_var_set.
    now rewrite (kept_save _ _ globals_kept), (kept_save _ _ cmd_metas_kept).
  - now rewrite (kept_save _ _ globals_kept), (kept_save _ _ cmd_metas_kept).
  - split.
    + now apply (kept_swap _ _ globals_kept).
    + now apply (kept_swap _ _ cmd_metas_kept).
  - unfold _reset_defaults. cbv zeta.
    rewrite (kept_save _ _ globals_kept), (kept_save _ _ cmd_metas_kept).
    rewrite (kept_first_command _ _ globals_kept),
            (kept_first_command _ _ cmd_metas_kept); try reflexivity.
    exact (reset_writes_globals _).
Qed.


Lemma global_options_change_by_their_widgets_witness :
  globals (handle (session NoFile [TypeCwd (lit "/data")]) (ChooseCommand (lit "local")))
  = (lit "/data", [], [], (0, 0, 0))%Z
  /\ globals (handle (session NoFile [TypeCwd (lit "/data")]) (SpinDebug 2))
     = (lit "/data", [], [], (0, 0, 2))%Z
  /\ globals (handle (session NoFile [TypeCwd (lit "/data")]) Reset)
     = ([], [], [], (0, 0, 0))%Z.
Proof.
  split; [|split].
  - rewrite (proj1 (global_options_change_by_their_widgets
                      (session NoFile [TypeCwd (lit "/data")])
                      (ChooseCommand (lit "local")))).
    vm_compute. reflexivity.
  - rewrite (proj1 (global_options_change_by_their_widgets
                      (session NoFile [TypeCwd (lit "/data")]) (SpinDebug 2))).
    vm_compute. reflexivity.
  - rewrite (proj1 (global_options_change_by_their_widgets
                      (session NoFile [TypeCwd (lit "/data")]) Reset)).
    vm_compute. reflexivity.
Defined.

(* ================================================================== *)
(** * The command box and the command shown *)

Lemma in_insert_sorted : forall x l y, In y (insert_sorted x l) <-> y = x \/ In y l.
Proof.
  intros x l y. induction l as [|z l IH]; simpl.
  - split; intros [H|H]; auto.
  - destruct (str_ltb z x); simpl; [rewrite IH|]; intuition.
Qed.

Lemma in_sorted : forall l y, In y (sorted l) <-> In y l.
Proof.
  induction l as [|x l IH]; intro y; simpl; [tauto|].
  rewrite in_insert_sorted, IH. intuition.
Qed.

Lemma dict_mem_keys : forall (V : Type) k (d : list (str * V)),
  In k (map fst d) -> dict_mem str_eqb k d = true.
Proof.
  intros V k d. unfold dict_mem. induction d as [|[k' v] d IH]; simpl; [intros []|].
  destruct (str_eqb k k') eqn:E; [reflexivity|].
  intros [H|H]; [subst; now rewrite str_eqb_refl in E|now apply IH].
Qed.

(** The first command of the box is a command of the catalogue. *)
Lemma first_in_catalogue : forall (metas : list (str * CommandMeta)) first rest,
  sorted (map fst metas) = first :: rest ->
  dict_mem str_eqb first metas = true /\ metas <> [].
Proof.
  intros metas first rest E.
  assert (H : In first (map fst metas)) by (apply in_sorted; rewrite E; now left).
  split; [now apply dict_mem_keys|]. intros ->. contradiction.
Qed.

Lemma sorted_nil : forall l, sorted l = [] -> l = [].
Proof.
  intros [|x l] E; [reflexivity|exfalso].
  assert (H : In x (sorted (x :: l))) by (apply in_sorted; now left).
  rewrite E in H. contradiction.
Qed.

Lemma current_meta_works : forall a b, works a b -> current_meta b = current_meta a.
Proof. apply works_field; reflexivity. Qed.

Lemma current_meta_save : forall a, current_meta (_save_prefs a) = current_meta a.
Proof. intro a. apply current_meta_works. auto with engine. Qed.

Lemma box_works : forall a b, works a b -> box_in_step a -> box_in_step b.
Proof.
  intros a b W [J M]. unfold box_in_step.
  rewrite (current_meta_works _ _ W), (kept_works _ _ cmd_var_kept _ _ W),
          (kept_works _ _ cmd_metas_kept _ _ W).
  now split.
Qed.

Lemma box_on_command_change : forall a,
  (cmd_metas a <> [] -> dict_mem str_eqb (cmd_var a) (cmd_metas a) = true) ->
  box_in_step (_on_command_change a).
Proof.
  intros a M. unfold box_in_step.
  rewrite (kept_on_command_change _ _ cmd_var_kept),
          (kept_on_command_change _ _ cmd_metas_kept).
  split; [|exact M].
  destruct (on_command_change_parts a) as (a0 & W0 & H).
  rewrite (kept_works _ _ cmd_var_kept _ _ W0),
          (kept_works _ _ cmd_metas_kept _ _ W0) in H.
  destruct (dict_get str_eqb (cmd_var a) (cmd_metas a)) as [m|].
  - destruct H as (b & W & ->). cbn [current_meta set_current_cmd_label].
    now rewrite (current_meta_works _ _ W).
  - now rewrite H.
Qed.

Lemma box_first_command : forall b,
  box_in_step b ->
  box_in_step match sorted (map fst (cmd_metas b)) with
              | first :: _ => _on_command_change (set_cmd_var first b)
              | [] => b
              end.
Proof.
  intros b B. destruct (sorted (map fst (cmd_metas b))) as [|first rest] eqn:E; [exact B|].
  apply box_on_command_change. intros _. exact (proj1 (first_in_catalogue _ _ _ E)).
Qed.

Lemma box_reset_writes : forall a,
  box_in_step a ->
  box_in_step (debug_var_set 0 (quiet_var_set 0 (detail_var_set 0
                 (linkly_var_set [] (db_var_set [] (cwd_var_set [] a)))))).
Proof.
  intros a [J M].
  set (b := debug_var_set 0 _).
  assert (Hs : current_meta b = current_meta a)
    by (apply reset_writes_keep; [apply current_meta_save|now repeat split]).
  assert (Hv : cmd_var b = cmd_var a)
    by (apply reset_writes_keep; [apply kept_save, cmd_var_kept|now repeat split]).
  assert (Hm : cmd_metas b = cmd_metas a)
    by (apply reset_writes_keep; [apply kept_save, cmd_metas_kept|now repeat split]).
  clearbody b. unfold box_in_step. rewrite Hs, Hv, Hm. now split.
Qed.

Lemma box_handle : forall a e, box_in_step a -> box_in_step (handle a e).
Proof.
  intros a e B.
  assert (set_ok : forall b, works a b -> box_in_step b)
    by (intros b W; now apply box_works with a).
  destruct e as [s|s v|s|n|v|v|v|z|z|z|out|dest|]; cbn [handle].
  - destruct (sel_var a s); [destruct (is_required a s)|]; auto with engine.
  - auto with engine.
  - destruct (row_of a s) as [[]|]; auto with engine.
  - destruct (dict_mem str_eqb n (cmd_metas a)) eqn:D; [|exact B].
    apply box_on_command_change. intros _. exact D.
  - apply box_works with (set_cwd_var v a); [unfold cwd_var_set; auto with engine|exact B].
  - apply box_works with (set_db_var v a); [unfold db_var_set; auto with engine|exact B].
  - apply box_works with (set_linkly_var v a);
      [unfold linkly_var_set; auto with engine|exact B].
  - apply box_works with (set_detail_var z a);
      [unfold detail_var_set; auto with engine|exact B].
  - apply box_works with (set_quiet_var z a);
      [unfold quiet_var_set; auto with engine|exact B].
  - apply box_works with (set_debug_var z a);
      [unfold debug_var_set; auto with engine|exact B].
  - auto with engine.
  - unfold _swap_from_to_dest.
    set (shown := if match current_meta a with
                     | Some m => str_eqb (name m) (lit "run")
                     | None => false
                     end
                  then Some a
                  else if dict_mem str_eqb (lit "run") (cmd_metas a)
                       then Some (_on_command_change (set_cmd_var (lit "run") a))
                       else None).
    assert (S : forall a1, shown = Some a1 -> box_in_step a1).
    { intro a1. unfold shown.
      destruct (match current_meta a with
                | Some m => str_eqb (name m) (lit "run")
                | None => false
                end); [intro E; injection E as <-; exact B|].
      destruct (dict_mem str_eqb (lit "run") (cmd_metas a)) eqn:D; [|discriminate].
      intro E. injection E as <-. apply box_on_command_change. intros _. exact D. }
    destruct shown as [a1|]; [|exact B]. specialize (S a1 eq_refl).
    destruct (current_meta a1) as [m|]; [|exact S].
    destruct (find is_from_spec (arguments m ++ switches m)) as [spec|]; [|exact S].
    apply box_works with a1; [|exact S]. apply works_save.
    assert (W2 : works a1 match sel_var a1 spec with
                          | Some false => _ensure_selected_row spec (sel_var_set spec true a1)
                          | _ => a1
                          end).
    { destruct (sel_var a1 spec) as [[|]|]; try apply works_refl.
      eapply works_trans; [apply works_sel_var_set|apply works_ensure_row]. }
    destruct (row_of _ spec) as [[]|]; try exact W2.
    eapply works_trans; [exact W2|apply works_row_value_set].
  - unfold _reset_defaults. cbv zeta.
    apply (box_works _ _ (works_save _ _ (works_refl _))).
    apply box_first_command, box_reset_writes. exact B.
Qed.

Lemma load_prefs_stored : forall metas data,
  _load_prefs (new_app metas (Stored data)) = loaded metas data.
Proof.
  intros metas data. unfold _load_prefs, loaded. cbn [prefs_file new_app].
  set (d := match data with JObj d => d | _ => [] end).
  destruct (as_str (jget "cwd" d)), (as_str (jget "db" d)), (as_str (jget "linkly" d)),
           (as_int (jget "detail" d)), (as_int (jget "quiet" d)),
           (as_int (jget "debug" d)); reflexivity.
Qed.

(** What [_load_prefs] leaves of the catalogue, the command box and the
    command shown when [__init__] calls it. *)
Lemma load_prefs_box : forall metas file,
  cmd_metas (_load_prefs (new_app metas file)) = metas
  /\ cmd_var (_load_prefs (new_app metas file)) = []
  /\ current_meta (_load_prefs (new_app metas file)) = None.
Proof.
  intros metas [| |data]; [now repeat split|now repeat split|].
  rewrite load_prefs_stored. now repeat split.
Qed.

Lemma box_startup : forall metas file a, startup metas file = Some a -> box_in_step a.
Proof.
  intros metas file a. unfold startup.
  destruct (load_prefs_box metas file) as (Mm & Mc & Mcur).
  set (a0 := _load_prefs (new_app metas file)) in *.
  assert (fin : forall b, box_in_step b -> box_in_step (_save_prefs (set_suspend_save false b))).
  { intros b Hb. apply box_works with (set_suspend_save false b); [auto with engine|exact Hb]. }
  destruct (sorted (map fst metas)) as [|first rest] eqn:E.
  - intro H. injection H as <-. apply fin.
    apply sorted_nil, map_eq_nil in E. unfold box_in_step.
    rewrite Mm, Mc, Mcur, E. split; [reflexivity|intro H; now contradiction H].
  - destruct (first_in_catalogue _ _ _ E) as [D Hne].
    assert (go : forall c, dict_mem str_eqb c metas = true ->
              box_in_step (_save_prefs (set_suspend_save false
                            (_apply_saved_state_for_current
                               (_on_command_change (set_cmd_var c a0)))))).
    { intros c Dc. apply fin.
      apply box_works with (_on_command_change (set_cmd_var c a0)); [auto with engine|].
      apply box_on_command_change. intros _.
      cbn [cmd_metas cmd_var set_cmd_var]. now rewrite Mm. }
    destruct (_restore_cmd a0); try discriminate;
      try (intro H; injection H as <-; now apply go).
    destruct (dict_mem str_eqb s metas) eqn:Ds; intro H; injection H as <-; now apply go.
Qed.

(** X18.  In every state of a session the command shown is the command
    of the catalogue the command box names; and when the catalogue is not
    empty the box names one of its commands, so that a command is
    shown. *)
Theorem command_box_names_the_command_shown : forall a : App,
  reachable a ->
  current_meta a = dict_get str_eqb (cmd_var a) (cmd_metas a)
  /\ (cmd_metas a <> [] -> exists m, current_meta a = Some m).
Proof.
  intros a R.
  assert (B : box_in_step a).
  { induction R as [metas file a H|a e R IH].
    - now apply box_startup with metas file.
    - now apply box_handle. }
  destruct B as [J M]. split; [exact J|].
  intro Hne. specialize (M Hne). unfold dict_mem in M. rewrite J.
  destruct (dict_get str_eqb (cmd_var a) (cmd_metas a)) as [m|]; [now exists m|discriminate].
Qed.

Lemma command_box_names_the_command_shown_witness :
  reachable (session NoFile [ChooseCommand (lit "market"); Reset])
  /\ cmd_var (session NoFile [ChooseCommand (lit "market"); Reset])
     = lit "Update/Rebuild DB"
  /\ current_meta (session NoFile [ChooseCommand (lit "market"); Reset])
     = Some rebuild_meta.
Proof.
  assert (R : reachable (session NoFile [ChooseCommand (lit "market"); Reset]))
    by (apply session_reachable; vm_compute; discriminate).
  split; [exact R|]. split; [vm_compute; reflexivity|].
  rewrite (proj1 (command_box_names_the_command_shown
                    (session NoFile [ChooseCommand (lit "market"); Reset]) R)).
  vm_compute. reflexivity.
Defined.

